(** * The jqftu quiz-session engine of muika_bot

    A shallow embedding of [muika/modules/jqftu/Session.cpp] (the session
    registry, the per-session worker, the score board, the finish summary
    and the snapshot files) together with the properties that the
    natural-language specification states about it.

    Conventions.
    - [int64_t] chat and user ids are [Z]; the [uint32_t] point counter is a
      [Z] whose wrap-around is written out with [uint32].
    - [std::string] is [string] (a sequence of 8-bit characters).
    - [Session *] is a heap address; the heap is a [gmap] from addresses to
      session records, so that erasing the registry entry and freeing the
      object stay two different events.
    - What the file calls but does not define (the deck classes, the JSON
      library, [std::sort], the Telegram API, the file system's failures)
      enters as an interface, a section variable or a step label. *)

From Stdlib Require Import ZArith String Ascii List Sorting.Sorted Lia.
From stdpp Require Import base decidable option list sorting gmap strings pretty.

Set Warnings "-register-all".

Open Scope string_scope.
Open Scope list_scope.
Open Scope Z_scope.

(* ===================================================================== *)
(** * HTML escaping *)
(* ===================================================================== *)

(** The double quote character of the C++ literals. *)
Definition dquote : ascii := "034"%char.

Module Html.

(** The body of the [switch (c)] in [htmlspecialchars]: the text appended
    to [ret] for one input character. *)
Definition escape_char (c : ascii) : string :=
  if Ascii.eqb c "&" then "&amp;"
  else if Ascii.eqb c "<" then "&lt;"
  else if Ascii.eqb c ">" then "&gt;"
  else if Ascii.eqb c dquote then "&quot;"
  else if Ascii.eqb c "'" then "&apos;"
  else String c "".

(** [for (auto &c: str) { ... ret += ...; }] with [ret] as accumulator. *)
Fixpoint htmlspecialchars_loop (str ret : string) : string :=
  match str with
  | EmptyString => ret
  | String c rest => htmlspecialchars_loop rest (ret +:+ escape_char c)
  end.

Definition htmlspecialchars (str : string) : string :=
  htmlspecialchars_loop str "".

(** The five HTML metacharacters and the entity the specification names
    for each (a definition from the specification's words, to compare the
    code with). *)
Definition entity_of (c : ascii) : option string :=
  if Ascii.eqb c "&" then Some "&amp;"
  else if Ascii.eqb c "<" then Some "&lt;"
  else if Ascii.eqb c ">" then Some "&gt;"
  else if Ascii.eqb c dquote then Some "&quot;"
  else if Ascii.eqb c "'" then Some "&apos;"
  else None.

Definition is_meta (c : ascii) : bool :=
  match entity_of c with Some _ => true | None => false end.

(** Character-wise replacement: every metacharacter becomes its entity,
    every other character stays. *)
Fixpoint replace_entities (str : string) : string :=
  match str with
  | EmptyString => ""
  | String c rest =>
      match entity_of c with
      | Some e => e +:+ replace_entities rest
      | None => String c (replace_entities rest)
      end
  end.

(** A text without unescaped metacharacters: plain characters and whole
    entities only. *)
Inductive escaped : string -> Prop :=
| escaped_nil : escaped ""
| escaped_plain c s : is_meta c = false -> escaped s -> escaped (String c s)
| escaped_entity c e s : entity_of c = Some e -> escaped s -> escaped (e +:+ s).

End Html.

(* ===================================================================== *)
(** * Machine integers and text helpers *)
(* ===================================================================== *)

(** [uint32_t] arithmetic: the value modulo 2^32. *)
Definition uint32 (z : Z) : Z := z mod 2 ^ 32.

(** Conversion to [int64_t] (two's complement wrap-around). *)
Definition int64 (z : Z) : Z := (z + 2 ^ 63) mod 2 ^ 64 - 2 ^ 63.

Definition in_uint32 (z : Z) : Prop := 0 <= z < 2 ^ 32.
Definition in_int64 (z : Z) : Prop := - 2 ^ 63 <= z < 2 ^ 63.

(** [std::to_string] on an integer: its decimal text. *)
Definition to_string (z : Z) : string := pretty z.

(** The line feed of the C++ literals. *)
Definition nl : string := String (ascii_of_nat 10) "".

(* ===================================================================== *)
(** * Telegram messages and API calls *)
(* ===================================================================== *)

Record User := mkUser {
  id : Z;
  firstName : string;
  lastName : string;
  username : string
}.

Record Message := mkMessage {
  chat : Z;
  from : User;
  text : string;
  messageId : Z
}.

(** The calls made on [m_.getBot().getApi()], in the order they are made.
    [sendMessage] carries the arguments the file passes: chat id, text,
    the third (boolean) argument, the message replied to and the parse
    mode. *)
Inductive ApiCall :=
| sendMessage (chat_id : Z) (body : string) (flag : bool) (reply_to : Z)
    (parse_mode : string)
| sendPhoto (chat_id : Z) (url caption : string) (reply_to : Z).

(* ===================================================================== *)
(** * Scores *)
(* ===================================================================== *)

Record Score := mkScore {
  point_ : Z;
  full_name_ : string;
  username_ : string
}.

#[global] Instance Score_eq_dec : EqDecision Score.
Proof. solve_decision. Defined.

(** Modelled from the spec: the declaration of [scores_] (Session.hpp) is
    missing.  The code uses it as a map from user id to [Score] ([find],
    [emplace], [at], iteration); the specification says that it keeps
    insertion order.  It is the list of its entries in iteration order, a
    new key going to the end. *)
Definition ScoreBoard := list (Z * Score).

Fixpoint sb_find (uid : Z) (sb : ScoreBoard) : option Score :=
  match sb with
  | [] => None
  | (k, sc) :: rest => if decide (k = uid) then Some sc else sb_find uid rest
  end.

(** [scores_.emplace(uid, sc)]: no effect when the key is present. *)
Definition sb_emplace (uid : Z) (sc : Score) (sb : ScoreBoard) : ScoreBoard :=
  match sb_find uid sb with
  | Some _ => sb
  | None => sb ++ [(uid, sc)]
  end.

(** [it->second.point_++] on the entry found for [uid]. *)
Fixpoint sb_increment (uid : Z) (sb : ScoreBoard) : ScoreBoard :=
  match sb with
  | [] => []
  | (k, sc) :: rest =>
      if decide (k = uid)
      then (k, mkScore (uint32 (point_ sc + 1)) (full_name_ sc) (username_ sc)) :: rest
      else (k, sc) :: sb_increment uid rest
  end.

(* ===================================================================== *)
(** * Cards and decks *)
(* ===================================================================== *)

(** The [Card] class (Card.hpp is not part of the sources): the four
    members [Session.cpp] calls. *)
Class CardOps (Card : Type) := {
  getQuestion : Card -> string;
  getQuestionInfo : Card -> string;
  getAnswerInfo : Card -> string;
  card_answer : Card -> string -> bool
}.

(** The abstract [Deck] class with its virtual members, and the factory
    [Deck::createDeck], which is [None] when it throws. *)
Class DeckOps (Card Deck : Type) := {
  shuffle : Deck -> Deck;
  draw : Deck -> option Card * Deck;
  isFinished : Deck -> bool;
  getName : Deck -> string;
  createDeck : string -> option Deck
}.

(* ===================================================================== *)
(** * Sessions *)
(* ===================================================================== *)

(** Modelled from the spec: the in-class initialisers of Session.hpp are
    missing; the constructor in Session.cpp sets [chat_id_], [ref_count_]
    and [deck_] only.  The two durations are left open; a new session has
    no current card, is not asked to stop and has sent no message. *)
Class SessionDefaults := {
  default_timeout : Z;
  default_next_delay : Z
}.

(** The members of [Session] that Session.cpp reads and writes.  [cond_]
    is the state of the condition variable: [true] when a [notify_one]
    is pending for the waiting worker. *)
Record Session (Card Deck : Type) := mkSession {
  chat_id_ : Z;
  deck_ : Deck;
  scores_ : ScoreBoard;
  current_card_ : option Card;
  timeout_ : Z;
  next_delay_ : Z;
  should_stop_ : bool;
  last_msg_id_ : Z;
  ref_count_ : Z;
  cond_ : bool
}.

Arguments mkSession {Card Deck}.
Arguments chat_id_ {Card Deck}.
Arguments deck_ {Card Deck}.
Arguments scores_ {Card Deck}.
Arguments current_card_ {Card Deck}.
Arguments timeout_ {Card Deck}.
Arguments next_delay_ {Card Deck}.
Arguments should_stop_ {Card Deck}.
Arguments last_msg_id_ {Card Deck}.
Arguments ref_count_ {Card Deck}.
Arguments cond_ {Card Deck}.

Section SessionMethods.
Context {Card Deck : Type} `{CardOps Card} `{DeckOps Card Deck} `{SessionDefaults}.

#[local] Abbreviation Session := (Session Card Deck).

Definition set_deck (d : Deck) (s : Session) : Session :=
  mkSession (chat_id_ s) d (scores_ s) (current_card_ s) (timeout_ s)
    (next_delay_ s) (should_stop_ s) (last_msg_id_ s) (ref_count_ s) (cond_ s).
Definition set_scores (sb : ScoreBoard) (s : Session) : Session :=
  mkSession (chat_id_ s) (deck_ s) sb (current_card_ s) (timeout_ s)
    (next_delay_ s) (should_stop_ s) (last_msg_id_ s) (ref_count_ s) (cond_ s).
Definition set_current_card (c : option Card) (s : Session) : Session :=
  mkSession (chat_id_ s) (deck_ s) (scores_ s) c (timeout_ s)
    (next_delay_ s) (should_stop_ s) (last_msg_id_ s) (ref_count_ s) (cond_ s).
Definition set_timeout (t : Z) (s : Session) : Session :=
  mkSession (chat_id_ s) (deck_ s) (scores_ s) (current_card_ s) t
    (next_delay_ s) (should_stop_ s) (last_msg_id_ s) (ref_count_ s) (cond_ s).
Definition set_next_delay (t : Z) (s : Session) : Session :=
  mkSession (chat_id_ s) (deck_ s) (scores_ s) (current_card_ s) (timeout_ s)
    t (should_stop_ s) (last_msg_id_ s) (ref_count_ s) (cond_ s).
Definition set_should_stop (b : bool) (s : Session) : Session :=
  mkSession (chat_id_ s) (deck_ s) (scores_ s) (current_card_ s) (timeout_ s)
    (next_delay_ s) b (last_msg_id_ s) (ref_count_ s) (cond_ s).
Definition set_last_msg_id (m : Z) (s : Session) : Session :=
  mkSession (chat_id_ s) (deck_ s) (scores_ s) (current_card_ s) (timeout_ s)
    (next_delay_ s) (should_stop_ s) m (ref_count_ s) (cond_ s).
Definition set_ref_count (n : Z) (s : Session) : Session :=
  mkSession (chat_id_ s) (deck_ s) (scores_ s) (current_card_ s) (timeout_ s)
    (next_delay_ s) (should_stop_ s) (last_msg_id_ s) n (cond_ s).
Definition set_cond (b : bool) (s : Session) : Session :=
  mkSession (chat_id_ s) (deck_ s) (scores_ s) (current_card_ s) (timeout_ s)
    (next_delay_ s) (should_stop_ s) (last_msg_id_ s) (ref_count_ s) b.

(** [cond_.notify_one()]. *)
Definition notify_one (s : Session) : Session := set_cond true s.

(** [Session::Session]: [None] when [Deck::createDeck] throws. *)
Definition new_Session (chat_id : Z) (deck_name : string) : option Session :=
  match createDeck deck_name with
  | None => None
  | Some d =>
      Some (mkSession chat_id d [] None default_timeout default_next_delay
              false 0 0 false)
  end.

(** The name put on the score board for a new participant. *)
Definition full_name_of (u : User) : string :=
  if decide (String.length (lastName u) = 0%nat)
  then firstName u
  else firstName u +:+ " " +:+ lastName u.

(** [Session::answer]: the new state and the messages sent. *)
Definition answer (msg : Message) (s : Session) : Session * list ApiCall :=
  match current_card_ s with
  | None => (s, [])
  | Some card =>
      if negb (card_answer card (text msg)) then (s, [])
      else
        let uid := id (from msg) in
        let '(scores', sc) :=
          match sb_find uid (scores_ s) with
          | None =>
              let sc := mkScore 1 (full_name_of (from msg)) (username (from msg)) in
              (sb_emplace uid sc (scores_ s), sc)
          | Some old =>
              (sb_increment uid (scores_ s),
               mkScore (uint32 (point_ old + 1)) (full_name_ old) (username_ old))
          end in
        let reply :=
          "Correct!" +:+ nl +:+ "Your point is: " +:+ to_string (point_ sc)
          +:+ nl +:+ nl +:+ getAnswerInfo card in
        (notify_one (set_current_card None (set_scores scores' s)),
         [sendMessage (chat_id_ s) reply false (messageId msg) ""])
  end.

(** Several messages handed to [Session::answer] one after the other,
    with no step of the worker in between. *)
Fixpoint answers (msgs : list Message) (s : Session) : Session * list ApiCall :=
  match msgs with
  | [] => (s, [])
  | m :: rest =>
      let '(s1, calls1) := answer m s in
      let '(s2, calls2) := answers rest s1 in
      (s2, calls1 ++ calls2)
  end.

(** [Session::stop]. *)
Definition stop (s : Session) : Session :=
  notify_one (set_should_stop true s).

(** [Session::setTimeout]. *)
Definition setTimeout (timeout : Z) (skip : bool) (s : Session) : Session :=
  let s1 := set_timeout (uint32 timeout) s in
  if skip then notify_one s1 else s1.

(** [Session::setNextDelay]. *)
Definition setNextDelay (next_delay : Z) (skip : bool) (s : Session) : Session :=
  let s1 := set_next_delay (uint32 next_delay) s in
  if skip then notify_one s1 else s1.

End SessionMethods.

(* ===================================================================== *)
(** * JSON documents *)
(* ===================================================================== *)

(** The values of [nlohmann::json].  An object is the list of its members
    in key order (the library keeps them in a [std::map]); [JInt] stands
    for both integer kinds, for which [is_number_integer] holds. *)
Inductive json :=
| JNull
| JBool (b : bool)
| JInt (z : Z)
| JFloat (mantissa exponent : Z)
| JString (s : string)
| JArray (items : list json)
| JObject (members : list (string * json)).

(** [j.find(key)] on an object. *)
Fixpoint obj_find (key : string) (members : list (string * json)) : option json :=
  match members with
  | [] => None
  | (k, v) :: rest => if String.eqb k key then Some v else obj_find key rest
  end.

(** [j[key] = v] on an object: replace the member or insert it in key
    order. *)
Fixpoint obj_set (key : string) (v : json) (members : list (string * json))
  : list (string * json) :=
  match members with
  | [] => [(key, v)]
  | (k, x) :: rest =>
      if String.eqb k key then (k, v) :: rest
      else if String.ltb key k then (key, v) :: (k, x) :: rest
      else (k, x) :: obj_set key v rest
  end.

(** The text form of a document: [dump] is [json::dump()], [parse] is
    [json::parse], [None] when it throws [parse_error]. *)
Class JsonCodec := {
  dump : json -> string;
  parse : string -> option json
}.

(** A [char *] read as a C string stops at the first NUL. *)
Fixpoint c_str (s : string) : string :=
  match s with
  | EmptyString => ""
  | String c rest => if Ascii.eqb c zero then "" else String c (c_str rest)
  end.

(** One element of ["scores"] as [serializeSessions] builds it. *)
Definition score_json (e : Z * Score) : json :=
  JObject
    (obj_set "point" (JInt (point_ e.2))
      (obj_set "username" (JString (username_ e.2))
        (obj_set "full_name" (JString (full_name_ e.2))
          (obj_set "user_id" (JInt e.1) [])))).

(** [for (auto &s: scores_) { ...; j["scores"].push_back(so); }]. *)
Fixpoint scores_json_loop (sb : ScoreBoard) (arr : list json) : list json :=
  match sb with
  | [] => arr
  | e :: rest => scores_json_loop rest (arr ++ [score_json e])
  end.

(** One element of ["scores"] as [initSessionFromJson] reads it: [None]
    where the loop body does [continue]. *)
Definition score_of_json (so : json) : option (Z * Score) :=
  match so with
  | JObject m =>
      match obj_find "user_id" m with
      | Some (JInt uid) =>
          match obj_find "full_name" m with
          | Some (JString fn) =>
              match obj_find "username" m with
              | Some (JString un) =>
                  match obj_find "point" m with
                  | Some (JInt p) => Some (int64 uid, mkScore (uint32 p) fn un)
                  | _ => None
                  end
              | _ => None
              end
          | _ => None
          end
      | _ => None
      end
  | _ => None
  end.

(** [for (auto &score: j["scores"].items()) { ...; s->scores_.emplace(...); }]. *)
Fixpoint restore_scores (items : list json) (sb : ScoreBoard) : ScoreBoard :=
  match items with
  | [] => sb
  | so :: rest =>
      match score_of_json so with
      | None => restore_scores rest sb
      | Some (uid, sc) => restore_scores rest (sb_emplace uid sc sb)
      end
  end.

(** The three fields [initSessionFromJson] checks before it creates the
    session: chat id, deck name and the score array. *)
Definition snapshot_fields (j : json) : option (Z * string * list json) :=
  match j with
  | JObject m =>
      match obj_find "chat_id" m with
      | Some (JInt cid) =>
          match obj_find "deck_name" m with
          | Some (JString dn) =>
              match obj_find "scores" m with
              | Some (JArray items) => Some (int64 cid, dn, items)
              | _ => None
              end
          | _ => None
          end
      | _ => None
      end
  | _ => None
  end.

(* ===================================================================== *)
(** * The process state: registry, heap, snapshot files, sent messages *)
(* ===================================================================== *)

(** A [Session *]. *)
Definition addr := positive.

(** Where the worker thread of a session stands in [Session::worker]. *)
Inductive PC :=
| PStart        (* thread created, before [ref_count_++] *)
| PLoop         (* top of [while (1)] *)
| PAwait        (* in [cond_.wait_for(lock, timeout_)] *)
| PDelay        (* in [cond_.wait_for(lock, next_delay_)] *)
| PSave         (* at [serializeSessions(chat_id_)] *)
| PFinish       (* at [sendFinishMessage()] *)
| PDeregister   (* at [deleteSession(chat_id_)] *)
| PRelease      (* at [if (ref_count_-- == 1) delete this] *)
| PDone.        (* thread has returned *)

#[global] Instance PC_eq_dec : EqDecision PC.
Proof. solve_decision. Defined.

Record World (Card Deck : Type) := mkWorld {
  g_sessions : gmap Z addr;                 (* the registry map *)
  heap : gmap addr (Session Card Deck);     (* the sessions that are allocated *)
  storage : gmap string string;             (* ./storage/jqftu/sessions, by file name *)
  outbox : list ApiCall;                    (* the API calls made so far *)
  workers : gmap addr PC                    (* the detached worker threads *)
}.

Arguments mkWorld {Card Deck}.
Arguments g_sessions {Card Deck}.
Arguments heap {Card Deck}.
Arguments storage {Card Deck}.
Arguments outbox {Card Deck}.
Arguments workers {Card Deck}.

(** The state of a process that has just started, with the snapshot
    files it finds. *)
Definition empty_world {Card Deck} (files : gmap string string) : World Card Deck :=
  mkWorld ∅ ∅ files [] ∅.

(** [snprintf(path, ..., "./storage/jqftu/sessions/s_%lld.json", key)]: the
    file name inside the sessions directory. *)
Definition snapshot_name (key : Z) : string :=
  "s_" +:+ to_string key +:+ ".json".

(** [n[0] == 's' && n[1] == '_'] on a directory entry name. *)
Definition is_snapshot_name (n : string) : bool :=
  match n with
  | String c0 (String c1 _) => Ascii.eqb c0 "s" && Ascii.eqb c1 "_"
  | _ => false
  end.

Section Registry.
Context {Card Deck : Type} `{CardOps Card} `{DeckOps Card Deck} `{SessionDefaults}.

#[local] Abbreviation Session := (Session Card Deck).
#[local] Abbreviation World := (World Card Deck).

Definition set_g_sessions (g : gmap Z addr) (w : World) : World :=
  mkWorld g (heap w) (storage w) (outbox w) (workers w).
Definition set_heap (h : gmap addr Session) (w : World) : World :=
  mkWorld (g_sessions w) h (storage w) (outbox w) (workers w).
Definition set_storage (f : gmap string string) (w : World) : World :=
  mkWorld (g_sessions w) (heap w) f (outbox w) (workers w).
Definition set_workers (t : gmap addr PC) (w : World) : World :=
  mkWorld (g_sessions w) (heap w) (storage w) (outbox w) t.

(** Calls on the bot API are appended to the log. *)
Definition send (calls : list ApiCall) (w : World) : World :=
  mkWorld (g_sessions w) (heap w) (storage w) (outbox w ++ calls) (workers w).

(** [delete sess]. *)
Definition free (p : addr) (w : World) : World :=
  set_heap (delete p (heap w)) w.

(** A write through a [Session *]. *)
Definition update (p : addr) (f : Session -> Session) (w : World) : World :=
  set_heap (alter f p (heap w)) w.

(** [Session::getSession]. *)
Definition getSession (chat_id : Z) (w : World) : option addr * World :=
  match g_sessions w !! chat_id with
  | None => (None, w)
  | Some sess =>
      (Some sess, update sess (fun s => set_ref_count (ref_count_ s + 1) s) w)
  end.

(** [if (x->ref_count_-- == 1) delete x;], the body of [putSession] and
    the last statement of the worker. *)
Definition release (p : addr) (w : World) : World :=
  match heap w !! p with
  | None => w
  | Some s =>
      if decide (ref_count_ s = 1) then free p w
      else update p (set_ref_count (ref_count_ s - 1)) w
  end.

(** [Session::putSession]. *)
Definition putSession (sess : addr) (w : World) : World := release sess w.

(** [Session::createSession].  [new] takes an address that is not in use;
    the exception caught is the one of the constructor. *)
Definition createSession (chat_id : Z) (deck_name : string) (w : World)
  : option addr * World :=
  match g_sessions w !! chat_id with
  | Some _ => (None, w)
  | None =>
      match new_Session chat_id deck_name with
      | None => (None, w)
      | Some s =>
          let sess := fresh (dom (heap w)) in
          let w1 := set_heap (<[sess := s]> (heap w)) w in
          let w2 := set_g_sessions (<[chat_id := sess]> (g_sessions w1)) w1 in
          (Some sess, update sess (fun s => set_ref_count (ref_count_ s + 1) s) w2)
      end
  end.

(** [Session::deleteSession]. *)
Definition deleteSession (chat_id : Z) (w : World) : World :=
  match g_sessions w !! chat_id with
  | None => w
  | Some _ => set_g_sessions (delete chat_id (g_sessions w)) w
  end.

(** [Session::_start]: [spawn_error] is the text of the exception thrown by
    the [std::thread] constructor, if any. *)
Definition _start (spawn_error : option string) (this : addr) (w : World) : World :=
  match spawn_error with
  | Some what =>
      match heap w !! this with
      | None => w
      | Some s =>
          send [sendMessage (chat_id_ s) ("Failed to start session: " +:+ what)
                  false 0 ""] w
      end
  | None => set_workers (<[this := PStart]> (workers w)) w
  end.

(** [Session::start]. *)
Definition start (spawn_error : option string) (this : addr) (w : World) : World :=
  let w1 := _start spawn_error this w in
  match heap w1 !! this with
  | None => w1
  | Some s => send [sendMessage (chat_id_ s) "Session started!" false 0 ""] w1
  end.

End Registry.

(* ===================================================================== *)
(** * Snapshots: writing and reading back *)
(* ===================================================================== *)

Section Persistence.
Context {Card Deck : Type} `{CardOps Card} `{DeckOps Card Deck} `{SessionDefaults}
  `{JsonCodec}.

#[local] Abbreviation Session := (Session Card Deck).
#[local] Abbreviation World := (World Card Deck).

(** The document [j] that [serializeSessions] builds for a session. *)
Definition session_json (s : Session) : json :=
  JObject
    (obj_set "scores" (JArray (scores_json_loop (scores_ s) []))
      (obj_set "deck_name" (JString (getName (deck_ s)))
        (obj_set "chat_id" (JInt (chat_id_ s)) []))).

(** [Session::serializeSessions].  [fopen_ok] tells whether [fopen(path,
    "wb")] succeeds, [written] what [fwrite] returns (never more than it
    is given), and [flushed] how many bytes of the text the file holds
    once [fclose] has returned.  The stream is buffered and the result of
    [fclose] is not looked at, so the two numbers need not agree: only
    the first decides whether the file is removed.  Opening truncates the
    file; [remove(path)] deletes it. *)
Definition serializeSessions (fopen_ok : bool) (written flushed : nat) (key : Z)
    (w : World) : World :=
  match g_sessions w !! key with
  | None => w
  | Some p =>
      match heap w !! p with
      | None => w
      | Some s =>
          let json_str := dump (session_json s) in
          let path := snapshot_name key in
          if negb fopen_ok then w
          else
            let len := Nat.min written (String.length json_str) in
            let on_disk := Nat.min flushed (String.length json_str) in
            let w1 :=
              set_storage (<[path := substring 0 on_disk json_str]> (storage w)) w in
            if decide (len = String.length json_str) then w1
            else set_storage (delete path (storage w1)) w1
      end
  end.

(** [Session::initSessionFromJson]. *)
Definition initSessionFromJson (spawn_error : option string) (j : json)
    (w : World) : World :=
  match snapshot_fields j with
  | None => w
  | Some (chat_id, deck_name, items) =>
      match createSession chat_id deck_name w with
      | (None, w1) => w1
      | (Some s, w1) =>
          let w2 := update s (fun x => set_scores (restore_scores items (scores_ x)) x) w1 in
          _start spawn_error s w2
      end
  end.

(** [load_str_from_file]: the content of the named file, [None] when it
    cannot be opened. *)
Definition load_str_from_file (file_handle : string) (w : World) : option string :=
  storage w !! file_handle.

(** One round of the [readdir] loop of [Session::init] for the entry
    named [n]. *)
Definition init_entry (spawn_error : string -> option string) (w : World)
    (n : string) : World :=
  if is_snapshot_name n then
    match load_str_from_file n w with
    | None => w
    | Some json_str =>
        match parse (c_str json_str) with
        | None => w
        | Some j => initSessionFromJson (spawn_error n) j w
        end
    end
  else w.

(** [Session::init]: [listing] is what [readdir] returns, in its order;
    [spawn_error] says for which entries the worker thread cannot be
    started. *)
Definition init (spawn_error : string -> option string) (listing : list string)
    (w : World) : World :=
  fold_left (init_entry spawn_error) listing w.

End Persistence.

(* ===================================================================== *)
(** * The finish summary *)
(* ===================================================================== *)

(** The comparison passed to [std::sort]: [a.second.point_ > b.second.point_]. *)
Definition by_point (a b : Z * Score) : bool := point_ b.2 <? point_ a.2.

(** What [std::sort(first, last, comp)] guarantees about its result: the
    same elements, no element ordered by [comp] before one that precedes
    it.  The order of elements that [comp] does not separate is not
    specified; the result is therefore picked by the environment among
    the lists with this property. *)
Definition std_sort_result {A} (comp : A -> A -> bool) (l l' : list A) : Prop :=
  l ≡ₚ l' /\ StronglySorted (fun x y => comp y x = false) l'.

#[global] Instance std_sort_result_dec {A} `{EqDecision A} (comp : A -> A -> bool)
  (l l' : list A) : Decision (std_sort_result comp l l').
Proof. unfold std_sort_result. apply _. Defined.

(** The loop over [scores_vec] that builds the text, with the counter [i]
    and the text [score] as accumulators. *)
Fixpoint finish_lines (scores_vec : list (Z * Score)) (i : Z) (score : string)
  : string :=
  match scores_vec with
  | [] => score
  | s :: rest =>
      let name_link :=
        "<a href=" +:+ String dquote "tg://user?id=" +:+ to_string s.1
        +:+ String dquote ">" +:+ Html.htmlspecialchars (full_name_ s.2) +:+ "</a>" in
      let score :=
        score +:+ to_string i +:+ ". " +:+ name_link +:+ ": "
        +:+ to_string (point_ s.2) +:+ " point" in
      let score := if 1 <? point_ s.2 then score +:+ "s" else score in
      finish_lines rest (uint32 (i + 1)) (score +:+ nl)
  end.

Definition finish_text (scores_vec : list (Z * Score)) : string :=
  finish_lines scores_vec 1 ("Session finished!" +:+ nl +:+ nl).

(* ===================================================================== *)
(** * The worker thread *)
(* ===================================================================== *)

(** The result of [wait_for]. *)
Inductive cv_status := no_timeout | timeout.

(** What the outside world contributes to one step of the worker. *)
Inductive Label :=
| LRun
    (* a step that depends on nothing outside *)
| LCard (url : option string) (photo : option Z)
    (* the image URL from the rendering service and the id of the photo
       message, [None] for a failure *)
| LWake (st : cv_status)
    (* how [wait_for] returns *)
| LSave (fopen_ok : bool) (written flushed : nat)
    (* the outcome of [fopen], of [fwrite] and of the flush at [fclose]
       in the checkpoint *)
| LFinish (ranking : list (Z * Score)).
    (* the order in which [std::sort] leaves [scores_vec] *)

Section Worker.
Context {Card Deck : Type} `{CardOps Card} `{DeckOps Card Deck} `{SessionDefaults}
  `{JsonCodec}.

#[local] Abbreviation Session := (Session Card Deck).
#[local] Abbreviation World := (World Card Deck).

Definition goto (pc : PC) (this : addr) (w : World) : World :=
  set_workers (<[this := pc]> (workers w)) w.

(** [Session::sendFailMessage]: the call it makes.  It dereferences
    [current_card_]; there is no result when that is null. *)
Definition sendFailMessage (msg : string) (s : Session) : option ApiCall :=
  match current_card_ s with
  | None => None
  | Some card =>
      Some (sendMessage (chat_id_ s) (msg +:+ nl +:+ nl +:+ getAnswerInfo card)
              false (last_msg_id_ s) "")
  end.

(** [Session::sendCard] for the current card [card]: the calls made, the
    session afterwards and the returned boolean. *)
Definition sendCard (url : option string) (photo : option Z) (card : Card)
    (s : Session) : list ApiCall * Session * bool :=
  match url with
  | None =>
      ([sendMessage (chat_id_ s) "Failed to generate image, stopping session..."
          false 0 ""], s, false)
  | Some u =>
      let i := getQuestionInfo card +:+ nl +:+ nl +:+ "Timeout: "
               +:+ to_string (timeout_ s) +:+ " seconds" in
      let call := sendPhoto (chat_id_ s) u i (last_msg_id_ s) in
      match photo with
      | None =>
          ([call; sendMessage (chat_id_ s) "Failed to send image, stopping session..."
                    false 0 ""], s, false)
      | Some mid => ([call], set_last_msg_id mid s, true)
      end
  end.

(** [Session::sendFinishMessage] when [std::sort] leaves the entries in
    the order [ranking]: the calls made. *)
Definition sendFinishMessage (ranking : list (Z * Score)) (s : Session)
  : option (list ApiCall) :=
  if decide (std_sort_result by_point (scores_ s) ranking) then
    let score := finish_text ranking in
    let summary := sendMessage (chat_id_ s) score true 0 "HTML" in
    match current_card_ s with
    | None => Some [summary]
    | Some _ =>
        match sendFailMessage "Game is stopped!" s with
        | None => None
        | Some notice => Some [notice; summary]
        end
    end
  else None.

(** Where the worker goes after the answer wait: the second [wait_for] is
    entered only when the deck is not finished and no stop is asked. *)
Definition after_await (s : Session) : PC :=
  if negb (isFinished (deck_ s)) && negb (should_stop_ s) then PDelay else PSave.

(** A session object overwritten in place. *)
Definition store (this : addr) (s : Session) (w : World) : World :=
  set_heap (<[this := s]> (heap w)) w.

(** One step of [Session::worker] for the session at [this], from the
    point recorded in [workers].  [None]: the label does not fit the
    point, or the step has no defined behaviour.

    A [notify_one] reaches the worker only while it waits: the pending
    notification is dropped when the worker takes the lock at its start
    and consumed when a wait returns.  A wait returns [no_timeout] only
    for a notification (wake-ups without one are left out). *)
Definition worker_step (this : addr) (l : Label) (w : World) : option World :=
  match workers w !! this, heap w !! this with
  | Some pc, Some s =>
      match pc, l with
      | PStart, LRun =>
          let s1 := set_ref_count (ref_count_ s + 1) s in
          let s2 := set_cond false (set_deck (shuffle (deck_ s1)) s1) in
          Some (goto PLoop this (store this s2 w))
      | PLoop, LCard url photo =>
          if should_stop_ s then Some (goto PFinish this w)
          else if isFinished (deck_ s) then Some (goto PFinish this w)
          else
            let '(c, d) := draw (deck_ s) in
            let s1 := set_current_card c (set_deck d s) in
            match c with
            | None => Some (goto PFinish this (store this s1 w))
            | Some card =>
                let '(calls, s2, ok) := sendCard url photo card s1 in
                Some (goto (if ok then PAwait else PFinish) this
                        (send calls (store this s2 w)))
            end
      | PAwait, LWake timeout =>
          match sendFailMessage "Time's up!" s with
          | None => None
          | Some notice =>
              let s1 := set_cond false (set_current_card None s) in
              Some (goto (after_await s1) this (send [notice] (store this s1 w)))
          end
      | PAwait, LWake no_timeout =>
          if cond_ s then
            let s1 := set_cond false s in
            Some (goto (after_await s1) this (store this s1 w))
          else None
      | PDelay, LWake timeout =>
          Some (goto PSave this (store this (set_cond false s) w))
      | PDelay, LWake no_timeout =>
          if cond_ s then Some (goto PSave this (store this (set_cond false s) w))
          else None
      | PSave, LSave fopen_ok written flushed =>
          Some (goto PLoop this
                  (serializeSessions fopen_ok written flushed (chat_id_ s) w))
      | PFinish, LFinish ranking =>
          match sendFinishMessage ranking s with
          | None => None
          | Some calls => Some (goto PDeregister this (send calls w))
          end
      | PDeregister, LRun =>
          Some (goto PRelease this (deleteSession (chat_id_ s) w))
      | PRelease, LRun =>
          Some (goto PDone this (release this w))
      | _, _ => None
      end
  | _, _ => None
  end.

(** A run of the worker: one step per label. *)
Fixpoint worker_run (this : addr) (ls : list Label) (w : World) : option World :=
  match ls with
  | [] => Some w
  | l :: rest =>
      match worker_step this l w with
      | None => None
      | Some w1 => worker_run this rest w1
      end
  end.

(** A method called on the session at [this] by another thread. *)
Definition call (this : addr) (f : Session -> Session) (w : World) : World :=
  update this f w.

(** The first branch of [entry] (entry.cpp): a message in a chat that has
    a session is handed to [Session::answer] between [getSession] and
    [putSession].  [None] when the chat has no session (the message is
    then looked at as a command). *)
Definition entry (msg : Message) (w : World) : option World :=
  match getSession (chat msg) w with
  | (None, _) => None
  | (Some sess, w1) =>
      match heap w1 !! sess with
      | None => None
      | Some s =>
          let '(s1, calls) := answer msg s in
          Some (putSession sess (send calls (store sess s1 w1)))
      end
  end.

(** What the threads of the process do to the session at [this]: its
    worker takes a step, a message comes in through [entry], another
    thread calls one of the control methods on it, or takes and gives
    back a reference. *)
Inductive Event :=
| EWork (l : Label)
| EEntry (msg : Message)
| EStop
| ESetTimeout (timeout : Z) (skip : bool)
| ESetNextDelay (next_delay : Z) (skip : bool)
| EGet (chat_id : Z)
| EPut (sess : addr).

Definition exec (this : addr) (e : Event) (w : World) : option World :=
  match e with
  | EWork l => worker_step this l w
  | EEntry msg => entry msg w
  | EStop => Some (call this stop w)
  | ESetTimeout t skip => Some (call this (setTimeout t skip) w)
  | ESetNextDelay t skip => Some (call this (setNextDelay t skip) w)
  | EGet chat_id => Some (getSession chat_id w).2
  | EPut sess => Some (putSession sess w)
  end.

(** An interleaving of such events, one after the other. *)
Fixpoint run (this : addr) (es : list Event) (w : World) : option World :=
  match es with
  | [] => Some w
  | e :: rest =>
      match exec this e w with
      | None => None
      | Some w1 => run this rest w1
      end
  end.

End Worker.

(* ===================================================================== *)
(** * A concrete instance: list decks and a small JSON codec *)
(* ===================================================================== *)

(** The interfaces above are instantiated here, to run the model on
    concrete sessions. *)
Module Example.

(** A card that accepts exactly one answer text. *)
Record Card := mkCard {
  question : string;
  question_info : string;
  answer_info : string;
  accepted : string
}.

#[global] Instance Card_ops : CardOps Card := {|
  getQuestion := question;
  getQuestionInfo := question_info;
  getAnswerInfo := answer_info;
  card_answer c a := String.eqb a (accepted c)
|}.

(** A deck that hands out its cards from the front; shuffling keeps the
    order. *)
Record Deck := mkDeck {
  name_ : string;
  cards : list Card
}.

Definition card1 : Card := mkCard "Q1" "first question" "answer: a1" "a1".
Definition card2 : Card := mkCard "Q2" "second question" "answer: a2" "a2".

#[global] Instance Deck_ops : DeckOps Card Deck := {|
  shuffle d := d;
  draw d :=
    match cards d with
    | [] => (None, d)
    | c :: rest => (Some c, mkDeck (name_ d) rest)
    end;
  isFinished d := match cards d with [] => true | _ => false end;
  getName := name_;
  createDeck n :=
    if String.eqb n "two" then Some (mkDeck "two" [card1; card2])
    else if String.eqb n "one" then Some (mkDeck "one" [card1])
    else None
|}.

#[global] Instance defaults : SessionDefaults := {|
  default_timeout := 30;
  default_next_delay := 5
|}.

(** ** A printer and a reader for compact JSON text *)

Fixpoint dump_string_body (s : string) : string :=
  match s with
  | EmptyString => ""
  | String c rest =>
      if Ascii.eqb c dquote || Ascii.eqb c "\"
      then String "\" (String c (dump_string_body rest))
      else String c (dump_string_body rest)
  end.

Definition dump_string (s : string) : string :=
  String dquote (dump_string_body s) +:+ String dquote "".

Fixpoint dump_json (j : json) : string :=
  match j with
  | JNull => "null"
  | JBool true => "true"
  | JBool false => "false"
  | JInt z => pretty z
  | JFloat m e => pretty m +:+ "e" +:+ pretty e
  | JString s => dump_string s
  | JArray items =>
      "[" +:+
      (fix go (l : list json) : string :=
         match l with
         | [] => ""
         | [x] => dump_json x
         | x :: r => dump_json x +:+ "," +:+ go r
         end) items +:+ "]"
  | JObject members =>
      "{" +:+
      (fix go (l : list (string * json)) : string :=
         match l with
         | [] => ""
         | [(k, x)] => dump_string k +:+ ":" +:+ dump_json x
         | (k, x) :: r => dump_string k +:+ ":" +:+ dump_json x +:+ "," +:+ go r
         end) members +:+ "}"
  end.

(** The text of a string literal after its opening quote. *)
Fixpoint parse_string_body (s : string) : option (string * string) :=
  match s with
  | EmptyString => None
  | String c rest =>
      if Ascii.eqb c dquote then Some ("", rest)
      else if Ascii.eqb c "\" then
        match rest with
        | String e rest' =>
            match parse_string_body rest' with
            | Some (body, r) => Some (String e body, r)
            | None => None
            end
        | EmptyString => None
        end
      else
        match parse_string_body rest with
        | Some (body, r) => Some (String c body, r)
        | None => None
        end
  end.

Definition digit_of (c : ascii) : option Z :=
  let n := Z.of_nat (nat_of_ascii c) in
  if (48 <=? n) && (n <=? 57) then Some (n - 48) else None.

Fixpoint parse_digits (s : string) (acc : Z) : Z * string :=
  match s with
  | EmptyString => (acc, s)
  | String c rest =>
      match digit_of c with
      | Some d => parse_digits rest (10 * acc + d)
      | None => (acc, s)
      end
  end.

Definition parse_int (s : string) : option (Z * string) :=
  match s with
  | String "-" (String c rest) =>
      match digit_of c with
      | Some _ => let '(n, r) := parse_digits (String c rest) 0 in Some (- n, r)
      | None => None
      end
  | String c _ =>
      match digit_of c with
      | Some _ => Some (parse_digits s 0)
      | None => None
      end
  | EmptyString => None
  end.

(** The elements of an array after its opening bracket, given the reader
    [pv] for one value. *)
Fixpoint parse_items (pv : string -> option (json * string)) (fuel : nat)
    (s : string) : option (list json * string) :=
  match fuel with
  | O => None
  | S f =>
      match pv s with
      | None => None
      | Some (x, String "," r) =>
          match parse_items pv f r with
          | Some (xs, r') => Some (x :: xs, r')
          | None => None
          end
      | Some (x, String "]" r) => Some ([x], r)
      | Some _ => None
      end
  end.

(** The members of an object after its opening brace. *)
Fixpoint parse_members (pv : string -> option (json * string)) (fuel : nat)
    (s : string) : option (list (string * json) * string) :=
  match fuel with
  | O => None
  | S f =>
      match s with
      | String q r0 =>
          if Ascii.eqb q dquote then
            match parse_string_body r0 with
            | Some (k, String ":" r1) =>
                match pv r1 with
                | None => None
                | Some (x, String "," r) =>
                    match parse_members pv f r with
                    | Some (xs, r') => Some ((k, x) :: xs, r')
                    | None => None
                    end
                | Some (x, String "}" r) => Some ([(k, x)], r)
                | Some _ => None
                end
            | _ => None
            end
          else None
      | EmptyString => None
      end
  end.

Fixpoint parse_value (fuel : nat) (s : string) : option (json * string) :=
  match fuel with
  | O => None
  | S f =>
      match s with
      | String "n" (String "u" (String "l" (String "l" r))) => Some (JNull, r)
      | String "t" (String "r" (String "u" (String "e" r))) => Some (JBool true, r)
      | String "f" (String "a" (String "l" (String "s" (String "e" r)))) =>
          Some (JBool false, r)
      | String "[" (String "]" r) => Some (JArray [], r)
      | String "[" r =>
          match parse_items (parse_value f) f r with
          | Some (xs, r') => Some (JArray xs, r')
          | None => None
          end
      | String "{" (String "}" r) => Some (JObject [], r)
      | String "{" r =>
          match parse_members (parse_value f) f r with
          | Some (xs, r') => Some (JObject xs, r')
          | None => None
          end
      | String c r =>
          if Ascii.eqb c dquote then
            match parse_string_body r with
            | Some (body, r') => Some (JString body, r')
            | None => None
            end
          else
            match parse_int s with
            | Some (z, r') => Some (JInt z, r')
            | None => None
            end
      | EmptyString => None
      end
  end.

(** A whole text is a document when nothing is left after the value. *)
Definition parse_json (s : string) : option json :=
  match parse_value (S (String.length s)) s with
  | Some (j, EmptyString) => Some j
  | _ => None
  end.

#[global] Instance codec : JsonCodec := {|
  dump := dump_json;
  parse := parse_json
|}.

(** ** Sample data *)

(** Three participants with 3, 1 and 3 points, in the order they got on
    the board, and an order in which the third comes first. *)
Definition ann : Z * Score := (1, mkScore 3 "Ann" "ann").
Definition bob : Z * Score := (2, mkScore 1 "Bob" "bob").
Definition cyd : Z * Score := (3, mkScore 3 "Cyd" "cyd").

Definition board313 : ScoreBoard := [ann; bob; cyd].
Definition rank313 : list (Z * Score) := [cyd; ann; bob].

(** A session of chat 42 whose deck is used up, with this board. *)
Definition session313 : Session Card Deck :=
  mkSession 42 (mkDeck "one" []) board313 None 30 5 false 0 1 false.

(** A running session of chat 42 at address 1: one card is left in the
    deck, two participants have points, the worker is about to write the
    checkpoint. *)
Definition board2 : ScoreBoard :=
  [(7, mkScore 2 "Ann Lee" "ann"); (-9, mkScore 1 "Bob" "")].

Definition live_session : Session Card Deck :=
  mkSession 42 (mkDeck "two" [card2]) board2 None 30 5 false 0 2 false.

Definition live_world : World Card Deck :=
  mkWorld {[42 := 1%positive]} {[1%positive := live_session]} ∅ []
    {[1%positive := PSave]}.

(** Messages from Ann, with a right and with a wrong answer to [card1],
    and a right answer from somebody new. *)
Definition ann_user : User := mkUser 7 "Ann" "Lee" "ann".
Definition dan_user : User := mkUser 8 "Dan" "" "dan".
Definition right_from_ann : Message := mkMessage 42 ann_user "a1" 100.
Definition wrong_from_ann : Message := mkMessage 42 ann_user "zz" 101.
Definition right_from_dan : Message := mkMessage 42 dan_user "a1" 102.

(** The session above while [card1] is shown. *)
Definition asking_session : Session Card Deck :=
  mkSession 42 (mkDeck "two" [card2]) board2 (Some card1) 30 5 false 55 2 false.

(** A sessions directory with two good snapshots, a text that is not
    JSON, a document whose chat id is a string, and a file that is not a
    snapshot. *)
Definition good_doc (chat_id : Z) (scores : list json) : string :=
  dump_json (JObject [("chat_id", JInt chat_id); ("deck_name", JString "one");
                      ("scores", JArray scores)]).

Definition sample_files : gmap string string :=
  {[ "s_1.json" := good_doc 1 [score_json (7, mkScore 2 "Ann Lee" "ann")];
     "s_2.json" := "{oops";
     "s_3.json" := dump_json (JObject [("chat_id", JString "3");
                                       ("deck_name", JString "one");
                                       ("scores", JArray [])]);
     "s_4.json" := good_doc 4 [];
     "notes.txt" := good_doc 5 [] ]}.

Definition sample_listing : list string :=
  ["."; ".."; "s_2.json"; "s_1.json"; "notes.txt"; "s_3.json"; "s_4.json"].

Definition no_spawn_error : string -> option string := fun _ => None.

(** The process while [card1] is shown in chat 42 and its worker waits
    for the answer. *)
Definition asking_world : World Card Deck :=
  mkWorld {[42 := 1%positive]} {[1%positive := asking_session]} ∅ []
    {[1%positive := PAwait]}.

(** What follows a wake-up from the answer wait in [asking_world]: the
    pause between cards runs out, the checkpoint is written, the next
    card is sent as message 77. *)
Definition after_wake : list Label :=
  [LWake timeout; LSave true 1000 1000; LCard (Some "http://img/2") (Some 77)].

(** A session of chat 42 with the one-card deck, created and started in
    a new process, and a whole run of its worker: the card is sent as
    message 10, nobody answers in time, the checkpoint is written, the
    deck is found finished, the summary is sent, the session is
    deregistered and released. *)
Definition started_world : World Card Deck :=
  start None 1%positive (createSession 42 "one" (empty_world ∅)).2.

Definition run_to_deregistered : list Label :=
  [LRun; LCard (Some "http://img/1") (Some 10); LWake timeout; LSave true 1000 1000;
   LCard None None; LFinish []; LRun].

Definition whole_run : list Label := run_to_deregistered ++ [LRun].

(** The same session when Ann answers the card in time: her message
    wakes the worker, which writes the checkpoint, finds the deck
    finished, sends the summary and deregisters; a lookup of chat 42
    follows. *)
Definition answered_run : list Event :=
  [EWork LRun; EWork (LCard (Some "http://img/1") (Some 10));
   EEntry right_from_ann; EWork (LWake no_timeout); EWork (LSave true 1000 1000);
   EWork (LCard None None); EWork (LFinish [(7, mkScore 1 "Ann Lee" "ann")]);
   EWork LRun; EGet 42].

(** The session with the board [ann; bob; cyd] at its finish, with its
    snapshot on disk. *)
Definition finishing_world : World Card Deck :=
  mkWorld {[42 := 1%positive]} {[1%positive := session313]}
    {[snapshot_name 42 := dump_json (session_json session313)]} []
    {[1%positive := PFinish]}.

End Example.

(* ===================================================================== *)
(** * Notions used to state the properties *)
(* ===================================================================== *)

(** [x] comes before [y] in [l]. *)
Definition precedes {A} (l : list A) (x y : A) : Prop :=
  exists i j : nat, (i < j)%nat /\ l !! i = Some x /\ l !! j = Some y.

(** A ranking in which the points never go up. *)
Definition descending (ranking : list (Z * Score)) : Prop :=
  StronglySorted (fun a b => point_ b.2 <= point_ a.2) ranking.

(** Entries with equal points keep the order they have on the board. *)
Definition ties_in_insertion_order (sb ranking : list (Z * Score)) : Prop :=
  forall x y, point_ x.2 = point_ y.2 -> precedes sb x y -> precedes ranking x y.

(** The integers of a session are in the range of their C++ types. *)
Definition score_in_range (e : Z * Score) : Prop :=
  in_int64 e.1 /\ in_uint32 (point_ e.2).

Definition session_in_range {Card Deck} (s : Session Card Deck) : Prop :=
  in_int64 (chat_id_ s) /\ Forall score_in_range (scores_ s).

(** Two score boards that map the same ids to the same scores. *)
Definition same_scores (a b : ScoreBoard) : Prop :=
  forall uid, sb_find uid a = sb_find uid b.

(** The restored session [s'] goes on where the saved session [s] was:
    the first card its worker draws, after the shuffle it starts with, is
    the card that [s] would have drawn next. *)
Definition resumes_at_next_undrawn {Card Deck} `{DeckOps Card Deck}
    (s s' : Session Card Deck) : Prop :=
  (draw (shuffle (deck_ s'))).1 = (draw (deck_ s)).1.

Section Snapshots.
Context {Card Deck : Type} `{JsonCodec}.

(** What the recovery scan gets out of the directory entry [n]: the three
    fields of its document, or [None] for an entry it passes over (not a
    snapshot name, unreadable, not JSON, or a chat id, deck name or score
    array that is missing or of the wrong type). *)
Definition snapshot_of (w : World Card Deck) (n : string)
  : option (Z * string * list json) :=
  if is_snapshot_name n then
    match storage w !! n with
    | None => None
    | Some txt =>
        match parse (c_str txt) with
        | None => None
        | Some j => snapshot_fields j
        end
    end
  else None.


End Snapshots.

Section Steps.
Context {Card Deck : Type}.

(** The three kinds of worker steps, seen from the registry: the step
    that deregisters, the step that gives up the worker's reference, and
    all the others, which leave the registry and the session's chat id
    alone and do not lower the reference count. *)
Inductive step_kind (this : addr) (s : Session Card Deck)
    (w w' : World Card Deck) : PC -> PC -> Prop :=
| kind_deregister :
    w' = goto PRelease this (deleteSession (chat_id_ s) w) ->
    step_kind this s w w' PDeregister PRelease
| kind_release :
    w' = goto PDone this (release this w) ->
    step_kind this s w w' PRelease PDone
| kind_other pc pc' :
    pc <> PDeregister -> pc <> PRelease -> pc <> PDone ->
    pc' <> PRelease -> pc' <> PDone ->
    g_sessions w' = g_sessions w ->
    (exists s', heap w' !! this = Some s' /\ chat_id_ s' = chat_id_ s /\
                ref_count_ s <= ref_count_ s') ->
    step_kind this s w w' pc pc'.

(** The worker of [this] belongs to chat [chat_id] and, once it stands
    at or after its release, that chat id is no longer mapped. *)
Definition deregistered_inv (this : addr) (chat_id : Z) (w : World Card Deck) : Prop :=
  (forall s, heap w !! this = Some s -> chat_id_ s = chat_id) /\
  (workers w !! this = Some PRelease \/ workers w !! this = Some PDone ->
   g_sessions w !! chat_id = None).

End Steps.


(* ===================================================================== *)
(** * Further parts of the code *)
(* ===================================================================== *)

(** ** Reading escaped text back *)

(** A decoder for the output of [htmlspecialchars], used to state that the
    escaping loses nothing. *)
Module HtmlDecode.

(** [s] without the prefix [p], when it starts with it. *)
Fixpoint strip_prefix (p s : string) : option string :=
  match p with
  | EmptyString => Some s
  | String a p' =>
      match s with
      | EmptyString => None
      | String c s' => if Ascii.eqb a c then strip_prefix p' s' else None
      end
  end.

(** The character of the entity at the head of [s], and the rest. *)
Definition strip_entity (s : string) : option (ascii * string) :=
  match strip_prefix "&amp;" s with
  | Some r => Some ("&"%char, r)
  | None =>
  match strip_prefix "&lt;" s with
  | Some r => Some ("<"%char, r)
  | None =>
  match strip_prefix "&gt;" s with
  | Some r => Some (">"%char, r)
  | None =>
  match strip_prefix "&quot;" s with
  | Some r => Some (dquote, r)
  | None =>
  match strip_prefix "&apos;" s with
  | Some r => Some ("'"%char, r)
  | None => None
  end end end end end.

Fixpoint unescape_fuel (fuel : nat) (s : string) : string :=
  match fuel with
  | O => ""
  | S n =>
      match strip_entity s with
      | Some (c, r) => String c (unescape_fuel n r)
      | None =>
          match s with
          | EmptyString => ""
          | String c r => String c (unescape_fuel n r)
          end
      end
  end.

Definition unescape (s : string) : string :=
  unescape_fuel (String.length s) s.

End HtmlDecode.

(** ** The dispatch of incoming messages (entry.cpp) *)

Inductive module_ret_t := MOD_ENTRY_CONTINUE | MOD_ENTRY_STOP.

(** [is_space_or_null]. *)
Definition is_space_or_null (c : ascii) : bool :=
  Ascii.eqb c " " || Ascii.eqb c "009" || Ascii.eqb c "010" || Ascii.eqb c zero.

(** [txt[i]] for [txt = text.c_str()] and [i] up to the length of the
    text: the character at [i], the terminating NUL at the end. *)
Definition c_index (s : string) (i : nat) : ascii :=
  match String.get i s with
  | Some c => c
  | None => zero
  end.

(** The tests of [entry] between the session lookup and the construction
    of the [Command]: [true] when the text is taken as a command of this
    module. *)
Definition is_jqftu_command (txt : string) : bool :=
  if (String.length txt <? 6)%nat then false
  else if negb (Ascii.eqb (c_index txt 0) "/") && negb (Ascii.eqb (c_index txt 0) "!")
          && negb (Ascii.eqb (c_index txt 0) ".") then false
  else if negb (String.eqb (substring 1 5 txt) "jqftu")
          || negb (is_space_or_null (c_index txt 6)) then false
  else true.

(** What [entry] does with a message: it hands it to the session of the
    chat, or passes it on, or builds a [Command] from it and executes it
    (the [Command] class is not part of the sources; its effect is not
    described here). *)
Inductive Dispatch (W : Type) :=
| ToSession (w' : W)
| PassedOn
| ToCommand.

Arguments ToSession {W}.
Arguments PassedOn {W}.
Arguments ToCommand {W}.

(** The value [entry] returns in each case. *)
Definition dispatch_ret {W} (d : Dispatch W) : module_ret_t :=
  match d with
  | ToSession _ => MOD_ENTRY_CONTINUE
  | PassedOn => MOD_ENTRY_CONTINUE
  | ToCommand => MOD_ENTRY_STOP
  end.

Section Dispatching.
Context {Card Deck : Type} `{CardOps Card} `{DeckOps Card Deck} `{SessionDefaults}
  `{JsonCodec}.

(** [entry] as a whole.  [None]: the registry holds a pointer to a
    session that is not allocated, and the call has no defined
    behaviour. *)
Definition module_entry (msg : Message) (w : World Card Deck)
  : option (Dispatch (World Card Deck)) :=
  match g_sessions w !! chat msg with
  | Some _ =>
      match entry msg w with
      | Some w' => Some (ToSession w')
      | None => None
      end
  | None =>
      if is_jqftu_command (text msg) then Some ToCommand else Some PassedOn
  end.

End Dispatching.

(** ** The question image (generate_latex_text, generate_text_image) *)

(** [snprintf(buf, size, ...)]: of the formatted text, what fits in [size]
    bytes with the terminating NUL. *)
Definition snprintf (size : nat) (formatted : string) : string :=
  substring 0 (size - 1) formatted.

(** [data_template], before and after its [%s]. *)
Definition data_template_pre : string :=
  "{" +:+ String dquote "content" +:+ String dquote ":" +:+ String dquote
  "\\documentclass[32pt]{article}\n\\usepackage{CJKutf8}\n\\thispagestyle{empty}\n\\begin{document}\n\\begin{CJK}{UTF8}{min}\n".

Definition data_template_post : string :=
  "\n\\end{CJK}\n\\end{document}\n" +:+ String dquote "," +:+ String dquote "d"
  +:+ String dquote ":800," +:+ String dquote "border" +:+ String dquote ":"
  +:+ String dquote "100x80" +:+ String dquote "," +:+ String dquote "bcolor"
  +:+ String dquote ":" +:+ String dquote "white" +:+ String dquote "}".

Definition data_template : string :=
  data_template_pre +:+ "%s" +:+ data_template_post.

(** The request body that [generate_latex_text] posts for the C string
    [kanji]: the template with [kanji] in the place of [%s], written into
    a buffer of [body_len + 1] bytes. *)
Definition latex_request_body (kanji : string) : string :=
  let body_len := (String.length data_template + String.length (c_str kanji))%nat in
  snprintf (body_len + 1)
    (data_template_pre +:+ c_str kanji +:+ data_template_post).

(** [struct curl_resp]: the buffer ([None] for [NULL]) and the number of
    bytes received. *)
Record curl_resp := mk_curl_resp {
  data : option string;
  size : nat
}.

(** [curl_cb] for one chunk of [size * nmemb] bytes: the value returned
    and the buffer afterwards.  [realloc_ok] tells whether [realloc]
    succeeds.  [memcpy] puts the chunk behind the first [cr->size] bytes
    of the buffer. *)
Definition curl_cb (realloc_ok : bool) (chunk : string) (cr : curl_resp)
  : nat * curl_resp :=
  if realloc_ok then
    let old := match data cr with Some d => d | None => "" end in
    (String.length chunk,
     mk_curl_resp (Some (substring 0 (size cr) old +:+ chunk))
       (size cr + String.length chunk))
  else (0%nat, cr).

(** A transfer that delivers the chunks one after the other: libcurl
    stops at the first callback that does not return the chunk's
    length.  The boolean tells whether the transfer went through. *)
Fixpoint curl_receive (chunks : list (bool * string)) (cr : curl_resp)
  : bool * curl_resp :=
  match chunks with
  | [] => (true, cr)
  | (realloc_ok, chunk) :: rest =>
      let '(n, cr1) := curl_cb realloc_ok chunk cr in
      if decide (n = String.length chunk) then curl_receive rest cr1
      else (false, cr1)
  end.

(** [generate_latex_text] from the transfer on: [connected] is [false]
    when [curl_easy_perform] fails before or after the chunks arrive.
    The request buffer and the curl handle are taken to be there. *)
Definition generate_latex_text (connected : bool) (chunks : list (bool * string))
  : option string :=
  let '(ok, cr) := curl_receive chunks (mk_curl_resp None 0) in
  if connected && ok then data cr else None.

Definition url_template : string :=
  "https://latex.teainside.org/api.php?action=file&type=png&hash=".

Section TextImage.
Context `{JsonCodec}.

(** [generate_text_image] for the reply [json_str] of
    [generate_latex_text]; the [malloc] of the result is taken to
    succeed. *)
Definition generate_text_image (json_str : option string) : option string :=
  match json_str with
  | None => None
  | Some str =>
      match parse (c_str str) with
      | None => None
      | Some (JObject m) =>
          match obj_find "res" m with
          | Some (JString res) =>
              let len := (String.length url_template + String.length res)%nat in
              Some (snprintf (len + 1) (url_template +:+ c_str res))
          | _ => None
          end
      | Some _ => None
      end
  end.

End TextImage.

(** ** The process as a whole *)

(** The control methods of a session. *)
Inductive Method :=
| MStop
| MSetTimeout (timeout : Z) (skip : bool)
| MSetNextDelay (next_delay : Z) (skip : bool).

(** What happens in the process, one event at a time: a worker takes a
    step, a message comes in, a session is created or started, the
    snapshots are scanned, a reference is taken, a control method is
    called.  [putSession] occurs where the sources call it, in [entry]. *)
Inductive SysEvent :=
| SWork (p : addr) (l : Label)
| SEntry (msg : Message)
| SCreate (chat_id : Z) (deck_name : string)
| SStart (spawn_error : option string) (p : addr)
| SInit (spawn_error : string -> option string) (listing : list string)
| SGet (chat_id : Z)
| SCall (p : addr) (m : Method).

Section System.
Context {Card Deck : Type} `{CardOps Card} `{DeckOps Card Deck} `{SessionDefaults}
  `{JsonCodec}.

#[local] Abbreviation Session := (Session Card Deck).
#[local] Abbreviation World := (World Card Deck).

Definition method (m : Method) : Session -> Session :=
  match m with
  | MStop => stop
  | MSetTimeout t skip => setTimeout t skip
  | MSetNextDelay t skip => setNextDelay t skip
  end.

Definition sys_exec (e : SysEvent) (w : World) : option World :=
  match e with
  | SWork p l => worker_step p l w
  | SEntry msg => entry msg w
  | SCreate chat_id deck_name => Some (createSession chat_id deck_name w).2
  | SStart spawn_error p => Some (start spawn_error p w)
  | SInit spawn_error listing => Some (init spawn_error listing w)
  | SGet chat_id => Some (getSession chat_id w).2
  | SCall p m => Some (call p (method m) w)
  end.

Fixpoint sys_run (es : list SysEvent) (w : World) : option World :=
  match es with
  | [] => Some w
  | e :: rest =>
      match sys_exec e w with
      | None => None
      | Some w1 => sys_run rest w1
      end
  end.

(** The registry is sound: every chat id in it points to an allocated
    session of that chat that is referenced at least once, and a session
    whose worker stands at its release is allocated and in the registry
    under no chat id. *)
Definition registry_sound (w : World) : Prop :=
  (forall c p, g_sessions w !! c = Some p ->
     exists s, heap w !! p = Some s /\ chat_id_ s = c /\ 1 <= ref_count_ s) /\
  (forall p, workers w !! p = Some PRelease ->
     is_Some (heap w !! p) /\ forall c, g_sessions w !! c <> Some p).


(** Where the reference count of the session at [this] stands, by the
    point its worker is at: [r0] before the worker has started and after
    it has ended, one more in between. *)
Definition ref_inv (this : addr) (r0 : Z) (w : World) : Prop :=
  exists pc, workers w !! this = Some pc /\
    match pc with
    | PStart | PDone =>
        exists s, heap w !! this = Some s /\ ref_count_ s = r0
    | _ => exists s, heap w !! this = Some s /\ ref_count_ s = r0 + 1
    end.

(** The sum of the points on a board. *)
Definition total_points (sb : ScoreBoard) : Z :=
  foldr (fun e acc => point_ e.2 + acc) 0 sb.

(** One line of the finish summary, for the entry [e] at place [i]. *)
Definition finish_line (i : Z) (e : Z * Score) : string :=
  to_string i +:+ ". " +:+
  ("<a href=" +:+ String dquote "tg://user?id=" +:+ to_string e.1
   +:+ String dquote ">" +:+ Html.htmlspecialchars (full_name_ e.2) +:+ "</a>")
  +:+ ": " +:+ to_string (point_ e.2) +:+ " point"
  +:+ (if 1 <? point_ e.2 then "s" else "") +:+ nl.

(** The lines for a ranking, numbered from [i] on. *)
Fixpoint finish_body (i : Z) (ranking : list (Z * Score)) : string :=
  match ranking with
  | [] => ""
  | e :: rest => finish_line i e +:+ finish_body (i + 1) rest
  end.

End System.

(** ** More sample data *)

Module Samples.
Import Example.

(** A reply of the rendering service, in two chunks, and a reply without
    the field [res]. *)
Definition reply_ok : string := dump_json (JObject [("res", JString "abc123")]).
Definition reply_chunks : list (bool * string) :=
  [(true, substring 0 5 reply_ok); (true, substring 5 100 reply_ok)].
Definition reply_no_res : string := dump_json (JObject [("err", JString "x")]).

(** The process after chat 42 got a session of the deck with two cards
    and started it. *)
Definition two_cards_world : World Card Deck :=
  start None 1%positive (createSession 42 "two" (empty_world ∅)).2.

(** A message of chat 42 that is a command text, and one of chat 7. *)
Definition command_in_42 : Message := mkMessage 42 ann_user "/jqftu stop" 200.
Definition command_in_7 : Message := mkMessage 7 ann_user "/jqftu start two" 201.
Definition chatter_in_7 : Message := mkMessage 7 ann_user "hello" 202.

(** The running session of chat 42 when its worker is about to draw the
    next card. *)
Definition loop_world : World Card Deck :=
  mkWorld {[42 := 1%positive]} {[1%positive := live_session]} ∅ []
    {[1%positive := PLoop]}.

(** Chat 42 after [createSession] with the one-card deck, before the
    start, and the session object it got. *)
Definition created_world : World Card Deck :=
  (createSession 42 "one" (empty_world ∅)).2.
Definition created_session : Session Card Deck :=
  mkSession 42 (mkDeck "one" [card1]) [] None 30 5 false 0 1 false.

(** A process from its beginning: a session is created and started for
    chat 42, its card is sent, Ann answers and asks for a stop besides,
    the worker writes the checkpoint, finishes and deregisters; in
    between, chat 7 gets a session whose thread cannot be started. *)
Definition sample_events : list SysEvent :=
  [SCreate 42 "one"; SStart None 1%positive; SWork 1%positive LRun;
   SCreate 7 "two"; SStart (Some "no threads") 2%positive;
   SWork 1%positive (LCard (Some "http://img/1") (Some 10));
   SEntry right_from_ann; SCall 1%positive MStop;
   SWork 1%positive (LWake no_timeout); SWork 1%positive (LSave true 1000 1000);
   SWork 1%positive (LCard None None);
   SWork 1%positive (LFinish [(7, mkScore 1 "Ann Lee" "ann")]);
   SWork 1%positive LRun].

End Samples.

(* ===================================================================== *)
(** * Properties of the HTML escaping *)
(* ===================================================================== *)

Section StringFacts.

Lemma append_nil_r (s : string) : s +:+ "" = s.
Proof. induction s as [|c s IH]; [reflexivity|]. change (String c (s +:+ "") = String c s). by rewrite IH. Qed.

Lemma append_cons (c : ascii) (s t : string) : String c s +:+ t = String c (s +:+ t).
Proof. reflexivity. Qed.

Lemma append_assoc (s t u : string) : (s +:+ t) +:+ u = s +:+ (t +:+ u).
Proof.
  induction s as [|c s IH]; [reflexivity|].
  rewrite !append_cons. by rewrite IH.
Qed.

Lemma chars_append (s t : string) :
  list_ascii_of_string (s +:+ t) = list_ascii_of_string s ++ list_ascii_of_string t.
Proof.
  induction s as [|c s IH]; [reflexivity|].
  rewrite append_cons. simpl. by rewrite IH.
Qed.

Lemma length_append (s t : string) :
  String.length (s +:+ t) = (String.length s + String.length t)%nat.
Proof.
  induction s as [|c s IH]; [reflexivity|].
  rewrite append_cons. simpl. by rewrite IH.
Qed.

End StringFacts.

Module HtmlFacts.
Import Html.

Lemma escape_char_entity (c : ascii) :
  escape_char c = match entity_of c with Some e => e | None => String c "" end.
Proof.
  unfold escape_char, entity_of.
  repeat (destruct (Ascii.eqb c _); [reflexivity|]). reflexivity.
Qed.

Lemma loop_accumulates (str ret : string) :
  htmlspecialchars_loop str ret = ret +:+ replace_entities str.
Proof.
  revert ret. induction str as [|c str IH]; intros ret; simpl.
  - by rewrite append_nil_r.
  - rewrite IH, append_assoc, escape_char_entity.
    destruct (entity_of c); reflexivity.
Qed.

Lemma replace_entities_escaped (str : string) : escaped (replace_entities str).
Proof.
  induction str as [|c str IH]; simpl; [constructor|].
  destruct (entity_of c) as [e|] eqn:E.
  - by eapply escaped_entity.
  - apply escaped_plain; [unfold is_meta; by rewrite E | done].
Qed.

(** The characters of an entity: an ampersand, letters and a semicolon. *)
Lemma entity_chars (c : ascii) (e : string) :
  entity_of c = Some e ->
  Forall (fun x => is_meta x = false \/ x = "&"%char) (list_ascii_of_string e).
Proof.
  unfold entity_of.
  repeat (destruct (Ascii.eqb c _);
          [intros [= <-]; simpl; repeat constructor; (by left) || (by right)|]).
  discriminate.
Qed.

Lemma replace_entities_chars (str : string) :
  Forall (fun x => is_meta x = false \/ x = "&"%char)
    (list_ascii_of_string (replace_entities str)).
Proof.
  induction str as [|c str IH]; simpl; [constructor|].
  destruct (entity_of c) as [e|] eqn:E.
  - rewrite chars_append. apply Forall_app. split; [by eapply entity_chars | done].
  - simpl. constructor; [left; unfold is_meta; by rewrite E | done].
Qed.

(** C10. [htmlspecialchars] replaces each of the five characters [&], [<],
    [>], the double quote and the apostrophe by its entity and copies
    every other character; its result consists of plain characters and
    whole entities only, so that the only metacharacter left in it is the
    ampersand that opens an entity.  It is this result that stands for
    the participant's name in each line of the finish summary. *)
Theorem htmlspecialchars_escapes (str : string) :
  htmlspecialchars str = replace_entities str /\
  escaped (htmlspecialchars str) /\
  Forall (fun x => is_meta x = false \/ x = "&"%char)
    (list_ascii_of_string (htmlspecialchars str)) /\
  forall uid sc rest i score,
    full_name_ sc = str ->
    finish_lines ((uid, sc) :: rest) i score =
    finish_lines rest (uint32 (i + 1))
      ((score +:+ to_string i +:+ ". " +:+
        ("<a href=" +:+ String dquote "tg://user?id=" +:+ to_string uid
         +:+ String dquote ">" +:+ replace_entities str +:+ "</a>") +:+ ": "
        +:+ to_string (point_ sc) +:+ " point" +:+ (if 1 <? point_ sc then "s" else ""))
       +:+ nl).
Proof.
  assert (E : htmlspecialchars str = replace_entities str).
  { unfold htmlspecialchars. by rewrite loop_accumulates. }
  rewrite E. split; [done|]. split; [|split].
  - apply replace_entities_escaped.
  - apply replace_entities_chars.
  - intros uid sc rest i score Hn. cbn [finish_lines fst snd].
    rewrite Hn, E. f_equal. f_equal. destruct (1 <? point_ sc).
    + by rewrite !append_assoc.
    + by rewrite !append_assoc, ?append_nil_r.
Qed.

(** C10 at a concrete name. *)
Lemma htmlspecialchars_witness :
  htmlspecialchars "<b>Tom & Jerry's</b>"
    = "&lt;b&gt;Tom &amp; Jerry&apos;s&lt;/b&gt;" /\
  escaped (htmlspecialchars "<b>Tom & Jerry's</b>").
Proof.
  split.
  - exact (eq_trans (proj1 (htmlspecialchars_escapes "<b>Tom & Jerry's</b>")) eq_refl).
  - exact (proj1 (proj2 (htmlspecialchars_escapes "<b>Tom & Jerry's</b>"))).
Defined.

End HtmlFacts.

(* ===================================================================== *)
(** * Properties of the score board and of [Session::answer] *)
(* ===================================================================== *)

Section ScoreBoardFacts.

Lemma sb_find_app (uid : Z) (sb1 sb2 : ScoreBoard) :
  sb_find uid (sb1 ++ sb2) =
  match sb_find uid sb1 with Some sc => Some sc | None => sb_find uid sb2 end.
Proof.
  induction sb1 as [|[k sc] sb1 IH]; simpl; [done|].
  destruct (decide (k = uid)); done.
Qed.

Lemma sb_emplace_new (uid : Z) (sc : Score) (sb : ScoreBoard) :
  sb_find uid sb = None -> sb_emplace uid sc sb = sb ++ [(uid, sc)].
Proof. intros E. unfold sb_emplace. by rewrite E. Qed.

Lemma sb_emplace_present (uid : Z) (sc old : Score) (sb : ScoreBoard) :
  sb_find uid sb = Some old -> sb_emplace uid sc sb = sb.
Proof. intros E. unfold sb_emplace. by rewrite E. Qed.

Lemma sb_find_emplace (uid k : Z) (sc : Score) (acc : ScoreBoard) :
  sb_find uid (sb_emplace k sc acc) =
  match sb_find uid acc with
  | Some x => Some x
  | None => if decide (k = uid) then Some sc else None
  end.
Proof.
  unfold sb_emplace. destruct (sb_find k acc) as [old|] eqn:E.
  - destruct (sb_find uid acc) eqn:E'; [done|].
    destruct (decide (k = uid)) as [->|]; [congruence | done].
  - rewrite sb_find_app. simpl. done.
Qed.

Lemma sb_find_increment_same (uid : Z) (old : Score) (sb : ScoreBoard) :
  sb_find uid sb = Some old ->
  sb_find uid (sb_increment uid sb) =
  Some (mkScore (uint32 (point_ old + 1)) (full_name_ old) (username_ old)).
Proof.
  induction sb as [|[k sc] sb IH]; simpl; [done|].
  destruct (decide (k = uid)) as [->|Hne]; simpl.
  - intros [= ->]. by rewrite decide_True.
  - intros E. rewrite decide_False by done. auto.
Qed.

Lemma sb_find_increment_other (uid uid' : Z) (sb : ScoreBoard) :
  uid' <> uid -> sb_find uid' (sb_increment uid sb) = sb_find uid' sb.
Proof.
  intros Hne. induction sb as [|[k sc] sb IH]; simpl; [done|].
  destruct (decide (k = uid)) as [->|Hk]; simpl.
  - by rewrite !decide_False by done.
  - destruct (decide (k = uid')); done.
Qed.

Lemma sb_increment_keys (uid : Z) (sb : ScoreBoard) :
  (sb_increment uid sb).*1 = sb.*1.
Proof.
  induction sb as [|[k sc] sb IH]; [done|].
  cbn [sb_increment]. destruct (decide (k = uid)); rewrite !fmap_cons; [done|].
  by rewrite IH.
Qed.

Lemma uint32_small (z : Z) : 0 <= z < 2 ^ 32 -> uint32 z = z.
Proof. intros Hz. unfold uint32. by apply Z.mod_small. Qed.

Lemma int64_small (z : Z) : - 2 ^ 63 <= z < 2 ^ 63 -> int64 z = z.
Proof. intros Hz. unfold int64. rewrite Z.mod_small; lia. Qed.

End ScoreBoardFacts.

Section AnswerFacts.
Context {Card Deck : Type} `{CardOps Card}.

#[local] Abbreviation Session := (Session Card Deck).

Lemma answer_no_card (msg : Message) (s : Session) :
  current_card_ s = None -> answer msg s = (s, []).
Proof. intros E. unfold answer. by rewrite E. Qed.

Lemma answer_wrong (msg : Message) (s : Session) (c : Card) :
  current_card_ s = Some c -> card_answer c (text msg) = false ->
  answer msg s = (s, []).
Proof. intros E W. unfold answer. by rewrite E, W. Qed.

Lemma answer_accepted_card (msg : Message) (s : Session) (c : Card) :
  current_card_ s = Some c -> card_answer c (text msg) = true ->
  current_card_ (answer msg s).1 = None.
Proof.
  intros E W. unfold answer. rewrite E, W. simpl.
  by destruct (sb_find _ _).
Qed.

Lemma answers_no_card (msgs : list Message) (s : Session) :
  current_card_ s = None -> answers msgs s = (s, []).
Proof.
  intros E. induction msgs as [|m msgs IH]; simpl; [done|].
  by rewrite (answer_no_card m s E), IH.
Qed.

(** C7. An answer event changes nothing and sends nothing when there is
    no current card or the text is not correct for it.  An accepted
    answer enters an unseen participant with one point, raises the point
    of a seen participant by one (as a [uint32_t], so by exactly one
    below the largest value) and leaves every other entry alone; it
    clears the current card, so that all later replies are ignored until
    the worker draws again. *)
Theorem answer_scoring (msg : Message) (s : Session) :
  let uid := id (from msg) in
  ((current_card_ s = None \/
    exists c, current_card_ s = Some c /\ card_answer c (text msg) = false) ->
   answer msg s = (s, [])) /\
  (forall c, current_card_ s = Some c -> card_answer c (text msg) = true ->
     let s' := (answer msg s).1 in
     (sb_find uid (scores_ s) = None ->
        sb_find uid (scores_ s') =
          Some (mkScore 1 (full_name_of (from msg)) (username (from msg))) /\
        (forall uid', uid' <> uid -> sb_find uid' (scores_ s') = sb_find uid' (scores_ s)) /\
        scores_ s' =
          scores_ s ++ [(uid, mkScore 1 (full_name_of (from msg)) (username (from msg)))]) /\
     (forall old, sb_find uid (scores_ s) = Some old ->
        sb_find uid (scores_ s') =
          Some (mkScore (uint32 (point_ old + 1)) (full_name_ old) (username_ old)) /\
        (0 <= point_ old < 2 ^ 32 - 1 -> uint32 (point_ old + 1) = point_ old + 1) /\
        (forall uid', uid' <> uid -> sb_find uid' (scores_ s') = sb_find uid' (scores_ s)) /\
        (scores_ s').*1 = (scores_ s).*1) /\
     current_card_ s' = None /\
     forall later : list Message, answers later s' = (s', [])).
Proof.
  intros uid. split.
  - intros [E|(c & E & W)]; [by apply answer_no_card | by eapply answer_wrong].
  - intros c E W s'.
    assert (Hc : current_card_ s' = None) by (by eapply answer_accepted_card).
    split; [|split; [|split]].
    + intros Hnew.
      assert (Hs : scores_ s' =
                   sb_emplace uid (mkScore 1 (full_name_of (from msg))
                                     (username (from msg))) (scores_ s)).
      { subst s'. unfold answer. rewrite E, W. simpl. fold uid. by rewrite Hnew. }
      rewrite Hs. split; [|split].
      * rewrite sb_find_emplace, Hnew. by rewrite decide_True.
      * intros uid' Hne. rewrite sb_find_emplace.
        destruct (sb_find uid' (scores_ s)); [done|]. by rewrite decide_False.
      * by apply sb_emplace_new.
    + intros old Hold.
      assert (Hs : scores_ s' = sb_increment uid (scores_ s)).
      { subst s'. unfold answer. rewrite E, W. simpl. fold uid. by rewrite Hold. }
      rewrite Hs. split; [by apply sb_find_increment_same|].
      split; [intros Hr; apply uint32_small; lia|].
      split; [intros uid' Hne; by apply sb_find_increment_other|].
      apply sb_increment_keys.
    + done.
    + intros later. by apply answers_no_card.
Qed.

End AnswerFacts.

(* ===================================================================== *)
(** * Properties of the finish summary *)
(* ===================================================================== *)

Section RankingFacts.
Context {Card Deck : Type} `{CardOps Card}.

#[local] Abbreviation Session := (Session Card Deck).

Lemma perm3_inv {A} (a b c : A) (l : list A) :
  [a; b; c] ≡ₚ l ->
  l = [a; b; c] \/ l = [a; c; b] \/ l = [b; a; c] \/
  l = [b; c; a] \/ l = [c; a; b] \/ l = [c; b; a].
Proof.
  intros P. pose proof (Permutation_length P) as L.
  destruct l as [|x [|y [|z [|? ?]]]]; try discriminate L.
  apply Permutation_cons_inv_l in P as (k1 & k2 & E & P).
  destruct k1 as [|x1 [|y1 [|z1 k1]]]; simplify_eq/=.
  - apply Permutation_length_2_inv in P as [P|P]; simplify_eq; auto.
  - apply Permutation_length_2_inv in P as [P|P]; simplify_eq; auto 10.
  - apply Permutation_length_2_inv in P as [P|P]; simplify_eq; auto 10.
  - destruct k1; discriminate.
Qed.

Lemma sorted_by_point_descending (ranking : list (Z * Score)) :
  StronglySorted (fun x y => by_point y x = false) ranking -> descending ranking.
Proof.
  unfold descending. induction 1 as [|x l Hl IH Hx]; constructor; [done|].
  eapply Forall_impl; [exact Hx|]. intros y Hy. unfold by_point in Hy. by apply Z.ltb_ge in Hy.
Qed.

Lemma descending_sorted_by_point (ranking : list (Z * Score)) :
  descending ranking -> StronglySorted (fun x y => by_point y x = false) ranking.
Proof.
  unfold descending. induction 1 as [|x l Hl IH Hx]; constructor; [done|].
  eapply Forall_impl; [exact Hx|]. intros y Hy. unfold by_point. by apply Z.ltb_ge.
Qed.

#[local] Instance point_ge_dec : RelDecision (fun a b : Z * Score => point_ b.2 <= point_ a.2).
Proof. intros a b. apply _. Defined.

#[local] Instance point_ge_trans : Transitive (fun a b : Z * Score => point_ b.2 <= point_ a.2).
Proof. intros a b c; lia. Qed.

#[local] Instance point_ge_total : Total (fun a b : Z * Score => point_ b.2 <= point_ a.2).
Proof. intros a b; lia. Qed.

(** [std::sort] always has a result to return. *)
Lemma std_sort_result_exists (sb : list (Z * Score)) :
  exists ranking, std_sort_result by_point sb ranking.
Proof.
  exists (merge_sort (fun a b : Z * Score => point_ b.2 <= point_ a.2) sb). split.
  - symmetry. apply merge_sort_Permutation.
  - apply descending_sorted_by_point. apply StronglySorted_merge_sort; apply _.
Qed.

Lemma sendFinishMessage_spec (ranking : list (Z * Score)) (s : Session)
    (calls : list ApiCall) :
  sendFinishMessage ranking s = Some calls ->
  std_sort_result by_point (scores_ s) ranking /\
  last calls = Some (sendMessage (chat_id_ s) (finish_text ranking) true 0 "HTML").
Proof.
  unfold sendFinishMessage, sendFailMessage.
  destruct (decide _) as [R|]; [|done].
  destruct (current_card_ s); intros [= <-]; done.
Qed.

Lemma sendFinishMessage_total (s : Session) :
  exists ranking calls, sendFinishMessage ranking s = Some calls.
Proof.
  destruct (std_sort_result_exists (scores_ s)) as [ranking R].
  exists ranking. unfold sendFinishMessage, sendFailMessage.
  rewrite decide_True by done. destruct (current_card_ s); eauto.
Qed.

(** C1, as the code has it.  The summary is always sent; the ranking it
    lists holds the entries of the score board, each once, with points
    that never go up.  Nothing more is fixed about entries with equal
    points.  For points 3, 1, 3 the first and the third entry take the
    first two places, in either order, and the second entry is last. *)
Theorem finish_ranking (s : Session) :
  (exists ranking calls, sendFinishMessage ranking s = Some calls) /\
  forall ranking calls, sendFinishMessage ranking s = Some calls ->
    ranking ≡ₚ scores_ s /\
    descending ranking /\
    last calls = Some (sendMessage (chat_id_ s) (finish_text ranking) true 0 "HTML") /\
    forall a b c, scores_ s = [a; b; c] ->
      point_ a.2 = 3 -> point_ b.2 = 1 -> point_ c.2 = 3 ->
      ranking = [a; c; b] \/ ranking = [c; a; b].
Proof.
  split; [apply sendFinishMessage_total|].
  intros ranking calls Hf.
  apply sendFinishMessage_spec in Hf as [[P S] L].
  apply sorted_by_point_descending in S.
  split; [by symmetry|]. split; [done|]. split; [done|].
  intros a b c E Ha Hb Hc. rewrite E in P.
  apply perm3_inv in P as [-> | [-> | [-> | [-> | [-> | ->]]]]]; auto;
    exfalso; unfold descending in S;
    repeat match goal with
           | S : StronglySorted _ (_ :: _) |- _ =>
               apply StronglySorted_inv in S as [? ?]
           | F : Forall _ (_ :: _) |- _ => apply Forall_cons in F as [? ?]
           end; simpl in *; lia.
Qed.

End RankingFacts.

Module RankingChecks.
Import Example.

(** C1 at a concrete session: with the board [ann; bob; cyd] the order
    [ann; cyd; bob] is one that the summary may list, and it is
    descending. *)
Lemma finish_ranking_witness :
  sendFinishMessage [ann; cyd; bob] session313
    = Some [sendMessage 42 (finish_text [ann; cyd; bob]) true 0 "HTML"] /\
  descending [ann; cyd; bob].
Proof.
  assert (E : sendFinishMessage [ann; cyd; bob] session313
              = Some [sendMessage 42 (finish_text [ann; cyd; bob]) true 0 "HTML"])
    by (vm_compute; reflexivity).
  split; [exact E|].
  exact (proj1 (proj2 (proj2 (finish_ranking session313) _ _ E))).
Defined.

(** C1 as the specification words it fails: for the board [ann; bob; cyd]
    (3, 1 and 3 points) the summary may list [cyd; ann; bob], where the two
    participants with 3 points are not in the order of the board. *)
Lemma finish_ranking_ties_counterexample :
  sendFinishMessage rank313 session313
    = Some [sendMessage 42 (finish_text rank313) true 0 "HTML"] /\
  ~ ties_in_insertion_order (scores_ session313) rank313.
Proof.
  split; [vm_compute; reflexivity|].
  intros T.
  destruct (T ann cyd eq_refl) as (i & j & Hij & Hi & Hj).
  { exists 0%nat, 2%nat. repeat split; lia. }
  destruct i as [|[|[|i]]]; destruct j as [|[|[|j]]];
    try discriminate Hi; try discriminate Hj; lia.
Qed.

End RankingChecks.

(* ===================================================================== *)
(** * Properties of the registry *)
(* ===================================================================== *)

Section RegistryFacts.
Context {Card Deck : Type} `{CardOps Card} `{DeckOps Card Deck} `{SessionDefaults}.

#[local] Abbreviation Session := (Session Card Deck).
#[local] Abbreviation World := (World Card Deck).

Lemma new_Session_None (chat_id : Z) (deck_name : string) :
  new_Session chat_id deck_name = None <-> createDeck deck_name = None.
Proof. unfold new_Session. destruct (createDeck deck_name); split; done. Qed.

Lemma fresh_unallocated (w : World) : heap w !! fresh (dom (heap w)) = None.
Proof. apply not_elem_of_dom. apply is_fresh. Qed.

Lemma createSession_mapped (chat_id : Z) (deck_name : string) (w : World) :
  is_Some (g_sessions w !! chat_id) -> createSession chat_id deck_name w = (None, w).
Proof. intros [p E]. unfold createSession. by rewrite E. Qed.

Lemma createSession_deck_fails (chat_id : Z) (deck_name : string) (w : World) :
  createDeck deck_name = None -> createSession chat_id deck_name w = (None, w).
Proof.
  intros E. unfold createSession, new_Session. rewrite E.
  by destruct (g_sessions w !! chat_id).
Qed.

Lemma createSession_success (chat_id : Z) (deck_name : string) (w : World) (d : Deck) :
  g_sessions w !! chat_id = None -> createDeck deck_name = Some d ->
  let sess := fresh (dom (heap w)) in
  createSession chat_id deck_name w =
  (Some sess,
   mkWorld (<[chat_id := sess]> (g_sessions w))
     (<[sess := mkSession chat_id d [] None default_timeout default_next_delay
                  false 0 1 false]> (heap w))
     (storage w) (outbox w) (workers w)).
Proof.
  intros E D sess. unfold createSession, new_Session. rewrite E, D. fold sess.
  unfold update, set_heap, set_g_sessions. simpl. by rewrite alter_insert_eq.
Qed.

(** The two outcomes of [createSession]. *)
Lemma createSession_cases (chat_id : Z) (deck_name : string) (w : World) :
  createSession chat_id deck_name w = (None, w) \/
  exists d,
    g_sessions w !! chat_id = None /\ createDeck deck_name = Some d /\
    createSession chat_id deck_name w =
    (Some (fresh (dom (heap w))),
     mkWorld (<[chat_id := fresh (dom (heap w))]> (g_sessions w))
       (<[fresh (dom (heap w)) :=
            mkSession chat_id d [] None default_timeout default_next_delay
              false 0 1 false]> (heap w))
       (storage w) (outbox w) (workers w)).
Proof.
  destruct (g_sessions w !! chat_id) as [p|] eqn:E.
  { left. apply createSession_mapped. by rewrite E. }
  destruct (createDeck deck_name) as [d|] eqn:D.
  - right. exists d. split; [done|]. split; [done|]. by apply createSession_success.
  - left. by apply createSession_deck_fails.
Qed.

(** C2, as the code has it.  [createSession] returns no session exactly
    when the chat id is already mapped or the construction of the session
    throws (the deck cannot be created); it then changes nothing.
    Otherwise a new session object is allocated, mapped under the chat
    id, given the reference count 1 and returned. *)
Theorem createSession_spec (chat_id : Z) (deck_name : string) (w : World) :
  ((createSession chat_id deck_name w).1 = None <->
     is_Some (g_sessions w !! chat_id) \/ createDeck deck_name = None) /\
  ((createSession chat_id deck_name w).1 = None ->
     (createSession chat_id deck_name w).2 = w) /\
  (forall sess w', createSession chat_id deck_name w = (Some sess, w') ->
     heap w !! sess = None /\
     g_sessions w' = <[chat_id := sess]> (g_sessions w) /\
     (exists d, createDeck deck_name = Some d /\
        heap w' = <[sess := mkSession chat_id d [] None default_timeout
                               default_next_delay false 0 1 false]> (heap w)) /\
     (forall s, heap w' !! sess = Some s -> ref_count_ s = 1 /\ chat_id_ s = chat_id) /\
     storage w' = storage w /\ outbox w' = outbox w /\ workers w' = workers w).
Proof.
  destruct (g_sessions w !! chat_id) as [p|] eqn:E.
  { rewrite createSession_mapped by (by rewrite E). simpl.
    split; [split; eauto|]. split; [done|]. intros ?? [=]. }
  destruct (createDeck deck_name) as [d|] eqn:D.
  2:{ rewrite createSession_deck_fails by done. simpl.
      split; [split; eauto|]. split; [done|]. intros ?? [=]. }
  rewrite (createSession_success _ _ _ d) by done. simpl.
  split. { split; [done|]. intros [[? [=]]|[=]]. }
  split; [done|]. intros sess w' [= <- <-]. simpl.
  split; [apply fresh_unallocated|]. split; [done|]. split; [eauto|].
  split; [|done]. intros s. rewrite lookup_insert_eq. by intros [= <-].
Qed.

Lemma deleteSession_registry (chat_id : Z) (w : World) :
  g_sessions (deleteSession chat_id w) = delete chat_id (g_sessions w).
Proof.
  unfold deleteSession. destruct (g_sessions w !! chat_id) eqn:E; simpl; [done|].
  by rewrite delete_id.
Qed.

Lemma deleteSession_rest (chat_id : Z) (w : World) :
  heap (deleteSession chat_id w) = heap w /\
  storage (deleteSession chat_id w) = storage w /\
  outbox (deleteSession chat_id w) = outbox w /\
  workers (deleteSession chat_id w) = workers w.
Proof. unfold deleteSession. by destruct (g_sessions w !! chat_id). Qed.

Lemma getSession_unmapped (chat_id : Z) (w : World) :
  g_sessions w !! chat_id = None -> getSession chat_id w = (None, w).
Proof. intros E. unfold getSession. by rewrite E. Qed.

Lemma getSession_after_delete (chat_id : Z) (w : World) :
  getSession chat_id (deleteSession chat_id w) = (None, deleteSession chat_id w).
Proof.
  apply getSession_unmapped. rewrite deleteSession_registry. apply lookup_delete_eq.
Qed.

End RegistryFacts.

Module RegistryChecks.
Import Example.

(** C2 at a concrete call: a deck that exists, a chat without session. *)
Lemma createSession_witness :
  (createSession 42 "two" (empty_world ∅)).1 = Some 1%positive /\
  g_sessions (createSession 42 "two" (empty_world ∅)).2 = <[42 := 1%positive]> ∅ /\
  forall s, heap (createSession 42 "two" (empty_world ∅)).2 !! 1%positive = Some s ->
    ref_count_ s = 1 /\ chat_id_ s = 42.
Proof.
  assert (E : createSession 42 "two" (empty_world ∅)
              = (Some 1%positive, (createSession 42 "two" (empty_world ∅)).2))
    by (vm_compute; reflexivity).
  pose proof (proj2 (proj2 (createSession_spec 42 "two" (empty_world ∅))) _ _ E)
    as (_ & G & _ & R & _).
  split; [by rewrite E|]. split; [exact G | exact R].
Defined.

(** C2 as the specification words it fails: no session is mapped for chat
    42, and [createSession] still returns none, because the deck named
    cannot be created. *)
Lemma createSession_counterexample :
  g_sessions (empty_world (Card := Card) (Deck := Deck) ∅) !! 42 = None /\
  createSession 42 "no such deck" (empty_world ∅) = (None, empty_world ∅).
Proof. split; reflexivity. Qed.

End RegistryChecks.

(* ===================================================================== *)
(** * Properties of the snapshots *)
(* ===================================================================== *)

Section JsonFacts.

Lemma scores_json_loop_map (sb : ScoreBoard) (arr : list json) :
  scores_json_loop sb arr = arr ++ map score_json sb.
Proof.
  revert arr. induction sb as [|e sb IH]; intros arr; simpl.
  - by rewrite app_nil_r.
  - rewrite IH. by rewrite <- app_assoc.
Qed.

Lemma score_of_score_json (e : Z * Score) :
  score_of_json (score_json e) =
  Some (int64 e.1, mkScore (uint32 (point_ e.2)) (full_name_ e.2) (username_ e.2)).
Proof. reflexivity. Qed.

Lemma score_json_roundtrip (e : Z * Score) :
  score_in_range e -> score_of_json (score_json e) = Some e.
Proof.
  intros [Hid Hp]. rewrite score_of_score_json.
  rewrite int64_small by exact Hid. rewrite uint32_small by exact Hp.
  by destruct e as [uid [p fn un]].
Qed.

(** Entries put on a board one after the other with [emplace]. *)
Lemma restore_scores_emplace (sb : ScoreBoard) (acc : ScoreBoard) :
  Forall score_in_range sb ->
  restore_scores (map score_json sb) acc =
  fold_left (fun acc e => sb_emplace e.1 e.2 acc) sb acc.
Proof.
  intros F. revert acc. induction F as [|e sb He F IH]; intros acc; [done|].
  cbn [map restore_scores fold_left].
  rewrite score_json_roundtrip by done. destruct e as [uid sc]. apply IH.
Qed.

Lemma sb_find_emplace_all (uid : Z) (sb acc : ScoreBoard) :
  sb_find uid (fold_left (fun acc e => sb_emplace e.1 e.2 acc) sb acc) =
  match sb_find uid acc with Some x => Some x | None => sb_find uid sb end.
Proof.
  revert acc. induction sb as [|[k sc] sb IH]; intros acc; simpl.
  - by destruct (sb_find uid acc).
  - rewrite IH, sb_find_emplace.
    destruct (sb_find uid acc); [done|]. by destruct (decide (k = uid)).
Qed.

Lemma sb_find_None_keys (uid : Z) (sb : ScoreBoard) :
  sb_find uid sb = None <-> uid ∉ sb.*1.
Proof.
  induction sb as [|[k sc] sb IH]; simpl.
  - split; [intros _; apply not_elem_of_nil | done].
  - rewrite not_elem_of_cons. destruct (decide (k = uid)) as [->|Hne].
    + split; [done | intros [? _]; done].
    + rewrite IH. split; [intros ?; split; [congruence | done] | intros [_ ?]; done].
Qed.

Lemma emplace_all_NoDup (sb acc : ScoreBoard) :
  NoDup (acc ++ sb).*1 ->
  fold_left (fun acc e => sb_emplace e.1 e.2 acc) sb acc = acc ++ sb.
Proof.
  revert acc. induction sb as [|[k sc] sb IH]; intros acc N; simpl.
  - by rewrite app_nil_r.
  - assert (E : sb_find k acc = None).
    { apply sb_find_None_keys. rewrite fmap_app in N.
      apply NoDup_app in N as (_ & N & _). intros Hin. apply (N k Hin).
      rewrite fmap_cons. apply list_elem_of_here. }
    rewrite (sb_emplace_new _ _ _ E). rewrite IH.
    + by rewrite <- app_assoc.
    + by rewrite <- app_assoc.
Qed.

(** The score array written for a board, read back onto an empty board. *)
Lemma restore_scores_roundtrip (sb : ScoreBoard) :
  Forall score_in_range sb ->
  same_scores (restore_scores (scores_json_loop sb []) []) sb /\
  (NoDup sb.*1 -> restore_scores (scores_json_loop sb []) [] = sb).
Proof.
  intros F. rewrite scores_json_loop_map. simpl.
  rewrite restore_scores_emplace by done. split.
  - intros uid. by rewrite sb_find_emplace_all.
  - intros N. by rewrite emplace_all_NoDup.
Qed.

End JsonFacts.

Section PersistenceFacts.
Context {Card Deck : Type} `{CardOps Card} `{DeckOps Card Deck} `{SessionDefaults}
  `{JsonCodec}.

#[local] Abbreviation Session := (Session Card Deck).
#[local] Abbreviation World := (World Card Deck).

Lemma substring_all (s : string) : substring 0 (String.length s) s = s.
Proof. induction s as [|c s IH]; simpl; [done | by rewrite IH]. Qed.

Lemma is_snapshot_name_snapshot_name (key : Z) :
  is_snapshot_name (snapshot_name key) = true.
Proof. reflexivity. Qed.

Lemma snapshot_fields_session_json (s : Session) :
  snapshot_fields (session_json s) =
  Some (int64 (chat_id_ s), getName (deck_ s), scores_json_loop (scores_ s) []).
Proof. reflexivity. Qed.

Lemma length_substring_0 (n : nat) (s : string) :
  String.length (substring 0 n s) = Nat.min n (String.length s).
Proof.
  revert n. induction s as [|c s IH]; intros [|n]; simpl; try done.
  by rewrite IH.
Qed.

(** The checkpoint when the file opens: the file holds what the flush got
    out, or is removed when [fwrite] did not report everything. *)
Lemma serializeSessions_opened (written flushed : nat) (key : Z) (w : World)
    (p : addr) (s : Session) :
  g_sessions w !! key = Some p -> heap w !! p = Some s ->
  serializeSessions true written flushed key w =
  set_storage
    (if decide (String.length (dump (session_json s)) <= written)%nat
     then <[snapshot_name key :=
              substring 0 (Nat.min flushed (String.length (dump (session_json s))))
                (dump (session_json s))]> (storage w)
     else delete (snapshot_name key) (storage w)) w.
Proof.
  intros G Hp. unfold serializeSessions. rewrite G, Hp. simpl.
  destruct (decide (String.length (dump (session_json s)) <= written)%nat) as [L|L].
  - rewrite (Nat.min_r written) by lia. by rewrite decide_True by done.
  - rewrite (Nat.min_l written) by lia. rewrite decide_False by lia.
    unfold set_storage. simpl. by rewrite delete_insert_eq.
Qed.

(** The checkpoint when everything reaches the file. *)
Lemma serializeSessions_complete (written flushed : nat) (key : Z) (w : World)
    (p : addr) (s : Session) :
  g_sessions w !! key = Some p -> heap w !! p = Some s ->
  (String.length (dump (session_json s)) <= written)%nat ->
  (String.length (dump (session_json s)) <= flushed)%nat ->
  serializeSessions true written flushed key w =
  set_storage (<[snapshot_name key := dump (session_json s)]> (storage w)) w.
Proof.
  intros G Hp Lw Lf. rewrite (serializeSessions_opened _ _ _ _ p s) by done.
  rewrite decide_True by done. rewrite Nat.min_r by done.
  by rewrite substring_all.
Qed.

(** C6, on the code.  The checkpoint looks at what [fwrite] returns and
    at nothing else.  When [fwrite] reports fewer bytes than the
    serialized snapshot has, the file is removed and no snapshot of the
    chat id is left.  But when [fwrite] reports all bytes (the stream
    has taken them into its buffer) and the flush at [fclose] gets only
    some of them into the file, the file stays: a snapshot that is a
    proper prefix of the serialized text is left on disk. *)
Theorem checkpoint_write_outcomes (written flushed : nat) (key : Z) (w : World)
    (p : addr) (s : Session) :
  g_sessions w !! key = Some p -> heap w !! p = Some s ->
  ((written < String.length (dump (session_json s)))%nat ->
   storage (serializeSessions true written flushed key w) !! snapshot_name key
     = None) /\
  ((String.length (dump (session_json s)) <= written)%nat ->
   (flushed < String.length (dump (session_json s)))%nat ->
   storage (serializeSessions true written flushed key w) !! snapshot_name key
     = Some (substring 0 flushed (dump (session_json s))) /\
   String.length (substring 0 flushed (dump (session_json s))) = flushed /\
   substring 0 flushed (dump (session_json s)) <> dump (session_json s)).
Proof.
  intros G Hp. rewrite (serializeSessions_opened _ _ _ _ p s) by done. split.
  - intros L. rewrite decide_False by lia. simpl. apply lookup_delete_eq.
  - intros Lw Lf. rewrite decide_True by done. simpl.
    rewrite Nat.min_l by lia. rewrite lookup_insert_eq.
    assert (E : String.length (substring 0 flushed (dump (session_json s))) = flushed).
    { rewrite length_substring_0. lia. }
    split; [done|]. split; [done|]. intros Heq. rewrite Heq in E. lia.
Qed.

Lemma _start_fields (spawn_error : option string) (this : addr) (w : World) :
  g_sessions (_start spawn_error this w) = g_sessions w /\
  heap (_start spawn_error this w) = heap w /\
  storage (_start spawn_error this w) = storage w.
Proof.
  unfold _start. destruct spawn_error; [|done]. by destruct (heap w !! this).
Qed.

Lemma _start_spawned (this : addr) (w : World) :
  workers (_start None this w) !! this = Some PStart.
Proof. simpl. apply lookup_insert_eq. Qed.

(** What [initSessionFromJson] does for a document with the three fields,
    a chat id without session and a deck that can be created. *)
Lemma initSessionFromJson_restores (spawn_error : option string) (j : json)
    (w : World) (chat_id : Z) (deck_name : string) (items : list json) (d : Deck) :
  snapshot_fields j = Some (chat_id, deck_name, items) ->
  g_sessions w !! chat_id = None -> createDeck deck_name = Some d ->
  let s := fresh (dom (heap w)) in
  initSessionFromJson spawn_error j w =
  _start spawn_error s
    (mkWorld (<[chat_id := s]> (g_sessions w))
       (<[s := mkSession chat_id d (restore_scores items []) None default_timeout
                 default_next_delay false 0 1 false]> (heap w))
       (storage w) (outbox w) (workers w)).
Proof.
  intros F G D s. unfold initSessionFromJson. rewrite F.
  rewrite (createSession_success _ _ _ d) by done. fold s.
  unfold update, set_heap. simpl. by rewrite alter_insert_eq.
Qed.

Lemma initSessionFromJson_storage (spawn_error : option string) (j : json) (w : World) :
  storage (initSessionFromJson spawn_error j w) = storage w.
Proof.
  unfold initSessionFromJson. destruct (snapshot_fields j) as [[[c dn] items]|]; [|done].
  destruct (createSession_cases c dn w) as [-> | (d & _ & _ & ->)]; [done|].
  match goal with |- context [_start ?e ?q ?w0] =>
    destruct (_start_fields e q w0) as (_ & _ & ->) end.
  done.
Qed.

Lemma initSessionFromJson_keeps (spawn_error : option string) (j : json) (w : World)
    (k : Z) :
  is_Some (g_sessions w !! k) ->
  is_Some (g_sessions (initSessionFromJson spawn_error j w) !! k).
Proof.
  intros Hk. unfold initSessionFromJson.
  destruct (snapshot_fields j) as [[[c dn] items]|]; [|done].
  destruct (createSession_cases c dn w) as [-> | (d & _ & _ & ->)]; [done|].
  match goal with |- context [_start ?e ?q ?w0] =>
    destruct (_start_fields e q w0) as (-> & _) end.
  simpl. destruct (decide (c = k)) as [->|Hne].
  - rewrite lookup_insert_eq. eauto.
  - by rewrite lookup_insert_ne.
Qed.

Lemma initSessionFromJson_registers (spawn_error : option string) (j : json)
    (w : World) (chat_id : Z) (deck_name : string) (items : list json) :
  snapshot_fields j = Some (chat_id, deck_name, items) ->
  is_Some (createDeck deck_name) ->
  is_Some (g_sessions (initSessionFromJson spawn_error j w) !! chat_id).
Proof.
  intros F [d D].
  destruct (g_sessions w !! chat_id) as [p|] eqn:G.
  - apply initSessionFromJson_keeps. by rewrite G.
  - rewrite (initSessionFromJson_restores _ _ _ _ _ _ d F G D).
    match goal with |- context [_start ?e ?p ?w0] =>
      destruct (_start_fields e p w0) as (-> & _) end.
    simpl. rewrite lookup_insert_eq. eauto.
Qed.

End PersistenceFacts.

Section RecoveryFacts.
Context {Card Deck : Type} `{CardOps Card} `{DeckOps Card Deck} `{SessionDefaults}
  `{JsonCodec}.

#[local] Abbreviation Session := (Session Card Deck).
#[local] Abbreviation World := (World Card Deck).

Lemma init_entry_storage (spawn_error : string -> option string) (w : World)
    (n : string) :
  storage (init_entry spawn_error w n) = storage w.
Proof.
  unfold init_entry, load_str_from_file. destruct (is_snapshot_name n); [|done].
  destruct (storage w !! n) as [txt|]; [|done].
  destruct (parse (c_str txt)); [|done]. apply initSessionFromJson_storage.
Qed.

Lemma snapshot_of_storage (w1 w2 : World) (n : string) :
  storage w1 = storage w2 -> snapshot_of w1 n = snapshot_of w2 n.
Proof. intros E. unfold snapshot_of. by rewrite E. Qed.


Lemma init_entry_keeps (spawn_error : string -> option string) (w : World)
    (n : string) (k : Z) :
  is_Some (g_sessions w !! k) ->
  is_Some (g_sessions (init_entry spawn_error w n) !! k).
Proof.
  intros Hk. unfold init_entry, load_str_from_file.
  destruct (is_snapshot_name n); [|done].
  destruct (storage w !! n) as [txt|]; [|done].
  destruct (parse (c_str txt)); [|done]. by apply initSessionFromJson_keeps.
Qed.

Lemma init_entry_registers (spawn_error : string -> option string) (w : World)
    (n : string) (chat_id : Z) (deck_name : string) (items : list json) :
  snapshot_of w n = Some (chat_id, deck_name, items) ->
  is_Some (createDeck deck_name) ->
  is_Some (g_sessions (init_entry spawn_error w n) !! chat_id).
Proof.
  unfold snapshot_of, init_entry, load_str_from_file.
  destruct (is_snapshot_name n); [|done].
  destruct (storage w !! n) as [txt|]; [|done].
  destruct (parse (c_str txt)) as [j|]; [|done].
  intros F D. by eapply initSessionFromJson_registers.
Qed.

Lemma init_storage (spawn_error : string -> option string) (listing : list string)
    (w : World) :
  storage (init spawn_error listing w) = storage w.
Proof.
  unfold init. revert w. induction listing as [|n l IH]; intros w; simpl; [done|].
  by rewrite IH, init_entry_storage.
Qed.

Lemma init_keeps (spawn_error : string -> option string) (listing : list string)
    (w : World) (k : Z) :
  is_Some (g_sessions w !! k) ->
  is_Some (g_sessions (init spawn_error listing w) !! k).
Proof.
  unfold init. revert w. induction listing as [|n l IH]; intros w Hk; simpl; [done|].
  apply IH. by apply init_entry_keeps.
Qed.


Lemma init_registers (spawn_error : string -> option string) (listing : list string)
    (w : World) (n : string) (chat_id : Z) (deck_name : string) (items : list json) :
  n ∈ listing ->
  snapshot_of w n = Some (chat_id, deck_name, items) ->
  is_Some (createDeck deck_name) ->
  is_Some (g_sessions (init spawn_error listing w) !! chat_id).
Proof.
  revert w. induction listing as [|n0 l IH]; intros w Hin F D.
  - by apply elem_of_nil in Hin.
  - change (init spawn_error (n0 :: l) w)
      with (init spawn_error l (init_entry spawn_error w n0)).
    apply elem_of_cons in Hin as [->|Hin].
    + apply init_keeps. by eapply init_entry_registers.
    + apply IH; [done| |done].
      rewrite (snapshot_of_storage _ w); [done | apply init_entry_storage].
Qed.

(** A session that is registered stays as it is when a further document
    is read. *)
Lemma initSessionFromJson_preserves (spawn_error : option string) (j : json)
    (w : World) (k : Z) (p : addr) (s : Session) :
  g_sessions w !! k = Some p -> heap w !! p = Some s ->
  g_sessions (initSessionFromJson spawn_error j w) !! k = Some p /\
  heap (initSessionFromJson spawn_error j w) !! p = Some s.
Proof.
  intros G Hp. unfold initSessionFromJson.
  destruct (snapshot_fields j) as [[[c dn] items]|]; [|done].
  destruct (createSession_cases c dn w) as [-> | (d & Gc & _ & ->)]; [done|].
  match goal with |- context [_start ?e ?q ?w0] =>
    destruct (_start_fields e q w0) as (-> & -> & _) end.
  simpl.
  assert (Hne : fresh (dom (heap w)) <> p).
  { intros <-. by rewrite fresh_unallocated in Hp. }
  assert (Hck : c <> k) by congruence.
  rewrite lookup_insert_ne by done.
  rewrite lookup_alter_ne by done. by rewrite lookup_insert_ne.
Qed.



Lemma init_entry_preserves (spawn_error : string -> option string) (w : World)
    (n : string) (k : Z) (p : addr) (s : Session) :
  g_sessions w !! k = Some p -> heap w !! p = Some s ->
  g_sessions (init_entry spawn_error w n) !! k = Some p /\
  heap (init_entry spawn_error w n) !! p = Some s.
Proof.
  intros G Hp. unfold init_entry, load_str_from_file.
  destruct (is_snapshot_name n); [|done].
  destruct (storage w !! n) as [txt|]; [|done].
  destruct (parse (c_str txt)); [|done]. by apply initSessionFromJson_preserves.
Qed.



Lemma init_preserves (spawn_error : string -> option string) (listing : list string)
    (w : World) (k : Z) (p : addr) (s : Session) :
  g_sessions w !! k = Some p -> heap w !! p = Some s ->
  g_sessions (init spawn_error listing w) !! k = Some p /\
  heap (init spawn_error listing w) !! p = Some s.
Proof.
  unfold init. revert w. induction listing as [|n l IH]; intros w G Hp; simpl; [done|].
  destruct (init_entry_preserves spawn_error w n k p s G Hp) as [G1 H1'].
  by apply IH.
Qed.



(** The snapshot records the chat id, the name of the deck and the score
    board, and nothing else of the session: not the cards that are left
    in the deck, not the current card. *)
Lemma session_json_fields (s1 s2 : Session) :
  chat_id_ s1 = chat_id_ s2 -> getName (deck_ s1) = getName (deck_ s2) ->
  scores_ s1 = scores_ s2 -> session_json s1 = session_json s2.
Proof. intros E1 E2 E3. unfold session_json. by rewrite E1, E2, E3. Qed.

(** C4, as the code has it.  A checkpoint that reaches the file in full
    leaves the text of the session's document in the snapshot file of its
    chat id.  A process that starts with these files gets, from that
    snapshot, a session for the same chat id whose score board maps the
    same participants to the same point, full name and username (and is
    the same list when the ids on the board are distinct).  Its deck is
    the deck that [createDeck] makes from the deck name, as for a new
    session: the snapshot is the same for every position in the deck, so
    the restored session starts the deck again.  It has no current card,
    the default timeouts, and a worker at its start. *)
Theorem save_restore_roundtrip (spawn_error : string -> option string) (key : Z)
    (w : World) (p : addr) (s : Session) (d : Deck) (written flushed : nat) :
  g_sessions w !! key = Some p -> heap w !! p = Some s -> chat_id_ s = key ->
  session_in_range s ->
  parse (c_str (dump (session_json s))) = Some (session_json s) ->
  createDeck (getName (deck_ s)) = Some d ->
  (String.length (dump (session_json s)) <= written)%nat ->
  (String.length (dump (session_json s)) <= flushed)%nat ->
  let w1 := serializeSessions true written flushed key w in
  let w2 := init spawn_error [snapshot_name key] (empty_world (storage w1)) in
  storage w1 !! snapshot_name key = Some (dump (session_json s)) /\
  (forall s0 : Session,
     chat_id_ s0 = chat_id_ s -> getName (deck_ s0) = getName (deck_ s) ->
     scores_ s0 = scores_ s -> dump (session_json s0) = dump (session_json s)) /\
  exists p' s',
    g_sessions w2 !! key = Some p' /\ heap w2 !! p' = Some s' /\
    same_scores (scores_ s') (scores_ s) /\
    (NoDup (scores_ s).*1 -> scores_ s' = scores_ s) /\
    chat_id_ s' = key /\ deck_ s' = d /\ current_card_ s' = None /\
    new_Session key (getName (deck_ s)) = Some (set_ref_count 0 (set_scores [] s')) /\
    (spawn_error (snapshot_name key) = None -> workers w2 !! p' = Some PStart).
Proof.
  intros G Hp Hk [Hc Hr] Hparse D Lw Lf w1 w2.
  assert (St : storage w1 !! snapshot_name key = Some (dump (session_json s))).
  { subst w1. rewrite (serializeSessions_complete _ _ _ _ p s) by done.
    simpl. apply lookup_insert_eq. }
  split; [exact St|].
  split. { intros s0 E1 E2 E3. by rewrite (session_json_fields s0 s). }
  destruct (restore_scores_roundtrip (scores_ s) Hr) as [Hsame Heq].
  assert (E : w2 = _start (spawn_error (snapshot_name key)) (fresh (dom (∅ : gmap addr Session)))
                 (mkWorld (<[key := fresh (dom (∅ : gmap addr Session))]> ∅)
                    (<[fresh (dom (∅ : gmap addr Session)) :=
                         mkSession key d (restore_scores (scores_json_loop (scores_ s) []) [])
                           None default_timeout default_next_delay false 0 1 false]> ∅)
                    (storage w1) [] ∅)).
  { subst w2. unfold init. simpl. unfold init_entry, load_str_from_file.
    rewrite is_snapshot_name_snapshot_name. simpl. rewrite St, Hparse.
    rewrite (initSessionFromJson_restores _ (session_json s)
               (empty_world (storage w1)) key (getName (deck_ s))
               (scores_json_loop (scores_ s) []) d); [reflexivity| |done|done].
    rewrite snapshot_fields_session_json. by rewrite int64_small, Hk by done. }
  set (p' := fresh (dom (∅ : gmap addr Session))) in E.
  exists p', (mkSession key d (restore_scores (scores_json_loop (scores_ s) []) [])
                None default_timeout default_next_delay false 0 1 false).
  rewrite E.
  match goal with |- context [_start ?e ?q ?w0] =>
    destruct (_start_fields e q w0) as (-> & -> & _) end.
  simpl. rewrite !lookup_insert_eq.
  repeat split; try done.
  - unfold new_Session. by rewrite D.
  - intros ->. apply lookup_insert_eq.
Qed.

End RecoveryFacts.

Module PersistenceChecks.
Import Example.

(** C6 at a concrete checkpoint of chat 42: [fwrite] reports the whole
    text, the flush gets 5 bytes into the file; the file with these 5
    bytes stays.  When [fwrite] itself reports 5 bytes, the file is
    removed. *)
Lemma checkpoint_write_outcomes_witness :
  storage (serializeSessions true
             (String.length (dump (session_json live_session))) 5 42 live_world)
    !! snapshot_name 42
  = Some (substring 0 5 (dump (session_json live_session))) /\
  substring 0 5 (dump (session_json live_session))
    <> dump (session_json live_session) /\
  storage (serializeSessions true 5 5 42 live_world) !! snapshot_name 42 = None.
Proof.
  assert (L : (5 < String.length (dump (session_json live_session)))%nat)
    by (vm_compute; lia).
  assert (G : g_sessions live_world !! 42 = Some 1%positive)
    by (vm_compute; reflexivity).
  assert (Hp : heap live_world !! 1%positive = Some live_session)
    by (vm_compute; reflexivity).
  destruct (checkpoint_write_outcomes
              (String.length (dump (session_json live_session))) 5 42 live_world
              1%positive live_session G Hp) as [_ B].
  destruct (B (le_n _) L) as (B1 & _ & B3).
  split; [exact B1|]. split; [exact B3|].
  exact (proj1 (checkpoint_write_outcomes 5 5 42 live_world 1%positive live_session
                  G Hp) L).
Defined.

(** C4 at a concrete session: the board of chat 42 comes back as it was,
    with the whole deck. *)
Lemma save_restore_witness :
  exists p' s',
    heap (init no_spawn_error [snapshot_name 42]
            (empty_world
               (storage (serializeSessions true 1000 1000 42 live_world)))) !! p'
      = Some s' /\
    scores_ s' = board2 /\ current_card_ s' = None /\
    deck_ s' = mkDeck "two" [card1; card2].
Proof.
  assert (R : session_in_range live_session) by (split; compute_done).
  assert (P : parse (c_str (dump (session_json live_session)))
              = Some (session_json live_session)) by (vm_compute; reflexivity).
  assert (N : NoDup (scores_ live_session).*1) by compute_done.
  assert (L : (String.length (dump (session_json live_session)) <= 1000)%nat)
    by (vm_compute; lia).
  destruct (save_restore_roundtrip no_spawn_error 42 live_world 1%positive
              live_session (mkDeck "two" [card1; card2]) 1000 1000
              eq_refl eq_refl eq_refl R P eq_refl L L)
    as (_ & _ & p' & s' & _ & Hh & _ & Heq & _ & Hd & Hc & _).
  exists p', s'. split; [exact Hh|]. split; [exact (Heq N)|].
  split; [exact Hc | exact Hd].
Defined.

(** C4 as the specification words it fails: in the running session of
    chat 42 the first card of the deck has been asked and the second is
    the next to be drawn.  The session restored from its snapshot has the
    same board, but its worker draws the first card again. *)
Lemma save_restore_deck_counterexample :
  exists p' s',
    g_sessions (init no_spawn_error [snapshot_name 42]
                  (empty_world
                     (storage (serializeSessions true 1000 1000 42 live_world))))
      !! 42 = Some p' /\
    heap (init no_spawn_error [snapshot_name 42]
            (empty_world
               (storage (serializeSessions true 1000 1000 42 live_world)))) !! p'
      = Some s' /\
    scores_ s' = scores_ live_session /\
    (draw (deck_ live_session)).1 = Some card2 /\
    (draw (shuffle (deck_ s'))).1 = Some card1 /\
    ~ resumes_at_next_undrawn live_session s'.
Proof.
  eexists _, _. split; [vm_compute; reflexivity|].
  split; [vm_compute; reflexivity|].
  split; [reflexivity|]. split; [reflexivity|]. split; [reflexivity|].
  unfold resumes_at_next_undrawn. simpl. discriminate.
Qed.


End PersistenceChecks.

Module AnswerChecks.
Import Example.

(** C7 at concrete messages: a wrong answer changes nothing; a right
    answer from Ann, who has 2 points, gives her 3; a right answer from
    Dan, who is new, puts him last with 1 point. *)
Lemma answer_scoring_witness :
  answer wrong_from_ann asking_session = (asking_session, []) /\
  sb_find 7 (scores_ (answer right_from_ann asking_session).1)
    = Some (mkScore 3 "Ann Lee" "ann") /\
  scores_ (answer right_from_dan asking_session).1
    = board2 ++ [(8, mkScore 1 "Dan" "dan")].
Proof.
  split; [|split].
  - apply (proj1 (answer_scoring wrong_from_ann asking_session)).
    right. exists card1. split; reflexivity.
  - exact (proj1 (proj1 (proj2 (proj2 (answer_scoring right_from_ann asking_session)
                                  card1 eq_refl eq_refl))
                    (mkScore 2 "Ann Lee" "ann") eq_refl)).
  - exact (proj2 (proj2 (proj1 (proj2 (answer_scoring right_from_dan asking_session)
                                  card1 eq_refl eq_refl) eq_refl))).
Defined.

End AnswerChecks.

(* ===================================================================== *)
(** * Properties of the worker *)
(* ===================================================================== *)

Section WorkerFacts.
Context {Card Deck : Type} `{CardOps Card} `{DeckOps Card Deck} `{SessionDefaults}
  `{JsonCodec}.

#[local] Abbreviation Session := (Session Card Deck).
#[local] Abbreviation World := (World Card Deck).

Lemma serializeSessions_fields (fopen_ok : bool) (written flushed : nat) (key : Z) (w : World) :
  g_sessions (serializeSessions fopen_ok written flushed key w) = g_sessions w /\
  heap (serializeSessions fopen_ok written flushed key w) = heap w /\
  outbox (serializeSessions fopen_ok written flushed key w) = outbox w /\
  workers (serializeSessions fopen_ok written flushed key w) = workers w.
Proof. unfold serializeSessions. repeat case_match; done. Qed.

Lemma release_fields (p : addr) (w : World) :
  g_sessions (release p w) = g_sessions w /\
  storage (release p w) = storage w /\
  outbox (release p w) = outbox w /\
  workers (release p w) = workers w.
Proof. unfold release. repeat case_match; done. Qed.

Lemma release_heap (p : addr) (w : World) (s' : Session) :
  heap (release p w) !! p = Some s' ->
  exists s, heap w !! p = Some s /\ chat_id_ s' = chat_id_ s /\
            ref_count_ s' = ref_count_ s - 1.
Proof.
  unfold release. destruct (heap w !! p) as [s|] eqn:E; [|by rewrite E].
  destruct (decide (ref_count_ s = 1)); simpl.
  - by rewrite lookup_delete_eq.
  - rewrite lookup_alter_eq, E. simpl. intros [= <-]. eauto.
Qed.

Lemma after_await_cases (s : Session) : after_await s = PDelay \/ after_await s = PSave.
Proof. unfold after_await. destruct (_ && _); auto. Qed.

Lemma sendCard_keeps (url : option string) (photo : option Z) (card : Card)
    (s s2 : Session) (calls : list ApiCall) (ok : bool) :
  sendCard url photo card s = (calls, s2, ok) ->
  chat_id_ s2 = chat_id_ s /\ ref_count_ s2 = ref_count_ s /\ scores_ s2 = scores_ s.
Proof. unfold sendCard. repeat case_match; intros [= <- <- <-]; done. Qed.

(** Every step of the worker is of one of the three kinds. *)
Lemma worker_step_kind (this : addr) (l : Label) (w w' : World) :
  worker_step this l w = Some w' ->
  exists pc pc' s,
    workers w !! this = Some pc /\ heap w !! this = Some s /\
    workers w' = <[this := pc']> (workers w) /\
    step_kind this s w w' pc pc'.
Proof.
  unfold worker_step. intros Hs.
  destruct (workers w !! this) as [pc|] eqn:Epc; [|done].
  destruct (heap w !! this) as [s|] eqn:Es; [|done].
  exists pc.
  destruct pc, l; try done; repeat case_match; simplify_eq/=.
  all: try (eexists _, s; split; [done|]; split; [done|]; split;
             [first [reflexivity
                    | by rewrite (proj2 (proj2 (proj2 (serializeSessions_fields _ _ _ _ _))))
                    | by rewrite (proj2 (proj2 (proj2 (deleteSession_rest _ _))))
                    | by rewrite (proj2 (proj2 (proj2 (release_fields _ _))))]|]).
  all: try (by constructor).
  all: apply kind_other; try done.
  all: try (match goal with |- after_await ?x <> _ =>
              destruct (after_await_cases x) as [-> | ->]; done end).
  all: simpl; rewrite ?(proj1 (proj2 (serializeSessions_fields _ _ _ _ _))),
         ?lookup_insert_eq.
  all: try (eexists; split; [done|]; simpl; split; [done|lia]).
  all: try (match goal with
            | Hc : sendCard _ _ _ _ = _ |- _ =>
                apply sendCard_keeps in Hc as (Hc1 & Hc2 & _);
                eexists; split; [done|]; rewrite Hc1, Hc2; simpl; split; [done|lia]
            end).
  all: try apply (proj1 (serializeSessions_fields _ _ _ _ _)).
Qed.

Lemma worker_step_inv (this : addr) (chat_id : Z) (l : Label) (w w' : World) :
  worker_step this l w = Some w' ->
  deregistered_inv this chat_id w -> deregistered_inv this chat_id w'.
Proof.
  intros Hs [Hc Hr].
  apply worker_step_kind in Hs as (pc & pc' & s & Epc & Es & Ew & K).
  pose proof (Hc s Es) as Hcs.
  unfold deregistered_inv. rewrite Ew, lookup_insert_eq.
  destruct K as [-> | -> | pc pc' ? ? ? ? ? G (s' & Es' & Hc' & _)].
  - split.
    + simpl. rewrite (proj1 (deleteSession_rest _ _)). exact Hc.
    + intros _. simpl. rewrite deleteSession_registry, Hcs. apply lookup_delete_eq.
  - split.
    + simpl. intros s1 E1. apply release_heap in E1 as (s0 & E0 & -> & _). by apply Hc.
    + intros _. simpl. rewrite (proj1 (release_fields _ _)). apply Hr. by left.
  - split.
    + intros s1 E1. rewrite Es' in E1. injection E1 as <-. congruence.
    + intros [[= ->]|[= ->]]; done.
Qed.

(** Events that leave the registry and the workers alone, and the chat
    id of the session at [this], keep the invariant. *)
Lemma deregistered_inv_env (this : addr) (chat_id : Z) (w w' : World) :
  g_sessions w' = g_sessions w -> workers w' = workers w ->
  (forall s', heap w' !! this = Some s' ->
     exists s, heap w !! this = Some s /\ chat_id_ s' = chat_id_ s) ->
  deregistered_inv this chat_id w -> deregistered_inv this chat_id w'.
Proof.
  intros G T Hh [Hc Hr]. split.
  - intros s' E'. destruct (Hh s' E') as (s0 & E0 & ->). by apply Hc.
  - rewrite G, T. exact Hr.
Qed.

Lemma update_heap (p this : addr) (f : Session -> Session) (w : World) (s' : Session) :
  (forall s, chat_id_ (f s) = chat_id_ s) ->
  heap (update p f w) !! this = Some s' ->
  exists s, heap w !! this = Some s /\ chat_id_ s' = chat_id_ s.
Proof.
  intros Hf. unfold update. simpl. rewrite lookup_alter.
  destruct (decide (p = this)) as [->|]; [|eauto].
  destruct (heap w !! this) as [s|]; simpl; [|done]. intros [= <-]. eauto.
Qed.

Lemma release_heap_any (p this : addr) (w : World) (s' : Session) :
  heap (release p w) !! this = Some s' ->
  exists s, heap w !! this = Some s /\ chat_id_ s' = chat_id_ s.
Proof.
  destruct (decide (p = this)) as [->|Hne].
  - intros E. apply release_heap in E as (s0 & E0 & Hc & _). eauto.
  - unfold release. destruct (heap w !! p) as [s|]; [|eauto].
    destruct (decide (ref_count_ s = 1)); simpl.
    + rewrite lookup_delete_ne by done. eauto.
    + rewrite lookup_alter_ne by done. eauto.
Qed.

Lemma answer_chat_id (msg : Message) (s : Session) :
  chat_id_ (answer msg s).1 = chat_id_ s.
Proof.
  unfold answer. destruct (current_card_ s); [|done].
  destruct (card_answer _ _); [|done]. simpl. by destruct (sb_find _ _).
Qed.

Lemma entry_fields (msg : Message) (w w' : World) :
  entry msg w = Some w' ->
  g_sessions w' = g_sessions w /\ workers w' = workers w /\ storage w' = storage w.
Proof.
  unfold entry, getSession. destruct (g_sessions w !! chat msg) as [sess|]; [|done].
  destruct (heap _ !! sess) as [s|]; [|done].
  destruct (answer msg s) as [s1 calls]. intros [= <-]. unfold putSession.
  rewrite (proj1 (release_fields _ _)), (proj1 (proj2 (release_fields _ _))),
    (proj2 (proj2 (proj2 (release_fields _ _)))). done.
Qed.

Lemma entry_heap (this : addr) (msg : Message) (w w' : World) (s' : Session) :
  entry msg w = Some w' -> heap w' !! this = Some s' ->
  exists s, heap w !! this = Some s /\ chat_id_ s' = chat_id_ s.
Proof.
  unfold entry, getSession. destruct (g_sessions w !! chat msg) as [sess|]; [|done].
  destruct (heap _ !! sess) as [s|] eqn:E1; [|done].
  pose proof (answer_chat_id msg s) as Ha.
  destruct (answer msg s) as [s1 calls]. simpl in Ha. intros [= <-] E'.
  unfold putSession in E'. apply release_heap_any in E' as (s2 & E2 & ->).
  simpl in E2. destruct (decide (sess = this)) as [->|Hne].
  - rewrite lookup_insert_eq in E2. injection E2 as <-. rewrite Ha.
    by apply (update_heap this this (fun s => set_ref_count (ref_count_ s + 1) s)).
  - rewrite lookup_insert_ne in E2 by done.
    by apply (update_heap sess this (fun s => set_ref_count (ref_count_ s + 1) s)).
Qed.

Lemma exec_inv (this : addr) (chat_id : Z) (e : Event) (w w' : World) :
  exec this e w = Some w' ->
  deregistered_inv this chat_id w -> deregistered_inv this chat_id w'.
Proof.
  destruct e as [l|msg| |t skip|t skip|c|sess]; simpl.
  - apply worker_step_inv.
  - intros E. destruct (entry_fields _ _ _ E) as (G & T & _).
    apply deregistered_inv_env; [done|done|]. intros s'. by apply (entry_heap this msg).
  - intros [= <-]. apply deregistered_inv_env; [done|done|].
    intros s'. by apply update_heap.
  - intros [= <-]. apply deregistered_inv_env; [done|done|].
    intros s'. apply update_heap. intros s. unfold setTimeout. by destruct skip.
  - intros [= <-]. apply deregistered_inv_env; [done|done|].
    intros s'. apply update_heap. intros s. unfold setNextDelay. by destruct skip.
  - intros [= <-]. unfold getSession. destruct (g_sessions w !! c); [|done].
    apply deregistered_inv_env; [done|done|]. intros s'. by apply update_heap.
  - intros [= <-]. unfold putSession.
    apply deregistered_inv_env;
      [apply release_fields | apply release_fields | apply release_heap_any].
Qed.

Lemma run_inv (this : addr) (chat_id : Z) (es : list Event) (w w' : World) :
  run this es w = Some w' ->
  deregistered_inv this chat_id w -> deregistered_inv this chat_id w'.
Proof.
  revert w. induction es as [|e es IH]; intros w; simpl.
  - by intros [= <-].
  - destruct (exec this e w) as [w1|] eqn:E; [|done].
    intros Hr Hi. apply (IH w1 Hr). by eapply exec_inv.
Qed.

(** C9. [deleteSession] erases the registry entry and nothing else: the
    session object stays allocated with the reference count it has.  The
    worker reaches the statement that gives up its reference only by the
    step that calls [deleteSession]; no earlier step of the worker lowers
    the reference count.  So however the steps of the worker are
    interleaved with incoming messages, control calls and borrowed
    references, once the worker stands at or after that statement the
    chat id is not mapped and [getSession] returns nothing for it. *)
Theorem deregister_before_release :
  (forall chat_id (w : World),
     g_sessions (deleteSession chat_id w) = delete chat_id (g_sessions w) /\
     heap (deleteSession chat_id w) = heap w /\
     storage (deleteSession chat_id w) = storage w /\
     outbox (deleteSession chat_id w) = outbox w /\
     workers (deleteSession chat_id w) = workers w) /\
  (forall chat_id (w : World),
     getSession chat_id (deleteSession chat_id w) = (None, deleteSession chat_id w)) /\
  (forall this l (w w' : World), worker_step this l w = Some w' ->
     (workers w' !! this = Some PRelease ->
        exists s, workers w !! this = Some PDeregister /\ heap w !! this = Some s /\
                  w' = goto PRelease this (deleteSession (chat_id_ s) w)) /\
     (workers w !! this = Some PRelease -> w' = goto PDone this (release this w)) /\
     (workers w !! this <> Some PRelease ->
        forall s, heap w !! this = Some s ->
        exists s', heap w' !! this = Some s' /\ ref_count_ s <= ref_count_ s')) /\
  (forall this es (w w' : World) s,
     run this es w = Some w' ->
     workers w !! this = Some PStart -> heap w !! this = Some s ->
     workers w' !! this = Some PRelease \/ workers w' !! this = Some PDone ->
     g_sessions w' !! chat_id_ s = None /\
     getSession (chat_id_ s) w' = (None, w')).
Proof.
  split; [|split; [|split]].
  - intros chat_id w. split; [apply deleteSession_registry | apply deleteSession_rest].
  - apply getSession_after_delete.
  - intros this l w w' Hs.
    apply worker_step_kind in Hs as (pc & pc' & s & Epc & Es & Ew & K).
    rewrite Ew, lookup_insert_eq, Epc.
    destruct K as [-> | -> | pc pc' ? ? ? ? ? G (s' & Es' & _ & Hrc)].
    + split; [eauto|]. split; [done|]. intros _ s0 E0. exists s0. simpl.
      rewrite (proj1 (deleteSession_rest _ _)). split; [done|lia].
    + split; [done|]. split; [done|]. intros N. done.
    + split; [intros [=]; done|]. split; [intros [=]; done|].
      intros _ s0 E0. rewrite Es in E0. injection E0 as <-. eauto.
  - intros this es w w' s Hr Epc Es Hpc.
    assert (I : deregistered_inv this (chat_id_ s) w).
    { split.
      - intros s0 E0. rewrite Es in E0. by injection E0 as <-.
      - rewrite Epc. intros [[=]|[=]]. }
    destruct (run_inv _ _ _ _ _ Hr I) as [_ Hn].
    specialize (Hn Hpc). split; [done|]. by apply getSession_unmapped.
Qed.

Lemma worker_run_run (this : addr) (ls : list Label) (w : World) :
  worker_run this ls w = run this (map EWork ls) w.
Proof.
  revert w. induction ls as [|l ls IH]; intros w; simpl; [done|].
  destruct (worker_step this l w); [apply IH | done].
Qed.

Lemma worker_step_finish (this : addr) (ranking : list (Z * Score)) (w : World)
    (s : Session) :
  workers w !! this = Some PFinish -> heap w !! this = Some s ->
  worker_step this (LFinish ranking) w =
  match sendFinishMessage ranking s with
  | None => None
  | Some calls => Some (goto PDeregister this (send calls w))
  end.
Proof. intros Epc Es. unfold worker_step. by rewrite Epc, Es. Qed.

Lemma worker_step_deregister (this : addr) (w : World) (s : Session) :
  workers w !! this = Some PDeregister -> heap w !! this = Some s ->
  worker_step this LRun w = Some (goto PRelease this (deleteSession (chat_id_ s) w)).
Proof. intros Epc Es. unfold worker_step. by rewrite Epc, Es. Qed.

Lemma worker_step_release (this : addr) (w : World) (s : Session) :
  workers w !! this = Some PRelease -> heap w !! this = Some s ->
  worker_step this LRun w = Some (goto PDone this (release this w)).
Proof. intros Epc Es. unfold worker_step. by rewrite Epc, Es. Qed.

(** The three last steps of the worker, from [sendFinishMessage] on. *)
Lemma teardown_run (this : addr) (ranking : list (Z * Score)) (w : World)
    (s : Session) :
  workers w !! this = Some PFinish -> heap w !! this = Some s ->
  worker_run this [LFinish ranking; LRun; LRun] w =
  match sendFinishMessage ranking s with
  | None => None
  | Some calls =>
      Some (goto PDone this
              (release this
                 (goto PRelease this
                    (deleteSession (chat_id_ s)
                       (goto PDeregister this (send calls w))))))
  end.
Proof.
  intros Epc Es. cbn [worker_run].
  rewrite (worker_step_finish _ _ _ s) by done.
  destruct (sendFinishMessage ranking s) as [calls|]; [|done].
  rewrite (worker_step_deregister _ _ s); [|apply lookup_insert_eq|done].
  rewrite (worker_step_release _ _ s); [done|apply lookup_insert_eq|].
  simpl. by rewrite (proj1 (deleteSession_rest _ _)).
Qed.

(** C5, as the code has it.  From [sendFinishMessage] on the worker
    always gets to its end: it sends the summary as its last message,
    then erases the registry entry of its chat id, then gives up its
    reference: the reference count of the session goes down by one, and
    the object is freed when that was the last reference.  No other
    object is touched.  No file is touched on the way: the snapshot of
    the chat id stays as the last checkpoint left it. *)
Theorem finish_deregisters (this : addr) (w : World) (s : Session) :
  workers w !! this = Some PFinish -> heap w !! this = Some s ->
  (exists ranking w', worker_run this [LFinish ranking; LRun; LRun] w = Some w') /\
  forall ranking w', worker_run this [LFinish ranking; LRun; LRun] w = Some w' ->
    exists calls,
      sendFinishMessage ranking s = Some calls /\
      outbox w' = outbox w ++ calls /\
      last calls = Some (sendMessage (chat_id_ s) (finish_text ranking) true 0 "HTML") /\
      g_sessions w' !! chat_id_ s = None /\
      (forall k, k <> chat_id_ s -> g_sessions w' !! k = g_sessions w !! k) /\
      heap w' !! this =
        (if decide (ref_count_ s = 1) then None
         else Some (set_ref_count (ref_count_ s - 1) s)) /\
      (forall q, q <> this -> heap w' !! q = heap w !! q) /\
      storage w' = storage w /\
      workers w' !! this = Some PDone.
Proof.
  intros Epc Es. split.
  - destruct (sendFinishMessage_total s) as (ranking & calls & E).
    exists ranking. rewrite (teardown_run _ _ _ s) by done. rewrite E. eauto.
  - intros ranking w'. rewrite (teardown_run _ _ _ s) by done.
    destruct (sendFinishMessage ranking s) as [calls|] eqn:E; [|done].
    intros [= <-]. exists calls. split; [done|].
    destruct (sendFinishMessage_spec _ _ _ E) as [_ L].
    assert (A : heap (release this
                        (goto PRelease this
                           (deleteSession (chat_id_ s)
                              (goto PDeregister this (send calls w))))) !! this =
                (if decide (ref_count_ s = 1) then None
                 else Some (set_ref_count (ref_count_ s - 1) s)) /\
                forall q, q <> this ->
                  heap (release this
                          (goto PRelease this
                             (deleteSession (chat_id_ s)
                                (goto PDeregister this (send calls w))))) !! q
                  = heap w !! q).
    { assert (Hh : heap (goto PRelease this
                           (deleteSession (chat_id_ s)
                              (goto PDeregister this (send calls w)))) = heap w).
      { simpl. by rewrite (proj1 (deleteSession_rest _ _)). }
      unfold release. rewrite Hh, Es.
      destruct (decide (ref_count_ s = 1)); simpl;
        rewrite (proj1 (deleteSession_rest _ _)); simpl; split.
      - apply lookup_delete_eq.
      - intros q Hq. by rewrite lookup_delete_ne.
      - by rewrite lookup_alter_eq, Es.
      - intros q Hq. by rewrite lookup_alter_ne. }
    destruct A as [A1 A2].
    simpl. rewrite (proj1 (proj2 (proj2 (release_fields _ _)))).
    rewrite (proj1 (proj2 (release_fields _ _))).
    rewrite (proj1 (release_fields _ _)). simpl.
    rewrite (proj1 (proj2 (proj2 (deleteSession_rest _ _)))).
    rewrite (proj1 (proj2 (deleteSession_rest _ _))).
    rewrite deleteSession_registry. simpl.
    split; [done|]. split; [done|]. split; [apply lookup_delete_eq|].
    split; [intros k Hk; by rewrite lookup_delete_ne|].
    split; [exact A1|]. split; [exact A2|].
    split; [done|]. apply lookup_insert_eq.
Qed.

Lemma await_entered_from_loop (this : addr) (l : Label) (w w' : World) :
  worker_step this l w = Some w' -> workers w' !! this = Some PAwait ->
  workers w !! this = Some PLoop /\
  exists s s' card,
    heap w !! this = Some s /\ heap w' !! this = Some s' /\
    (draw (deck_ s)).1 = Some card /\ current_card_ s' = Some card.
Proof.
  unfold worker_step. intros Hs.
  destruct (workers w !! this) as [pc|] eqn:Epc; [|done].
  destruct (heap w !! this) as [s|] eqn:Es; [|done].
  destruct pc, l; try done; repeat case_match; simplify_eq/=;
    rewrite lookup_insert_eq; try done.
  all: try (match goal with |- Some (after_await ?x) = _ -> _ =>
              destruct (after_await_cases x) as [-> | ->]; done end).
  intros _. split; [done|]. eexists s, _, _. split; [done|].
  rewrite lookup_insert_eq. split; [done|].
  match goal with Hd : draw _ = _ |- _ => rewrite Hd end. split; [done|].
  match goal with Hc : sendCard _ _ _ _ = _ |- _ =>
    unfold sendCard in Hc; repeat case_match; by simplify_eq/= end.
Qed.

(** C3, as the code has it.  When [setTimeout] is called with [skip] set
    while the worker waits for the answer to a card, the wait returns
    without a timeout: no message is sent, the score board and the
    current card stay as they are, the new timeout is in place.  The
    worker does not wait again for that card: it goes on to the pause
    between cards or to the checkpoint, and the answer wait is only ever
    entered from the top of the loop, with a card newly drawn. *)
Theorem setTimeout_skip_wakes (this : addr) (w : World) (s : Session) (card : Card)
    (t : Z) :
  workers w !! this = Some PAwait -> heap w !! this = Some s ->
  current_card_ s = Some card ->
  let w1 := call this (setTimeout t true) w in
  (exists w2 s2,
     worker_step this (LWake no_timeout) w1 = Some w2 /\
     heap w2 !! this = Some s2 /\
     outbox w2 = outbox w /\ storage w2 = storage w /\ g_sessions w2 = g_sessions w /\
     scores_ s2 = scores_ s /\ current_card_ s2 = Some card /\ deck_ s2 = deck_ s /\
     timeout_ s2 = uint32 t /\
     workers w2 !! this = Some (after_await s) /\
     (after_await s = PDelay \/ after_await s = PSave)) /\
  (forall l wa wb, worker_step this l wa = Some wb ->
     workers wb !! this = Some PAwait ->
     workers wa !! this = Some PLoop /\
     exists sa sb c,
       heap wa !! this = Some sa /\ heap wb !! this = Some sb /\
       (draw (deck_ sa)).1 = Some c /\ current_card_ sb = Some c).
Proof.
  intros Epc Es Ec w1. split; [|apply await_entered_from_loop].
  assert (E1 : heap w1 !! this = Some (setTimeout t true s)).
  { subst w1. unfold call, update. simpl. by rewrite lookup_alter_eq, Es. }
  eexists _, _. split.
  { unfold worker_step. subst w1. unfold call, update in *. simpl in *.
    rewrite Epc, E1. simpl. reflexivity. }
  simpl. rewrite !lookup_insert_eq.
  repeat (split; [done|]). apply after_await_cases.
Qed.

End WorkerFacts.

Module WorkerChecks.
Import Example.

(** C3 at a concrete state: [card1] is shown in chat 42, the timeout is
    set to 10 seconds with [skip]. *)
Lemma setTimeout_skip_witness :
  exists w2 s2,
    worker_step 1%positive (LWake no_timeout)
      (call 1%positive (setTimeout 10 true) asking_world) = Some w2 /\
    heap w2 !! 1%positive = Some s2 /\
    outbox w2 = [] /\ scores_ s2 = board2 /\ current_card_ s2 = Some card1 /\
    timeout_ s2 = 10 /\ workers w2 !! 1%positive = Some PDelay.
Proof.
  destruct (proj1 (setTimeout_skip_wakes 1%positive asking_world asking_session
                     card1 10 eq_refl eq_refl eq_refl))
    as (w2 & s2 & Hs & Hh & Ho & _ & _ & Hsc & Hc & _ & Ht & Hw & _).
  exists w2, s2. repeat split; assumption.
Defined.

(** C3 as the specification words it fails: after the wake-up the worker
    is not in the answer wait but in the pause between cards; it goes on
    to send [card2], and [card1] is dropped without a message and without
    a point. *)
Lemma setTimeout_skip_counterexample :
  (exists w2,
     worker_step 1%positive (LWake no_timeout)
       (call 1%positive (setTimeout 10 true) asking_world) = Some w2 /\
     workers w2 !! 1%positive = Some PDelay /\
     workers w2 !! 1%positive <> Some PAwait) /\
  (exists w5 s5,
     worker_run 1%positive (LWake no_timeout :: after_wake)
       (call 1%positive (setTimeout 10 true) asking_world) = Some w5 /\
     heap w5 !! 1%positive = Some s5 /\
     workers w5 !! 1%positive = Some PAwait /\
     current_card_ s5 = Some card2 /\ scores_ s5 = board2 /\
     outbox w5 =
       [sendPhoto 42 "http://img/2"
          (question_info card2 +:+ nl +:+ nl +:+ "Timeout: 10 seconds") 55]).
Proof.
  split.
  - eexists. split; [vm_compute; reflexivity|]. split; [reflexivity | discriminate].
  - eexists _, _. split; [vm_compute; reflexivity|]. repeat split.
Qed.

(** C5 at a concrete state: the session of chat 42 at its finish, with a
    snapshot on disk. *)
Lemma finish_deregisters_witness :
  exists w',
    worker_run 1%positive [LFinish [ann; cyd; bob]; LRun; LRun] finishing_world
      = Some w' /\
    g_sessions w' !! 42 = None /\ storage w' = storage finishing_world /\
    heap w' !! 1%positive = None /\
    workers w' !! 1%positive = Some PDone.
Proof.
  assert (R : exists w', worker_run 1%positive [LFinish [ann; cyd; bob]; LRun; LRun]
                           finishing_world = Some w')
    by (vm_compute; eexists; reflexivity).
  destruct R as [w' R]. exists w'. split; [exact R|].
  destruct (proj2 (finish_deregisters 1%positive finishing_world session313
                     eq_refl eq_refl) _ _ R)
    as (calls & _ & _ & _ & G & _ & Hh & _ & S & P).
  repeat split; assumption.
Defined.

(** C5 as the specification words it fails: a whole run of the worker of
    chat 42, from its start to its end.  The session is deregistered, and
    the snapshot written by the checkpoint is still there. *)
Lemma finish_keeps_snapshot_counterexample :
  exists w',
    worker_run 1%positive whole_run started_world = Some w' /\
    workers w' !! 1%positive = Some PDone /\
    g_sessions w' !! 42 = None /\
    storage w' !! snapshot_name 42 = Some (good_doc 42 []) /\
    storage w' !! snapshot_name 42 <> None.
Proof.
  eexists. split; [vm_compute; reflexivity|].
  split; [reflexivity|]. split; [reflexivity|]. split; [reflexivity | discriminate].
Qed.

(** C9 at a concrete run: the worker of chat 42 up to the statement that
    gives up its reference, with an answer coming in on the way and a
    lookup at the end. *)
Lemma deregister_before_release_witness :
  exists w',
    run 1%positive answered_run started_world = Some w' /\
    workers w' !! 1%positive = Some PRelease /\
    g_sessions w' !! 42 = None /\ getSession 42 w' = (None, w').
Proof.
  assert (R : exists w', run 1%positive answered_run started_world = Some w'
                         /\ workers w' !! 1%positive = Some PRelease)
    by (vm_compute; eexists; split; reflexivity).
  destruct R as (w' & R & P). exists w'. split; [exact R|]. split; [exact P|].
  assert (S : exists s, heap started_world !! 1%positive = Some s /\ chat_id_ s = 42)
    by (vm_compute; eexists; split; reflexivity).
  destruct S as (s & Hs & Hc).
  pose proof (proj2 (proj2 (proj2 deregister_before_release))
                1%positive answered_run started_world w' s R eq_refl Hs
                (or_introl P)) as Hd.
  rewrite Hc in Hd. exact Hd.
Defined.

End WorkerChecks.

(* ===================================================================== *)
(** * Further properties: HTML escaping *)
(* ===================================================================== *)

Module HtmlMore.
Import Html HtmlDecode.

Lemma htmlspecialchars_replace (s : string) :
  htmlspecialchars s = replace_entities s.
Proof. unfold htmlspecialchars. by rewrite HtmlFacts.loop_accumulates. Qed.

Lemma replace_entities_app (a b : string) :
  replace_entities (a +:+ b) = replace_entities a +:+ replace_entities b.
Proof.
  induction a as [|c a IH]; [done|].
  rewrite append_cons. simpl. rewrite IH.
  destruct (entity_of c); [by rewrite append_assoc | done].
Qed.

Lemma entity_length (c : ascii) (e : string) :
  entity_of c = Some e -> (4 <= String.length e <= 6)%nat.
Proof.
  unfold entity_of.
  repeat (destruct (Ascii.eqb c _); [intros [= <-]; simpl; lia|]). done.
Qed.

Lemma replace_entities_length (s : string) :
  (String.length s <= String.length (replace_entities s) <= 6 * String.length s)%nat.
Proof.
  induction s as [|c s IH]; simpl; [lia|].
  destruct (entity_of c) as [e|] eqn:E.
  - rewrite length_append. apply entity_length in E. lia.
  - simpl. lia.
Qed.

Lemma replace_entities_plain (s : string) :
  Forall (fun c => is_meta c = false) (list_ascii_of_string s) ->
  replace_entities s = s.
Proof.
  induction s as [|c s IH]; simpl; [done|].
  intros F. apply Forall_cons in F as [Hc F]. unfold is_meta in Hc.
  destruct (entity_of c); [done|]. by rewrite IH.
Qed.

Lemma strip_entity_entity (c : ascii) (e r : string) :
  entity_of c = Some e -> strip_entity (e +:+ r) = Some (c, r).
Proof.
  unfold entity_of.
  repeat match goal with
         | |- context [Ascii.eqb c ?x] =>
             destruct (Ascii.eqb_spec c x) as [-> | ?]; [intros [= <-]; reflexivity|]
         end.
  done.
Qed.

Lemma strip_entity_plain (c : ascii) (r : string) :
  entity_of c = None -> strip_entity (String c r) = None.
Proof.
  intros E. assert (Hc : Ascii.eqb "&" c = false).
  { rewrite Ascii.eqb_sym. unfold entity_of in E.
    by destruct (Ascii.eqb c "&"). }
  unfold strip_entity. cbn [strip_prefix]. by rewrite Hc.
Qed.

Lemma unescape_fuel_replace (n : nat) (s : string) :
  (String.length (replace_entities s) <= n)%nat ->
  unescape_fuel n (replace_entities s) = s.
Proof.
  revert n. induction s as [|c s IH]; intros n Hn.
  - by destruct n.
  - cbn [replace_entities] in *. destruct (entity_of c) as [e|] eqn:E.
    + rewrite length_append in Hn. pose proof (entity_length _ _ E).
      destruct n as [|n]; [lia|]. cbn [unescape_fuel].
      rewrite (strip_entity_entity c e _ E). f_equal. apply IH. lia.
    + simpl in Hn. destruct n as [|n]; [lia|]. cbn [unescape_fuel].
      rewrite (strip_entity_plain c _ E). f_equal. apply IH. lia.
Qed.

(** X1. The escaping can be undone: decoding the entities of
    [htmlspecialchars str] gives [str] back, so two different names never
    get the same escaped text. *)
Theorem htmlspecialchars_unescape :
  (forall str, unescape (htmlspecialchars str) = str) /\
  (forall a b, htmlspecialchars a = htmlspecialchars b -> a = b).
Proof.
  assert (U : forall str, unescape (htmlspecialchars str) = str).
  { intros str. unfold unescape. rewrite htmlspecialchars_replace.
    by apply unescape_fuel_replace. }
  split; [exact U|]. intros a b E. by rewrite <- (U a), <- (U b), E.
Qed.

(** X2. [htmlspecialchars] works character by character: the escaped
    text of a concatenation is the concatenation of the escaped texts;
    it is at least as long as the input and at most six times as long;
    and a text without any of the five characters is returned as it
    is. *)
Theorem htmlspecialchars_pieces (a b : string) :
  htmlspecialchars (a +:+ b) = htmlspecialchars a +:+ htmlspecialchars b /\
  (String.length a <= String.length (htmlspecialchars a) <= 6 * String.length a)%nat /\
  (Forall (fun c => is_meta c = false) (list_ascii_of_string a) ->
   htmlspecialchars a = a).
Proof.
  rewrite !htmlspecialchars_replace. split; [apply replace_entities_app|].
  split; [apply replace_entities_length | apply replace_entities_plain].
Qed.

(** X2 at a concrete text without metacharacters. *)
Lemma htmlspecialchars_pieces_witness : htmlspecialchars "Ann Lee" = "Ann Lee".
Proof.
  apply (proj2 (proj2 (htmlspecialchars_pieces "Ann Lee" ""))).
  repeat constructor.
Defined.

End HtmlMore.

(* ===================================================================== *)
(** * Further properties: the score board *)
(* ===================================================================== *)

Section ScoreBoardMore.
Context {Card Deck : Type} `{CardOps Card}.

#[local] Abbreviation Session := (Session Card Deck).

Lemma sb_emplace_NoDup (uid : Z) (sc : Score) (sb : ScoreBoard) :
  NoDup sb.*1 -> NoDup (sb_emplace uid sc sb).*1.
Proof.
  intros N. unfold sb_emplace. destruct (sb_find uid sb) eqn:E; [done|].
  rewrite fmap_app. apply NoDup_app. split; [done|]. split.
  - intros k Hk Hin. apply list_elem_of_singleton in Hin as ->.
    by apply sb_find_None_keys in E.
  - apply NoDup_singleton.
Qed.

Lemma restore_scores_NoDup (items : list json) (sb : ScoreBoard) :
  NoDup sb.*1 -> NoDup (restore_scores items sb).*1.
Proof.
  revert sb. induction items as [|so items IH]; intros sb N; simpl; [done|].
  destruct (score_of_json so) as [[uid sc]|]; [|by apply IH].
  apply IH. by apply sb_emplace_NoDup.
Qed.

Lemma answer_scores (msg : Message) (s : Session) :
  scores_ (answer msg s).1 = scores_ s \/
  scores_ (answer msg s).1 =
    sb_emplace (id (from msg))
      (mkScore 1 (full_name_of (from msg)) (username (from msg))) (scores_ s) \/
  scores_ (answer msg s).1 = sb_increment (id (from msg)) (scores_ s).
Proof.
  unfold answer. destruct (current_card_ s); [|by left].
  destruct (card_answer _ _); [|by left]. simpl.
  destruct (sb_find _ _); simpl; auto.
Qed.

Lemma sb_find_elem_of (uid : Z) (sc : Score) (sb : ScoreBoard) :
  NoDup sb.*1 -> ((uid, sc) ∈ sb <-> sb_find uid sb = Some sc).
Proof.
  induction sb as [|[k x] sb IH].
  - intros _. split; [intros Hin; by apply elem_of_nil in Hin | done].
  - rewrite fmap_cons. intros N. apply NoDup_cons in N as [Hk N]. simpl in Hk.
    cbn [sb_find].
    rewrite elem_of_cons. destruct (decide (k = uid)) as [->|Hne].
    + split.
      * intros [[= ->]|Hin]; [done|]. exfalso. apply Hk.
        apply list_elem_of_fmap. by exists (uid, sc).
      * intros [= ->]. by left.
    + rewrite <- (IH N). split; [intros [[= ? ?]|?]; done | by right].
Qed.

(** X3. The score board never holds two entries for one participant:
    [Session::answer] and the loop that restores the scores of a snapshot
    keep the ids on the board distinct.  On such a board an entry is
    what a lookup of its id finds. *)
Theorem scoreboard_distinct_ids :
  (forall (msg : Message) (s : Session),
     NoDup (scores_ s).*1 -> NoDup (scores_ (answer msg s).1).*1) /\
  (forall items sb, NoDup sb.*1 -> NoDup (restore_scores items sb).*1) /\
  (forall sb uid sc, NoDup sb.*1 -> ((uid, sc) ∈ sb <-> sb_find uid sb = Some sc)).
Proof.
  split; [|split].
  - intros msg s N. destruct (answer_scores msg s) as [-> | [-> | ->]]; [done| |].
    + by apply sb_emplace_NoDup.
    + by rewrite sb_increment_keys.
  - apply restore_scores_NoDup.
  - intros sb uid sc. apply sb_find_elem_of.
Qed.

Lemma total_points_app (a b : ScoreBoard) :
  total_points (a ++ b) = total_points a + total_points b.
Proof.
  unfold total_points. induction a as [|e a IH]; simpl; [done|].
  rewrite IH. lia.
Qed.

Lemma total_points_increment (uid : Z) (old : Score) (sb : ScoreBoard) :
  sb_find uid sb = Some old ->
  Forall (fun e => 0 <= point_ e.2 < 2 ^ 32 - 1) sb ->
  total_points (sb_increment uid sb) = total_points sb + 1.
Proof.
  induction sb as [|[k sc] sb IH]; simpl; [done|].
  intros E F. apply Forall_cons in F as [Hp F]. simpl in Hp.
  destruct (decide (k = uid)) as [->|Hne].
  - injection E as ->. unfold total_points. simpl.
    rewrite uint32_small by lia. lia.
  - unfold total_points in *. simpl. rewrite (IH E F). lia.
Qed.

(** What one call of [answer] does to the messages, the card and the sum
    of the points. *)
Lemma answer_outcome (msg : Message) (s : Session) :
  answer msg s = (s, []) \/
  exists reply,
    (answer msg s).2 = [reply] /\ current_card_ (answer msg s).1 = None /\
    (Forall (fun e => 0 <= point_ e.2 < 2 ^ 32 - 1) (scores_ s) ->
     total_points (scores_ (answer msg s).1) = total_points (scores_ s) + 1).
Proof.
  unfold answer. destruct (current_card_ s) as [card|]; [|by left].
  destruct (card_answer card (text msg)); [|by left]. right. simpl.
  destruct (sb_find (id (from msg)) (scores_ s)) as [old|] eqn:E; simpl.
  - eexists. split; [done|]. split; [done|]. by apply (total_points_increment _ old).
  - eexists. split; [done|]. split; [done|]. intros _.
    rewrite (sb_emplace_new _ _ _ E), total_points_app. unfold total_points. simpl. lia.
Qed.

(** X4. However many replies come in while one card is shown, at most
    one of them is accepted: [answer] sends at most one message, changes
    nothing when it sends none, and (while no point is at the largest
    [uint32_t] value) raises the sum of all points by exactly the number
    of messages it sent. *)
Theorem answers_at_most_one_point (msgs : list Message) (s : Session) :
  (length (answers msgs s).2 <= 1)%nat /\
  ((answers msgs s).2 = [] -> (answers msgs s).1 = s) /\
  (Forall (fun e => 0 <= point_ e.2 < 2 ^ 32 - 1) (scores_ s) ->
   total_points (scores_ (answers msgs s).1) =
   total_points (scores_ s) + Z.of_nat (length (answers msgs s).2)).
Proof.
  induction msgs as [|m msgs IH]; simpl.
  - split; [lia|]. split; [done|]. intros _. lia.
  - destruct (answer_outcome m s) as [E | (reply & Hr & Hc & Ht)].
    + rewrite E. destruct (answers msgs s) as [s2 calls2]. simpl in *. exact IH.
    + destruct (answer m s) as [s1 calls1]. simpl in *. subst calls1.
      rewrite (answers_no_card msgs s1 Hc). simpl.
      split; [lia|]. split; [done|]. intros F. rewrite (Ht F). lia.
Qed.

End ScoreBoardMore.

(* ===================================================================== *)
(** * Further properties: the registry *)
(* ===================================================================== *)

Section RegistryMore.
Context {Card Deck : Type} `{CardOps Card} `{DeckOps Card Deck} `{SessionDefaults}
  `{JsonCodec}.

#[local] Abbreviation Session := (Session Card Deck).
#[local] Abbreviation World := (World Card Deck).

Lemma set_ref_count_same (s : Session) : set_ref_count (ref_count_ s) s = s.
Proof. by destruct s. Qed.

Lemma ref_count_set (r : Z) (s : Session) : ref_count_ (set_ref_count r s) = r.
Proof. reflexivity. Qed.

Lemma world_eta (w : World) :
  mkWorld (g_sessions w) (heap w) (storage w) (outbox w) (workers w) = w.
Proof. by destruct w. Qed.

Lemma getSession_mapped (chat_id : Z) (w : World) (p : addr) :
  g_sessions w !! chat_id = Some p ->
  getSession chat_id w =
  (Some p, update p (fun s => set_ref_count (ref_count_ s + 1) s) w).
Proof. intros G. unfold getSession. by rewrite G. Qed.

(** X5. Taking a reference and giving it back leaves the whole state as
    it was, provided the session was referenced before; on a session with
    reference count 0 the same two calls free the object while the
    registry still points to it. *)
Theorem get_put_roundtrip (chat_id : Z) (w : World) (p : addr) (s : Session) :
  g_sessions w !! chat_id = Some p -> heap w !! p = Some s ->
  (getSession chat_id w).1 = Some p /\
  (ref_count_ s <> 0 -> putSession p (getSession chat_id w).2 = w) /\
  (ref_count_ s = 0 ->
     heap (putSession p (getSession chat_id w).2) !! p = None /\
     g_sessions (putSession p (getSession chat_id w).2) !! chat_id = Some p).
Proof.
  intros G Hp. rewrite (getSession_mapped _ _ _ G). simpl. split; [done|].
  unfold putSession, release, update. simpl. rewrite lookup_alter_eq, Hp. simpl.
  split.
  - intros Hr. rewrite decide_False by lia. unfold update, set_heap. simpl.
    assert (Eh : alter (set_ref_count (ref_count_ s + 1 - 1)) p
                   (alter (fun x => set_ref_count (ref_count_ x + 1) x) p (heap w))
                 = heap w).
    2:{ rewrite Eh. apply world_eta. }
    apply map_eq. intros q.
    destruct (decide (p = q)) as [<-|Hne]; [|by rewrite !lookup_alter_ne].
    rewrite !lookup_alter_eq, Hp. simpl. f_equal. destruct s; unfold set_ref_count; simpl. f_equal. lia.
  - intros Hr. rewrite decide_True by lia. simpl.
    split; [apply lookup_delete_eq | done].
Qed.

Lemma answer_set_ref_count (msg : Message) (r : Z) (s : Session) :
  answer msg (set_ref_count r s) =
  (set_ref_count r (answer msg s).1, (answer msg s).2).
Proof.
  unfold answer. simpl. destruct (current_card_ s); [|done].
  destruct (card_answer _ _); [|done]. simpl.
  by destruct (sb_find _ _).
Qed.

Lemma answer_ref_count (msg : Message) (s : Session) :
  ref_count_ (answer msg s).1 = ref_count_ s.
Proof.
  unfold answer. destruct (current_card_ s); [|done].
  destruct (card_answer _ _); [|done]. simpl. by destruct (sb_find _ _).
Qed.

Lemma entry_answers (msg : Message) (w : World) (p : addr) (s : Session) :
  g_sessions w !! chat msg = Some p -> heap w !! p = Some s ->
  ref_count_ s <> 0 ->
  entry msg w = Some (send (answer msg s).2 (store p (answer msg s).1 w)).
Proof.
  intros G Hp Hr.
  unfold entry. rewrite (getSession_mapped _ _ _ G).
  unfold update at 1. simpl. rewrite lookup_alter_eq, Hp. simpl.
  rewrite answer_set_ref_count. simpl.
  unfold putSession, release. simpl. rewrite lookup_insert_eq.
  rewrite !ref_count_set. rewrite decide_False by lia.
  unfold update, send, store, set_heap. simpl. f_equal. f_equal.
  rewrite alter_insert_eq, insert_alter_eq. f_equal.
  destruct (answer msg s) as [s1 calls] eqn:Ea. simpl.
  pose proof (answer_ref_count msg s) as Hrc. rewrite Ea in Hrc. simpl in Hrc.
  destruct s1; unfold set_ref_count; simpl in *. f_equal. lia.
Qed.

(** X6. A message that comes in for a chat with a session has exactly the
    effect of [Session::answer] on that session: the session is replaced
    by the one [answer] returns, its messages are sent, and the reference
    taken for the call is given back, so that nothing else changes.  In
    particular a message that is not an accepted answer leaves the whole
    state as it was. *)
Theorem entry_effect (msg : Message) (w : World) (p : addr) (s : Session) :
  g_sessions w !! chat msg = Some p -> heap w !! p = Some s ->
  ref_count_ s <> 0 ->
  entry msg w = Some (send (answer msg s).2 (store p (answer msg s).1 w)) /\
  (answer msg s = (s, []) -> entry msg w = Some w).
Proof.
  intros G Hp Hr.
  pose proof (entry_answers msg w p s G Hp Hr) as E.
  split; [exact E|]. intros Ea. rewrite E, Ea. simpl.
  unfold send, store, set_heap. simpl. rewrite app_nil_r.
  rewrite insert_id by done. by rewrite world_eta.
Qed.

(** X7. After a session has been created for a chat, every further
    [createSession] for that chat fails and changes nothing, a lookup of
    the chat returns the session created, and the sessions and registry
    entries that were there before are untouched. *)
Theorem createSession_once (chat_id : Z) (deck_name : string) (w w1 : World)
    (p : addr) :
  createSession chat_id deck_name w = (Some p, w1) ->
  (forall deck_name', createSession chat_id deck_name' w1 = (None, w1)) /\
  (getSession chat_id w1).1 = Some p /\
  (forall c, c <> chat_id -> g_sessions w1 !! c = g_sessions w !! c) /\
  (forall q s, heap w !! q = Some s -> heap w1 !! q = Some s).
Proof.
  intros E.
  destruct (createSession_cases chat_id deck_name w) as [E' | (d & G & D & E')];
    rewrite E' in E; [done|]. injection E as <- <-.
  split; [|split; [|split]].
  - intros dn'. apply createSession_mapped. simpl. rewrite lookup_insert_eq. eauto.
  - unfold getSession. simpl. by rewrite lookup_insert_eq.
  - intros c Hc. simpl. by rewrite lookup_insert_ne.
  - intros q s Hq. simpl. rewrite lookup_insert_ne; [done|].
    intros <-. by rewrite fresh_unallocated in Hq.
Qed.

(** X8. [deleteSession] for a chat without session changes nothing, and
    doing it twice is the same as doing it once.  After it the chat can
    get a new session, which is a new object: a session that was
    registered before stays allocated beside it. *)
Theorem deleteSession_then_create (chat_id : Z) (w : World) :
  (g_sessions w !! chat_id = None -> deleteSession chat_id w = w) /\
  deleteSession chat_id (deleteSession chat_id w) = deleteSession chat_id w /\
  (forall deck_name d, createDeck deck_name = Some d ->
     exists p' w',
       createSession chat_id deck_name (deleteSession chat_id w) = (Some p', w') /\
       heap w !! p' = None /\
       forall q s, heap w !! q = Some s -> heap w' !! q = Some s).
Proof.
  split; [|split].
  - intros G. unfold deleteSession. by rewrite G.
  - unfold deleteSession at 1. rewrite deleteSession_registry, lookup_delete_eq. done.
  - intros dn d D.
    assert (G : g_sessions (deleteSession chat_id w) !! chat_id = None)
      by (rewrite deleteSession_registry; apply lookup_delete_eq).
    rewrite (createSession_success _ _ _ d G D).
    rewrite (proj1 (deleteSession_rest chat_id w)).
    eexists _, _. split; [done|]. split; [apply fresh_unallocated|].
    intros q s Hq. simpl. rewrite lookup_insert_ne; [done|].
    intros <-. by rewrite fresh_unallocated in Hq.
Qed.

End RegistryMore.

(* ===================================================================== *)
(** * Further properties: snapshots and the recovery scan *)
(* ===================================================================== *)

Section PersistenceMore.
Context {Card Deck : Type} `{CardOps Card} `{DeckOps Card Deck} `{SessionDefaults}
  `{JsonCodec}.

#[local] Abbreviation Session := (Session Card Deck).
#[local] Abbreviation World := (World Card Deck).

Lemma serializeSessions_skipped (fopen_ok : bool) (written flushed : nat) (key : Z) (w : World) :
  g_sessions w !! key = None \/ fopen_ok = false ->
  serializeSessions fopen_ok written flushed key w = w.
Proof.
  unfold serializeSessions. intros [G | ->].
  - by rewrite G.
  - by repeat case_match.
Qed.

Lemma serializeSessions_other_files (fopen_ok : bool) (written flushed : nat) (key : Z)
    (w : World) (name : string) :
  name <> snapshot_name key ->
  storage (serializeSessions fopen_ok written flushed key w) !! name = storage w !! name.
Proof.
  intros Hn. unfold serializeSessions. repeat case_match; simpl; try done.
  - by rewrite lookup_insert_ne.
  - rewrite lookup_delete_ne by done. by rewrite lookup_insert_ne.
Qed.

Lemma serializeSessions_twice (fopen_ok : bool) (written flushed : nat) (key : Z) (w : World) :
  serializeSessions fopen_ok written flushed key (serializeSessions fopen_ok written flushed key w)
  = serializeSessions fopen_ok written flushed key w.
Proof.
  destruct (g_sessions w !! key) as [p|] eqn:G.
  2:{ by rewrite !(serializeSessions_skipped _ _ _ _ w) by auto. }
  destruct fopen_ok.
  2:{ by rewrite !(serializeSessions_skipped _ _ _ _ w) by auto. }
  destruct (heap w !! p) as [s|] eqn:Hp.
  2:{ assert (E : serializeSessions true written flushed key w = w)
        by (unfold serializeSessions; by rewrite G, Hp).
      by rewrite !E. }
  rewrite (serializeSessions_opened written flushed key w p s G Hp).
  rewrite (serializeSessions_opened written flushed key _ p s) by done.
  unfold set_storage. simpl.
  destruct (decide _); f_equal; [apply insert_insert_eq | apply delete_delete_eq].
Qed.

(** X9. A checkpoint touches the snapshot file of its key and nothing
    else; for a key without session, or when the file cannot be opened,
    it changes nothing at all (an older snapshot stays as it is); and
    writing it again gives the same state. *)
Theorem serializeSessions_frame (fopen_ok : bool) (written flushed : nat) (key : Z)
    (w : World) :
  g_sessions (serializeSessions fopen_ok written flushed key w) = g_sessions w /\
  heap (serializeSessions fopen_ok written flushed key w) = heap w /\
  outbox (serializeSessions fopen_ok written flushed key w) = outbox w /\
  workers (serializeSessions fopen_ok written flushed key w) = workers w /\
  (forall name, name <> snapshot_name key ->
     storage (serializeSessions fopen_ok written flushed key w) !! name = storage w !! name) /\
  (g_sessions w !! key = None \/ fopen_ok = false ->
     serializeSessions fopen_ok written flushed key w = w) /\
  serializeSessions fopen_ok written flushed key (serializeSessions fopen_ok written flushed key w)
    = serializeSessions fopen_ok written flushed key w.
Proof.
  destruct (serializeSessions_fields fopen_ok written flushed key w) as (G & Hh & O & T).
  repeat (split; [done|]).
  split; [intros name; apply serializeSessions_other_files|].
  split; [apply serializeSessions_skipped | apply serializeSessions_twice].
Qed.

Lemma append_inj_r (a b t : string) : a +:+ t = b +:+ t -> a = b.
Proof.
  revert b. induction a as [|c a IH]; intros [|d b] E.
  - done.
  - exfalso. apply (f_equal String.length) in E.
    rewrite !length_append in E. simpl in E. lia.
  - exfalso. apply (f_equal String.length) in E.
    rewrite !length_append in E. simpl in E. lia.
  - rewrite !append_cons in E. injection E as -> E. f_equal. by apply IH.
Qed.

Lemma snapshot_name_inj (k1 k2 : Z) : snapshot_name k1 = snapshot_name k2 -> k1 = k2.
Proof.
  unfold snapshot_name, to_string. intros E.
  apply (inj (String.app "s_")) in E. apply append_inj_r in E.
  by apply (inj pretty) in E.
Qed.

(** X10. The file name of a snapshot determines its chat id: two chats
    never share a snapshot file, so the checkpoint of one chat leaves the
    snapshot of every other chat alone; and every such name is one that
    the recovery scan looks at. *)
Theorem snapshot_names_distinct :
  (forall k1 k2, snapshot_name k1 = snapshot_name k2 -> k1 = k2) /\
  (forall k, is_snapshot_name (snapshot_name k) = true) /\
  (forall fopen_ok written flushed k1 k2 (w : World), k1 <> k2 ->
     storage (serializeSessions fopen_ok written flushed k1 w) !! snapshot_name k2
     = storage w !! snapshot_name k2).
Proof.
  split; [apply snapshot_name_inj|]. split; [done|].
  intros fopen_ok written flushed k1 k2 w Hk. apply serializeSessions_other_files.
  intros E. apply Hk. by apply snapshot_name_inj.
Qed.

Lemma restore_scores_omap (items : list json) (sb : ScoreBoard) :
  restore_scores items sb =
  fold_left (fun acc e => sb_emplace e.1 e.2 acc) (omap score_of_json items) sb.
Proof.
  revert sb. induction items as [|so items IH]; intros sb; [done|].
  cbn [restore_scores omap list_omap]. destruct (score_of_json so) as [[uid sc]|]; simpl; apply IH.
Qed.

(** X11. The scores of a snapshot are restored element by element: an
    element that is not an object with an integer [user_id], string
    [full_name] and [username] and an integer [point] is passed over
    without effect on the others; an id that is already on the board
    keeps its score, so of several elements with one id the first
    counts. *)
Theorem restore_scores_spec (items : list json) (sb : ScoreBoard) :
  restore_scores items sb =
    fold_left (fun acc e => sb_emplace e.1 e.2 acc) (omap score_of_json items) sb /\
  (forall uid,
     sb_find uid (restore_scores items sb) =
     match sb_find uid sb with
     | Some sc => Some sc
     | None => sb_find uid (omap score_of_json items)
     end) /\
  (forall so a b, items = a ++ so :: b -> score_of_json so = None ->
     restore_scores items sb = restore_scores (a ++ b) sb).
Proof.
  split; [apply restore_scores_omap|]. split.
  - intros uid. rewrite restore_scores_omap. apply sb_find_emplace_all.
  - intros so a b -> E. rewrite !restore_scores_omap, !omap_app. simpl.
    by rewrite E.
Qed.

Lemma initSessionFromJson_mapped (spawn_error : option string) (j : json) (w : World)
    (c : Z) (dn : string) (items : list json) :
  snapshot_fields j = Some (c, dn, items) -> is_Some (g_sessions w !! c) ->
  initSessionFromJson spawn_error j w = w.
Proof.
  intros F G. unfold initSessionFromJson. rewrite F.
  by rewrite (createSession_mapped c dn w G).
Qed.

Lemma init_entry_settled (spawn_error : string -> option string) (w w0 : World)
    (n : string) :
  storage w0 = storage w ->
  (forall c dn items, snapshot_of w n = Some (c, dn, items) ->
     is_Some (createDeck dn) -> is_Some (g_sessions w0 !! c)) ->
  init_entry spawn_error w0 n = w0.
Proof.
  intros St Hreg. unfold init_entry, load_str_from_file.
  unfold snapshot_of in Hreg. rewrite St.
  destruct (is_snapshot_name n); [|done].
  destruct (storage w !! n) as [txt|]; [|done].
  destruct (parse (c_str txt)) as [j|]; [|done].
  destruct (snapshot_fields j) as [[[c dn] items]|] eqn:F.
  - destruct (createDeck dn) as [d|] eqn:D.
    + apply (initSessionFromJson_mapped _ _ _ c dn items F). by eapply Hreg.
    + unfold initSessionFromJson. rewrite F.
      by rewrite (createSession_deck_fails c dn w0 D).
  - unfold initSessionFromJson. by rewrite F.
Qed.

Lemma init_settled (spawn_error : string -> option string) (listing : list string)
    (w w0 : World) :
  storage w0 = storage w ->
  (forall n c dn items, n ∈ listing -> snapshot_of w n = Some (c, dn, items) ->
     is_Some (createDeck dn) -> is_Some (g_sessions w0 !! c)) ->
  init spawn_error listing w0 = w0.
Proof.
  intros St. unfold init. induction listing as [|n l IH]; intros Hreg; simpl; [done|].
  rewrite (init_entry_settled spawn_error w w0 n St).
  - apply IH. intros n' c dn items Hin. apply Hreg. by apply list_elem_of_further.
  - intros c dn items. apply Hreg. apply list_elem_of_here.
Qed.

(** X12. The recovery scan never replaces a session that is there: a
    snapshot whose chat id has a session is read without any effect.  So
    scanning the same directory a second time changes nothing. *)
Theorem init_idempotent (spawn_error spawn_error' : string -> option string)
    (listing : list string) (w : World) :
  (forall e j (w0 : World) c dn items,
     snapshot_fields j = Some (c, dn, items) -> is_Some (g_sessions w0 !! c) ->
     initSessionFromJson e j w0 = w0) /\
  init spawn_error' listing (init spawn_error listing w) = init spawn_error listing w.
Proof.
  split; [intros e j w0 c dn items; apply initSessionFromJson_mapped|].
  apply (init_settled _ _ w).
  - apply init_storage.
  - intros n c dn items. apply init_registers.
Qed.

Lemma initSessionFromJson_outbox (j : json) (w : World) :
  outbox (initSessionFromJson None j w) = outbox w.
Proof.
  unfold initSessionFromJson. destruct (snapshot_fields j) as [[[c dn] items]|]; [|done].
  by destruct (createSession_cases c dn w) as [-> | (d & _ & _ & ->)].
Qed.

Lemma init_outbox (spawn_error : string -> option string) (listing : list string)
    (w : World) :
  (forall n, spawn_error n = None) ->
  outbox (init spawn_error listing w) = outbox w.
Proof.
  intros Hs. unfold init. revert w. induction listing as [|n l IH]; intros w; simpl; [done|].
  rewrite IH. unfold init_entry, load_str_from_file.
  destruct (is_snapshot_name n); [|done].
  destruct (storage w !! n) as [txt|]; [|done].
  destruct (parse (c_str txt)) as [j|]; [|done].
  rewrite Hs. apply initSessionFromJson_outbox.
Qed.

(** X13. The recovery scan writes and removes no file, keeps every
    session that is registered, with its state, under its chat id, and
    sends no message when all worker threads can be started. *)
Theorem init_frame (spawn_error : string -> option string) (listing : list string)
    (w : World) :
  storage (init spawn_error listing w) = storage w /\
  (forall k p s, g_sessions w !! k = Some p -> heap w !! p = Some s ->
     g_sessions (init spawn_error listing w) !! k = Some p /\
     heap (init spawn_error listing w) !! p = Some s) /\
  ((forall n, spawn_error n = None) ->
   outbox (init spawn_error listing w) = outbox w).
Proof.
  split; [apply init_storage|]. split; [|apply init_outbox].
  intros k p s. apply init_preserves.
Qed.

End PersistenceMore.

(* ===================================================================== *)
(** * Further properties: the worker *)
(* ===================================================================== *)

Section WorkerMore.
Context {Card Deck : Type} `{CardOps Card} `{DeckOps Card Deck} `{SessionDefaults}
  `{JsonCodec}.

#[local] Abbreviation Session := (Session Card Deck).
#[local] Abbreviation World := (World Card Deck).

Lemma worker_step_await_timeout (this : addr) (w : World) (s : Session) (card : Card) :
  workers w !! this = Some PAwait -> heap w !! this = Some s ->
  current_card_ s = Some card ->
  worker_step this (LWake timeout) w =
  Some (goto (after_await s) this
          (send [sendMessage (chat_id_ s)
                   ("Time's up!" +:+ nl +:+ nl +:+ getAnswerInfo card)
                   false (last_msg_id_ s) ""]
             (store this (set_cond false (set_current_card None s)) w))).
Proof.
  intros Epc Es Ec. unfold worker_step, sendFailMessage. by rewrite Epc, Es, Ec.
Qed.

Lemma worker_step_await_notified (this : addr) (w : World) (s : Session) :
  workers w !! this = Some PAwait -> heap w !! this = Some s -> cond_ s = true ->
  worker_step this (LWake no_timeout) w =
  Some (goto (after_await s) this (store this (set_cond false s) w)).
Proof. intros Epc Es Ec. unfold worker_step. by rewrite Epc, Es, Ec. Qed.


Lemma worker_step_save (this : addr) (fopen_ok : bool) (written flushed : nat) (w : World)
    (s : Session) :
  workers w !! this = Some PSave -> heap w !! this = Some s ->
  worker_step this (LSave fopen_ok written flushed) w =
  Some (goto PLoop this (serializeSessions fopen_ok written flushed (chat_id_ s) w)).
Proof. intros Epc Es. unfold worker_step. by rewrite Epc, Es. Qed.

Lemma worker_step_loop_stop (this : addr) (url : option string) (photo : option Z)
    (w : World) (s : Session) :
  workers w !! this = Some PLoop -> heap w !! this = Some s ->
  should_stop_ s = true ->
  worker_step this (LCard url photo) w = Some (goto PFinish this w).
Proof. intros Epc Es E. unfold worker_step. by rewrite Epc, Es, E. Qed.

Lemma after_await_stopped (s : Session) :
  should_stop_ s = true -> after_await s = PSave.
Proof. intros E. unfold after_await. rewrite E. by destruct (isFinished (deck_ s)). Qed.

(** The wait for an answer running out in any state in which a card is
    shown. *)
Lemma await_timeout_effect (this : addr) (w : World) (s : Session) (card : Card) :
  workers w !! this = Some PAwait -> heap w !! this = Some s ->
  current_card_ s = Some card ->
  exists w' s',
    worker_step this (LWake timeout) w = Some w' /\
    outbox w' =
      outbox w ++ [sendMessage (chat_id_ s)
                     ("Time's up!" +:+ nl +:+ nl +:+ getAnswerInfo card)
                     false (last_msg_id_ s) ""] /\
    heap w' !! this = Some s' /\
    current_card_ s' = None /\ scores_ s' = scores_ s /\ deck_ s' = deck_ s /\
    ref_count_ s' = ref_count_ s /\
    g_sessions w' = g_sessions w /\ storage w' = storage w /\
    workers w' !! this =
      Some (if negb (isFinished (deck_ s)) && negb (should_stop_ s)
            then PDelay else PSave).
Proof.
  intros Epc Es Ec. eexists _, _.
  split; [by apply worker_step_await_timeout|]. simpl.
  rewrite !lookup_insert_eq. done.
Qed.

(** X15. A stop that is asked while a card is shown ends the session
    without a further card: the worker wakes up, writes the checkpoint
    without pausing, draws nothing more, and finishes by sending the
    notice that the game is stopped, with the answer of the open card,
    and then the summary. *)
Theorem stop_path (this : addr) (w : World) (s : Session) (card : Card)
    (fopen_ok : bool) (written flushed : nat) (url : option string) (photo : option Z)
    (ranking : list (Z * Score)) :
  workers w !! this = Some PAwait -> heap w !! this = Some s ->
  current_card_ s = Some card ->
  std_sort_result by_point (scores_ s) ranking ->
  exists w' s',
    worker_run this [LWake no_timeout; LSave fopen_ok written flushed; LCard url photo;
                     LFinish ranking] (call this stop w) = Some w' /\
    outbox w' =
      outbox w ++
      [sendMessage (chat_id_ s)
         ("Game is stopped!" +:+ nl +:+ nl +:+ getAnswerInfo card)
         false (last_msg_id_ s) "";
       sendMessage (chat_id_ s) (finish_text ranking) true 0 "HTML"] /\
    heap w' !! this = Some s' /\
    deck_ s' = deck_ s /\ scores_ s' = scores_ s /\
    workers w' !! this = Some PDeregister.
Proof.
  intros Epc Es Ec R.
  set (s1 := set_cond false (stop s)).
  assert (E0 : heap (call this stop w) !! this = Some (stop s)).
  { unfold call, update. simpl. by rewrite lookup_alter_eq, Es. }
  set (w1 := goto PSave this (store this s1 (call this stop w))).
  set (w2 := goto PLoop this (serializeSessions fopen_ok written flushed (chat_id_ s1) w1)).
  set (w3 := goto PFinish this w2).
  destruct (serializeSessions_fields fopen_ok written flushed (chat_id_ s1) w1)
    as (G1 & H1' & O1 & T1).
  assert (Hw1 : heap w1 !! this = Some s1) by apply lookup_insert_eq.
  assert (Pw1 : workers w1 !! this = Some PSave) by apply lookup_insert_eq.
  assert (Hw2 : heap w2 !! this = Some s1).
  { change (heap w2) with (heap (serializeSessions fopen_ok written flushed (chat_id_ s1) w1)).
    by rewrite H1'. }
  assert (Pw2 : workers w2 !! this = Some PLoop) by apply lookup_insert_eq.
  assert (Hw3 : heap w3 !! this = Some s1) by exact Hw2.
  assert (Pw3 : workers w3 !! this = Some PFinish) by apply lookup_insert_eq.
  assert (R1 : worker_step this (LWake no_timeout) (call this stop w) = Some w1).
  { rewrite (worker_step_await_notified this _ (stop s)) by done.
    by rewrite after_await_stopped. }
  assert (R2 : worker_step this (LSave fopen_ok written flushed) w1 = Some w2)
    by (by apply (worker_step_save this fopen_ok written flushed w1 s1)).
  assert (R3 : worker_step this (LCard url photo) w2 = Some w3)
    by (by apply (worker_step_loop_stop this url photo w2 s1)).
  cbn [worker_run]. rewrite R1, R2, R3.
  rewrite (worker_step_finish this ranking w3 s1) by done.
  unfold sendFinishMessage, sendFailMessage. rewrite decide_True by done.
  change (current_card_ s1) with (current_card_ s). rewrite Ec.
  eexists _, s1. split; [reflexivity|].
  split.
  { change (outbox (serializeSessions fopen_ok written flushed (chat_id_ s1) w1)
            ++ [sendMessage (chat_id_ s)
                  ("Game is stopped!" +:+ nl +:+ nl +:+ getAnswerInfo card)
                  false (last_msg_id_ s) "";
                sendMessage (chat_id_ s) (finish_text ranking) true 0 "HTML"] = 
            outbox w ++ [sendMessage (chat_id_ s)
                  ("Game is stopped!" +:+ nl +:+ nl +:+ getAnswerInfo card)
                  false (last_msg_id_ s) "";
                sendMessage (chat_id_ s) (finish_text ranking) true 0 "HTML"]).
    by rewrite O1. }
  split; [exact Hw3|].
  split; [done|]. split; [done|]. apply lookup_insert_eq.
Qed.

End WorkerMore.

Section WorkerMore2.
Context {Card Deck : Type} `{CardOps Card} `{DeckOps Card Deck} `{SessionDefaults}
  `{JsonCodec}.

#[local] Abbreviation Session := (Session Card Deck).
#[local] Abbreviation World := (World Card Deck).



(** How each step of the worker changes the reference count of its
    session. *)
Lemma worker_step_ref (this : addr) (l : Label) (w w' : World) (pc : PC) (s : Session) :
  worker_step this l w = Some w' ->
  workers w !! this = Some pc -> heap w !! this = Some s ->
  (pc = PStart /\ workers w' !! this = Some PLoop /\
   exists s', heap w' !! this = Some s' /\ ref_count_ s' = ref_count_ s + 1) \/
  (pc = PRelease /\ w' = goto PDone this (release this w)) \/
  (pc <> PStart /\ pc <> PRelease /\ pc <> PDone /\
   (exists pc', workers w' !! this = Some pc' /\ pc' <> PStart /\ pc' <> PDone) /\
   exists s', heap w' !! this = Some s' /\ ref_count_ s' = ref_count_ s).
Proof.
  unfold worker_step. intros Hs Epc Es. rewrite Epc, Es in Hs.
  destruct pc, l; try done; repeat case_match; simplify_eq/=.
  all: try (left; split; [done|]; rewrite !lookup_insert_eq; split; [done|];
            eexists; split; [done|]; done).
  all: try (right; left; done).
  all: right; right; repeat (split; [done|]).
  all: rewrite ?(proj1 (proj2 (serializeSessions_fields _ _ _ _ _))),
         ?(proj1 (deleteSession_rest _ _)), ?lookup_insert_eq.
  all: split;
    [eexists; split; [reflexivity|];
     try (match goal with |- after_await ?x <> _ /\ _ =>
            destruct (after_await_cases x) as [-> | ->] end); done|].
  all: try (eexists; split; [done|]; done).
  all: match goal with
       | Hc : sendCard _ _ _ _ = _ |- _ =>
           apply sendCard_keeps in Hc as (_ & Hc2 & _);
           eexists; split; [done|]; by rewrite Hc2
       end.
Qed.

Lemma worker_step_ref_inv (this : addr) (r0 : Z) (l : Label) (w w' : World) :
  r0 <> 0 -> worker_step this l w = Some w' ->
  ref_inv this r0 w -> ref_inv this r0 w'.
Proof.
  intros Hr Hs (pc & Epc & I).
  assert (Es : exists s, heap w !! this = Some s).
  { destruct pc; destruct I as (s & Es & _); eauto. }
  destruct Es as [s Es].
  destruct (worker_step_ref this l w w' pc s Hs Epc Es)
    as [(-> & P' & s' & Es' & Hrc) | [(-> & ->) | (N1 & N2 & N3 & (pc' & P' & M1 & M2) & s' & Es' & Hrc)]].
  - exists PLoop. split; [done|]. destruct I as (s0 & E0 & R0).
    rewrite Es in E0. injection E0 as <-. exists s'. split; [done|]. lia.
  - exists PDone. split; [apply lookup_insert_eq|].
    destruct I as (s0 & E0 & R0). rewrite Es in E0. injection E0 as <-.
    exists (set_ref_count (ref_count_ s - 1) s). split; [|simpl; lia].
    simpl. unfold release. rewrite Es. rewrite decide_False by lia.
    simpl. by rewrite lookup_alter_eq, Es.
  - exists pc'. split; [done|].
    assert (R : ref_count_ s = r0 + 1).
    { destruct pc; try done; destruct I as (s0 & E0 & R0);
        rewrite Es in E0; by injection E0 as <-. }
    destruct pc'; try done; exists s'; (split; [done|lia]).
Qed.

Lemma worker_run_ref_inv (this : addr) (r0 : Z) (ls : list Label) (w w' : World) :
  r0 <> 0 -> worker_run this ls w = Some w' ->
  ref_inv this r0 w -> ref_inv this r0 w'.
Proof.
  intros Hr. revert w. induction ls as [|l ls IH]; intros w; simpl.
  - by intros [= <-].
  - destruct (worker_step this l w) as [w1|] eqn:E; [|done].
    intros Hrun I. apply (IH w1 Hrun). by eapply worker_step_ref_inv.
Qed.

(** X17. The worker gives back exactly the reference it takes.  Through
    all its steps a session that was referenced when the worker started
    stays allocated, and when the worker has ended the reference count is
    what it was before the start.  A session that has count 1 when its
    worker starts, as [createSession] leaves it, is therefore not freed
    by the worker's last statement. *)
Theorem worker_reference_balance (this : addr) (ls : list Label) (w w' : World)
    (s : Session) :
  workers w !! this = Some PStart -> heap w !! this = Some s ->
  ref_count_ s <> 0 ->
  worker_run this ls w = Some w' ->
  exists s',
    heap w' !! this = Some s' /\
    ref_count_ s <= ref_count_ s' <= ref_count_ s + 1 /\
    (workers w' !! this = Some PDone -> ref_count_ s' = ref_count_ s).
Proof.
  intros Epc Es Hr Hrun.
  assert (I : ref_inv this (ref_count_ s) w).
  { exists PStart. split; [done|]. eauto. }
  destruct (worker_run_ref_inv this _ ls w w' Hr Hrun I) as (pc & Epc' & I').
  destruct pc; destruct I' as (s' & Es' & R'); exists s';
    (split; [done|]); (split; [lia|]); rewrite Epc'; intros [=]; done.
Qed.

Lemma worker_step_loop_card (this : addr) (url : option string) (photo : option Z)
    (w : World) (s : Session) (card : Card) (d : Deck) :
  workers w !! this = Some PLoop -> heap w !! this = Some s ->
  should_stop_ s = false -> isFinished (deck_ s) = false ->
  draw (deck_ s) = (Some card, d) ->
  worker_step this (LCard url photo) w =
  let s1 := set_current_card (Some card) (set_deck d s) in
  Some (goto (if (sendCard url photo card s1).2 then PAwait else PFinish) this
          (send (sendCard url photo card s1).1.1
             (store this (sendCard url photo card s1).1.2 w))).
Proof.
  intros Epc Es E1 E2 E3. unfold worker_step. rewrite Epc, Es, E1, E2, E3.
  simpl. by destruct (sendCard _ _ _ _) as [[calls s2] ok].
Qed.

(** X14. When nobody answers a card in time.  The worker draws the
    card and sends it as a photo; the id of that photo message is kept.
    When the wait for an answer runs out, the worker sends the time's-up
    notice with the card's answer as a reply to that photo message,
    clears the current card and awards no point; it then goes on to the
    pause between cards, or to the checkpoint when the card was the last
    of the deck. *)
Theorem timeout_path (this : addr) (w : World) (s : Session) (card : Card)
    (d : Deck) (u : string) (mid : Z) :
  workers w !! this = Some PLoop -> heap w !! this = Some s ->
  should_stop_ s = false -> isFinished (deck_ s) = false ->
  draw (deck_ s) = (Some card, d) ->
  exists w' s',
    worker_run this [LCard (Some u) (Some mid); LWake timeout] w = Some w' /\
    outbox w' =
      outbox w ++
      [sendPhoto (chat_id_ s) u
         (getQuestionInfo card +:+ nl +:+ nl +:+ "Timeout: "
          +:+ to_string (timeout_ s) +:+ " seconds") (last_msg_id_ s);
       sendMessage (chat_id_ s)
         ("Time's up!" +:+ nl +:+ nl +:+ getAnswerInfo card) false mid ""] /\
    heap w' !! this = Some s' /\
    current_card_ s' = None /\ scores_ s' = scores_ s /\ deck_ s' = d /\
    last_msg_id_ s' = mid /\ ref_count_ s' = ref_count_ s /\
    g_sessions w' = g_sessions w /\ storage w' = storage w /\
    workers w' !! this = Some (if isFinished d then PSave else PDelay).
Proof.
  intros Epc Es E1 E2 E3.
  set (s1 := set_last_msg_id mid (set_current_card (Some card) (set_deck d s))).
  set (w1 := goto PAwait this
               (send [sendPhoto (chat_id_ s) u
                        (getQuestionInfo card +:+ nl +:+ nl +:+ "Timeout: "
                         +:+ to_string (timeout_ s) +:+ " seconds") (last_msg_id_ s)]
                  (store this s1 w))).
  assert (R1 : worker_step this (LCard (Some u) (Some mid)) w = Some w1).
  { by rewrite (worker_step_loop_card this (Some u) (Some mid) w s card d). }
  assert (P1 : workers w1 !! this = Some PAwait) by apply lookup_insert_eq.
  assert (H1' : heap w1 !! this = Some s1) by apply lookup_insert_eq.
  cbn [worker_run]. rewrite R1.
  rewrite (worker_step_await_timeout this w1 s1 card P1 H1' eq_refl).
  eexists _, _. split; [reflexivity|]. simpl.
  rewrite !lookup_insert_eq. rewrite <- app_assoc. simpl.
  unfold after_await. simpl. rewrite E1.
  repeat split; try done. by destruct (isFinished d).
Qed.

(** X18. A card that cannot be rendered or cannot be sent ends the
    session: the worker reports the failure, enters no wait, and
    finishes with the notice that the game is stopped, which carries the
    answer of the card that was drawn, followed by the summary. *)
Theorem card_failure_path (this : addr) (w : World) (s : Session) (card : Card)
    (d : Deck) (url : option string) (photo : option Z)
    (ranking : list (Z * Score)) :
  workers w !! this = Some PLoop -> heap w !! this = Some s ->
  should_stop_ s = false -> isFinished (deck_ s) = false ->
  draw (deck_ s) = (Some card, d) ->
  url = None \/ photo = None ->
  std_sort_result by_point (scores_ s) ranking ->
  exists w',
    worker_run this [LCard url photo; LFinish ranking] w = Some w' /\
    outbox w' =
      outbox w ++
      match url with
      | None =>
          [sendMessage (chat_id_ s) "Failed to generate image, stopping session..."
             false 0 ""]
      | Some u =>
          [sendPhoto (chat_id_ s) u
             (getQuestionInfo card +:+ nl +:+ nl +:+ "Timeout: "
              +:+ to_string (timeout_ s) +:+ " seconds") (last_msg_id_ s);
           sendMessage (chat_id_ s) "Failed to send image, stopping session..."
             false 0 ""]
      end ++
      [sendMessage (chat_id_ s)
         ("Game is stopped!" +:+ nl +:+ nl +:+ getAnswerInfo card)
         false (last_msg_id_ s) "";
       sendMessage (chat_id_ s) (finish_text ranking) true 0 "HTML"] /\
    workers w' !! this = Some PDeregister.
Proof.
  intros Epc Es E1 E2 E3 Hfail R.
  set (s1 := set_current_card (Some card) (set_deck d s)).
  assert (F : exists calls,
            sendCard url photo card s1 = (calls, s1, false) /\
            calls = match url with
                    | None =>
                        [sendMessage (chat_id_ s)
                           "Failed to generate image, stopping session..." false 0 ""]
                    | Some u =>
                        [sendPhoto (chat_id_ s) u
                           (getQuestionInfo card +:+ nl +:+ nl +:+ "Timeout: "
                            +:+ to_string (timeout_ s) +:+ " seconds") (last_msg_id_ s);
                         sendMessage (chat_id_ s)
                           "Failed to send image, stopping session..." false 0 ""]
                    end).
  { unfold sendCard. destruct url as [u|]; [|eauto].
    destruct Hfail as [[=] | ->]. eauto. }
  destruct F as (calls & Fc & Ecalls).
  cbn [worker_run].
  rewrite (worker_step_loop_card this url photo w s card d) by done.
  cbv zeta. fold s1. rewrite Fc. cbn [fst snd].
  rewrite (worker_step_finish this ranking _ s1);
    [|apply lookup_insert_eq | apply lookup_insert_eq].
  unfold sendFinishMessage, sendFailMessage. rewrite decide_True by done.
  cbn [current_card_ s1 set_current_card].
  eexists. split; [reflexivity|]. split; [|apply lookup_insert_eq].
  simpl. rewrite <- Ecalls. by rewrite <- app_assoc.
Qed.

(** X19. When the worker thread cannot be started, [start] sends the
    failure message and then still the message that the session has
    started; no worker exists, and the session stays allocated and
    registered, so that its chat cannot get another session. *)
Theorem start_failure (what : string) (this : addr) (w : World) (s : Session) :
  heap w !! this = Some s ->
  outbox (start (Some what) this w) =
    outbox w ++
    [sendMessage (chat_id_ s) ("Failed to start session: " +:+ what) false 0 "";
     sendMessage (chat_id_ s) "Session started!" false 0 ""] /\
  workers (start (Some what) this w) = workers w /\
  heap (start (Some what) this w) = heap w /\
  g_sessions (start (Some what) this w) = g_sessions w /\
  (g_sessions w !! chat_id_ s = Some this ->
   forall deck_name,
     createSession (chat_id_ s) deck_name (start (Some what) this w)
     = (None, start (Some what) this w)).
Proof.
  intros Es. unfold start, _start. rewrite Es. simpl. rewrite Es. simpl.
  split; [by rewrite <- app_assoc|]. repeat (split; [done|]).
  intros G dn. apply createSession_mapped. simpl. rewrite G. eauto.
Qed.

End WorkerMore2.

(* ===================================================================== *)
(** * Further properties: dispatch, question image, summary text *)
(* ===================================================================== *)

Section DispatchMore.
Context {Card Deck : Type} `{CardOps Card} `{DeckOps Card Deck} `{SessionDefaults}
  `{JsonCodec}.

#[local] Abbreviation Session := (Session Card Deck).
#[local] Abbreviation World := (World Card Deck).

(** X20. A message in a chat that has a session always goes to that
    session and is never run as a command, whatever its text; [entry]
    then returns CONTINUE.  In a chat without session [entry] runs the
    command exactly when the text has the form of a command of this
    module, and only then it returns STOP; the state is not changed by
    the dispatch itself. *)
Theorem module_entry_dispatch (msg : Message) (w : World) :
  (forall p s, g_sessions w !! chat msg = Some p -> heap w !! p = Some s ->
     ref_count_ s <> 0 ->
     module_entry msg w =
     Some (ToSession (send (answer msg s).2 (store p (answer msg s).1 w)))) /\
  (g_sessions w !! chat msg = None ->
     module_entry msg w =
     Some (if is_jqftu_command (text msg) then ToCommand else PassedOn)) /\
  (forall d, module_entry msg w = Some d ->
     (dispatch_ret d = MOD_ENTRY_STOP <->
      g_sessions w !! chat msg = None /\ is_jqftu_command (text msg) = true)).
Proof.
  split; [|split].
  - intros p s G Hp Hr. unfold module_entry. rewrite G.
    by rewrite (entry_answers msg w p s G Hp Hr).
  - intros G. unfold module_entry. rewrite G. by destruct (is_jqftu_command _).
  - intros d. unfold module_entry. destruct (g_sessions w !! chat msg) as [p|].
    + destruct (entry msg w); intros [= <-]. simpl. split; [done | by intros [? _]].
    + destruct (is_jqftu_command (text msg)); intros [= <-]; simpl;
        split; try done; by intros [_ ?].
Qed.

End DispatchMore.

Section CommandText.

Lemma is_space_or_null_spec (c : ascii) :
  is_space_or_null c = true <->
  c = " "%char \/ c = "009"%char \/ c = "010"%char \/ c = zero.
Proof.
  unfold is_space_or_null.
  destruct (Ascii.eqb_spec c " "); [by split; auto|].
  destruct (Ascii.eqb_spec c "009"); [by split; auto|].
  destruct (Ascii.eqb_spec c "010"); [by split; auto|].
  destruct (Ascii.eqb_spec c zero); [by split; auto|].
  simpl. split; [done|]. intros [?|[?|[?|?]]]; done.
Qed.

(** X21. A text is taken as a command of this module exactly when it is
    one of [/], [!] and [.] followed by the five letters [jqftu] and then
    either nothing or a space, a tab, a line feed or a NUL character
    (and anything after that). *)
Theorem is_jqftu_command_spec (txt : string) :
  is_jqftu_command txt = true <->
  exists c rest,
    txt = String c ("jqftu" +:+ rest) /\
    (c = "/"%char \/ c = "!"%char \/ c = "."%char) /\
    (rest = "" \/ exists d r, rest = String d r /\ is_space_or_null d = true).
Proof.
  destruct txt as [|c0 [|c1 [|c2 [|c3 [|c4 [|c5 rest]]]]]];
    try (split; [done | by intros (c & r & [=] & _)]).
  unfold is_jqftu_command. cbn [String.length Nat.ltb Nat.leb substring].
  replace (substring 0 0 rest) with "" by (by destruct rest).
  change (c_index (String c0 (String c1 (String c2 (String c3 (String c4
            (String c5 rest)))))) 0) with c0.
  change (c_index (String c0 (String c1 (String c2 (String c3 (String c4
            (String c5 rest)))))) 6) with (c_index rest 0).
  cbn [String.eqb].
  split.
  - intros Hc.
    destruct (Ascii.eqb_spec c1 "j") as [->|];
      [|exfalso; simpl in Hc; repeat case_match; discriminate].
    destruct (Ascii.eqb_spec c2 "q") as [->|];
      [|exfalso; simpl in Hc; repeat case_match; discriminate].
    destruct (Ascii.eqb_spec c3 "f") as [->|];
      [|exfalso; simpl in Hc; repeat case_match; discriminate].
    destruct (Ascii.eqb_spec c4 "t") as [->|];
      [|exfalso; simpl in Hc; repeat case_match; discriminate].
    destruct (Ascii.eqb_spec c5 "u") as [->|];
      [|exfalso; simpl in Hc; repeat case_match; discriminate].
    exists c0, rest. split; [done|]. split.
    + destruct (Ascii.eqb_spec c0 "/"); [auto|].
      destruct (Ascii.eqb_spec c0 "!"); [auto|].
      destruct (Ascii.eqb_spec c0 "."); [auto|]. done.
    + destruct rest as [|d r]; [auto|]. right. exists d, r. split; [done|].
      change (c_index (String d r) 0) with d in Hc.
      destruct (is_space_or_null d); [done|].
      exfalso. simpl in Hc. repeat case_match; discriminate.
  - intros (c & r & [= -> -> -> -> -> -> ->] & Hc & Hr).
    assert (E0 : negb (Ascii.eqb c "/") && negb (Ascii.eqb c "!")
                 && negb (Ascii.eqb c ".") = false).
    { destruct Hc as [-> | [-> | ->]]; reflexivity. }
    rewrite E0.
    destruct Hr as [-> | (d & r' & -> & Hd)]; [reflexivity|].
    change (c_index ("" +:+ String d r') 0) with d. rewrite Hd. reflexivity.
Qed.

End CommandText.

Section ImageMore.
Context `{JsonCodec}.

Lemma c_str_length (s : string) : (String.length (c_str s) <= String.length s)%nat.
Proof.
  induction s as [|c s IH]; simpl; [lia|].
  destruct (Ascii.eqb c zero); simpl; lia.
Qed.

Lemma substring_fits (n : nat) (s : string) :
  (String.length s <= n)%nat -> substring 0 n s = s.
Proof.
  revert n. induction s as [|c s IH]; intros [|n] Hn; simpl in *; try done; try lia.
  rewrite IH; [done | lia].
Qed.

Lemma snprintf_fits (size : nat) (s : string) :
  (String.length s < size)%nat -> snprintf size s = s.
Proof. intros Hs. unfold snprintf. apply substring_fits. lia. Qed.

(** X22. [generate_text_image] returns a URL exactly when the reply of
    the rendering service is a JSON object with a string [res]; the URL
    is then the fixed address followed by [res] (read as a C string), in
    full: the buffer it is written to is never too short. *)
Theorem generate_text_image_spec (json_str : option string) (url : string) :
  generate_text_image json_str = Some url <->
  exists str m res,
    json_str = Some str /\ parse (c_str str) = Some (JObject m) /\
    obj_find "res" m = Some (JString res) /\
    url = url_template +:+ c_str res.
Proof.
  assert (Fit : forall res,
            snprintf (String.length url_template + String.length res + 1)
              (url_template +:+ c_str res) = url_template +:+ c_str res).
  { intros res. apply snprintf_fits. rewrite length_append.
    pose proof (c_str_length res). lia. }
  unfold generate_text_image. split.
  - destruct json_str as [str|]; [|done].
    destruct (parse (c_str str)) as [j|] eqn:P; [|done].
    destruct j as [| | | | |items|m]; try done.
    destruct (obj_find "res" m) as [v|] eqn:F; [|done].
    destruct v as [| | | |res| |]; try done.
    rewrite Fit. intros [= <-]. by exists str, m, res.
  - intros (str & m & res & -> & P & F & ->). rewrite P, F. by rewrite Fit.
Qed.

(** X23. The request body that [generate_latex_text] posts is the
    template with the question text in the place of [%s], in full: the
    buffer of [strlen(data_template) + strlen(kanji) + 1] bytes is two
    bytes longer than needed.  The question text is put in as it is. *)
Theorem latex_request_body_spec (kanji : string) :
  latex_request_body kanji = data_template_pre +:+ c_str kanji +:+ data_template_post /\
  (String.length (latex_request_body kanji) + 2
   = String.length data_template + String.length (c_str kanji))%nat.
Proof.
  assert (L : (String.length (data_template_pre +:+ c_str kanji +:+ data_template_post)
               + 2 = String.length data_template + String.length (c_str kanji))%nat).
  { unfold data_template. rewrite !length_append. simpl. lia. }
  assert (E : latex_request_body kanji
              = data_template_pre +:+ c_str kanji +:+ data_template_post).
  { unfold latex_request_body. apply snprintf_fits. lia. }
  split; [exact E|]. by rewrite E.
Qed.

(** The bytes in the buffer of a [curl_resp]. *)
Lemma curl_receive_ok (chunks : list (bool * string)) (cr : curl_resp) (buf : string) :
  Forall (fun c => c.1 = true) chunks ->
  size cr = String.length buf ->
  (data cr = Some buf \/ (data cr = None /\ buf = "")) ->
  exists cr',
    curl_receive chunks cr = (true, cr') /\
    size cr' = String.length (buf +:+ foldr (fun c acc => c.2 +:+ acc) "" chunks) /\
    (chunks <> [] ->
     data cr' = Some (buf +:+ foldr (fun c acc => c.2 +:+ acc) "" chunks)) /\
    (chunks = [] -> cr' = cr).
Proof.
  intros F. revert cr buf. induction F as [|[ok chunk] chunks Hok F IH]; intros cr buf Hs Hd.
  - exists cr. simpl. rewrite append_nil_r. done.
  - simpl in Hok. subst ok. cbn [curl_receive curl_cb].
    rewrite decide_True by done.
    assert (Eb : substring 0 (size cr) match data cr with Some d => d | None => "" end
                 = buf).
    { rewrite Hs. destruct Hd as [-> | [-> ->]]; [apply substring_all | done]. }
    rewrite Eb.
    destruct (IH (mk_curl_resp (Some (buf +:+ chunk)) (size cr + String.length chunk))
                (buf +:+ chunk)) as (cr' & R & S' & D' & N').
    { simpl. rewrite length_append. lia. }
    { by left. }
    exists cr'. split; [exact R|]. simpl. rewrite <- append_assoc.
    split; [exact S'|]. split; [|done]. intros _.
    destruct chunks as [|c0 chunks0]; [|by apply D'].
    rewrite (N' eq_refl). simpl. by rewrite append_nil_r.
Qed.

(** X24. When the transfer goes through and every [realloc] succeeds,
    [generate_latex_text] returns the chunks received, joined in their
    order; it returns nothing when no chunk arrived, when the transfer
    failed, or when the buffer could not be enlarged for a chunk that is
    not empty. *)
Theorem generate_latex_text_spec (connected : bool) (chunks : list (bool * string)) :
  (Forall (fun c => c.1 = true) chunks -> chunks <> [] ->
   generate_latex_text true chunks
   = Some (foldr (fun c acc => c.2 +:+ acc) "" chunks)) /\
  generate_latex_text connected [] = None /\
  generate_latex_text false chunks = None /\
  (forall a chunk b, chunks = a ++ (false, chunk) :: b -> chunk <> "" ->
     Forall (fun c => c.1 = true) a ->
     generate_latex_text connected chunks = None).
Proof.
  split; [|split; [|split]].
  - intros F N. unfold generate_latex_text.
    destruct (curl_receive_ok chunks (mk_curl_resp None 0) "" F eq_refl)
      as (cr' & R & _ & D & _); [by right|].
    rewrite R. simpl. by rewrite (D N).
  - unfold generate_latex_text. simpl. by destruct connected.
  - unfold generate_latex_text. by destruct (curl_receive _ _).
  - intros a chunk b -> Hne F. unfold generate_latex_text.
    assert (R : exists cr', curl_receive (a ++ (false, chunk) :: b) (mk_curl_resp None 0)
                            = (false, cr')).
    { generalize (mk_curl_resp None 0).
      induction F as [|[ok c] a Hok F IH]; intros cr.
      - simpl. rewrite decide_False; [eauto|].
        destruct chunk; [done | simpl; lia].
      - simpl in Hok. subst ok. cbn [app curl_receive curl_cb].
        rewrite decide_True by done. apply IH. }
    destruct R as [cr' R]. rewrite R. by rewrite andb_false_r.
Qed.

End ImageMore.

Section SummaryMore.

Lemma finish_lines_body (ranking : list (Z * Score)) (i : Z) (score : string) :
  0 <= i -> i + Z.of_nat (length ranking) < 2 ^ 32 ->
  finish_lines ranking i score = score +:+ finish_body i ranking.
Proof.
  revert i score. induction ranking as [|e ranking IH]; intros i score Hi Hn.
  - simpl. by rewrite append_nil_r.
  - cbn [finish_lines finish_body]. cbn [length] in Hn.
    rewrite uint32_small by lia. rewrite IH by lia.
    unfold finish_line. destruct (1 <? point_ e.2);
      rewrite ?append_assoc, ?append_nil_r; reflexivity.
Qed.

Lemma finish_body_app (a b : list (Z * Score)) (i : Z) :
  finish_body i (a ++ b) = finish_body i a +:+ finish_body (i + Z.of_nat (length a)) b.
Proof.
  revert i. induction a as [|e a IH]; intros i.
  - simpl. by rewrite Z.add_0_r.
  - cbn [app finish_body length]. rewrite IH, append_assoc.
    do 3 f_equal. lia.
Qed.

(** X25. The finish summary is its heading followed by one line per
    entry of the ranking, in the order of the ranking and numbered from 1
    on, as long as there are fewer than 2^32 - 1 entries; the lines of a
    ranking in two parts are the lines of the first part followed by
    those of the second, numbered on. *)
Theorem finish_text_lines (ranking : list (Z * Score)) :
  (Z.of_nat (length ranking) < 2 ^ 32 - 1 ->
   finish_text ranking = ("Session finished!" +:+ nl +:+ nl) +:+ finish_body 1 ranking) /\
  (forall a b i,
     finish_body i (a ++ b)
     = finish_body i a +:+ finish_body (i + Z.of_nat (length a)) b).
Proof.
  split; [|apply finish_body_app].
  intros Hn. unfold finish_text. apply finish_lines_body; lia.
Qed.

End SummaryMore.

(* ===================================================================== *)
(** * Further properties: the registry never dangles *)
(* ===================================================================== *)

Section SystemMore.
Context {Card Deck : Type} `{CardOps Card} `{DeckOps Card Deck} `{SessionDefaults}
  `{JsonCodec}.

#[local] Abbreviation Session := (Session Card Deck).
#[local] Abbreviation World := (World Card Deck).

Lemma release_heap_other (p q : addr) (w : World) :
  q <> p -> heap (release p w) !! q = heap w !! q.
Proof.
  intros Hne. unfold release. destruct (heap w !! p) as [s|]; [|done].
  destruct (decide (ref_count_ s = 1)); simpl.
  - by rewrite lookup_delete_ne.
  - by rewrite lookup_alter_ne.
Qed.

Lemma worker_step_heap_other (this q : addr) (l : Label) (w w' : World) :
  worker_step this l w = Some w' -> q <> this -> heap w' !! q = heap w !! q.
Proof.
  unfold worker_step. intros Hs Hne.
  destruct (workers w !! this) as [pc|]; [|done].
  destruct (heap w !! this) as [s|]; [|done].
  destruct pc, l; try done; repeat case_match; simplify_eq/=;
    rewrite ?lookup_insert_ne by done; try done.
  - by rewrite (proj1 (proj2 (serializeSessions_fields _ _ _ _ _))).
  - by rewrite (proj1 (deleteSession_rest _ _)).
  - by apply release_heap_other.
Qed.

Lemma sound_empty (files : gmap string string) :
  registry_sound (empty_world files : World).
Proof. split; intros ? *; simpl; by rewrite lookup_empty. Qed.

(** A write to an allocated session that keeps its chat id and does not
    lower its reference count. *)
Lemma sound_store (p : addr) (s s1 : Session) (w w' : World) :
  registry_sound w -> heap w !! p = Some s ->
  chat_id_ s1 = chat_id_ s -> ref_count_ s <= ref_count_ s1 ->
  g_sessions w' = g_sessions w -> heap w' = <[p := s1]> (heap w) ->
  (forall q, workers w' !! q = Some PRelease -> workers w !! q = Some PRelease) ->
  registry_sound w'.
Proof.
  intros [I1 I2] Hp Hc Hr Eg Eh Ew. split.
  - intros c q. rewrite Eg, Eh. intros G.
    destruct (I1 c q G) as (s0 & E0 & C0 & R0).
    destruct (decide (q = p)) as [->|Hne].
    + rewrite lookup_insert_eq. exists s1. simplify_eq. split; [done|]. split; [done|]. lia.
    + rewrite lookup_insert_ne by done. eauto.
  - intros q Hq. destruct (I2 q (Ew q Hq)) as [A U]. rewrite Eg, Eh. split; [|done].
    destruct (decide (q = p)) as [->|Hne].
    + rewrite lookup_insert_eq. eauto.
    + by rewrite lookup_insert_ne.
Qed.

Lemma sound_same (w w' : World) :
  registry_sound w -> g_sessions w' = g_sessions w -> heap w' = heap w ->
  (forall q, workers w' !! q = Some PRelease -> workers w !! q = Some PRelease) ->
  registry_sound w'.
Proof.
  intros [I1 I2] Eg Eh Ew. split.
  - intros c q. rewrite Eg, Eh. apply I1.
  - intros q Hq. rewrite Eg, Eh. apply I2. by apply Ew.
Qed.

Lemma sound_update (p : addr) (f : Session -> Session) (w : World) :
  registry_sound w ->
  (forall s, chat_id_ (f s) = chat_id_ s /\ ref_count_ s <= ref_count_ (f s)) ->
  registry_sound (update p f w).
Proof.
  intros I Hf. destruct (heap w !! p) as [s|] eqn:Hp.
  - apply (sound_store p s (f s) w); try done; try apply Hf.
    simpl. apply map_eq. intros q. destruct (decide (q = p)) as [->|Hne].
    + by rewrite lookup_alter_eq, lookup_insert_eq, Hp.
    + by rewrite lookup_alter_ne, lookup_insert_ne.
  - apply (sound_same w); try done. simpl. apply map_eq. intros q.
    destruct (decide (q = p)) as [->|Hne].
    + by rewrite lookup_alter_eq, Hp.
    + by rewrite lookup_alter_ne.
Qed.

(** A new session at an address that is not in use. *)
Lemma sound_new (c : Z) (p : addr) (s : Session) (w w' : World) :
  registry_sound w -> heap w !! p = None ->
  chat_id_ s = c -> 1 <= ref_count_ s ->
  g_sessions w' = <[c := p]> (g_sessions w) -> heap w' = <[p := s]> (heap w) ->
  (forall q, workers w' !! q = Some PRelease -> workers w !! q = Some PRelease) ->
  registry_sound w'.
Proof.
  intros [I1 I2] Hp Hc Hr Eg Eh Ew. split.
  - intros c' q. rewrite Eg, Eh. destruct (decide (c' = c)) as [->|Hne].
    + rewrite lookup_insert_eq. intros [= <-]. rewrite lookup_insert_eq. eauto.
    + rewrite lookup_insert_ne by done. intros G.
      destruct (I1 c' q G) as (s0 & E0 & C0 & R0).
      rewrite lookup_insert_ne by congruence. eauto.
  - intros q Hq. destruct (I2 q (Ew q Hq)) as [[s0 A] U].
    assert (q <> p) by congruence.
    rewrite Eg, Eh. rewrite lookup_insert_ne by done. split; [eauto|].
    intros c'. destruct (decide (c' = c)) as [->|Hne].
    + rewrite lookup_insert_eq. congruence.
    + rewrite lookup_insert_ne by done. apply U.
Qed.

Lemma method_keeps (m : Method) (s : Session) :
  chat_id_ (method m s) = chat_id_ s /\ ref_count_ s <= ref_count_ (method m s).
Proof.
  destruct m; simpl.
  - unfold stop. simpl. lia.
  - unfold setTimeout. destruct skip; simpl; lia.
  - unfold setNextDelay. destruct skip; simpl; lia.
Qed.

Lemma sound_worker_step (p : addr) (l : Label) (w w' : World) :
  registry_sound w -> worker_step p l w = Some w' -> registry_sound w'.
Proof.
  intros I Hs. pose proof (worker_step_heap_other p) as Ho.
  specialize (fun q => Ho q l w w' Hs).
  apply worker_step_kind in Hs as (pc & pc' & s & Epc & Es & Ew & K).
  destruct I as [I1 I2].
  destruct K as [-> | -> | pc pc' N1 N2 N3 N4 N5 Eg (s' & Es' & Ec & Er)].
  - (* the session leaves the registry *)
    split.
    + intros c q. simpl. rewrite deleteSession_registry.
      rewrite (proj1 (deleteSession_rest _ _)).
      intros G. apply lookup_delete_Some in G as [_ G]. by apply I1.
    + intros q. simpl. rewrite deleteSession_registry.
      rewrite (proj1 (deleteSession_rest _ _)).
      destruct (decide (q = p)) as [->|Hne].
      * intros _. split; [eauto|]. intros c G.
        apply lookup_delete_Some in G as [Hc G].
        destruct (I1 c p G) as (s0 & E0 & C0 & _). congruence.
      * rewrite lookup_insert_ne by done.
        rewrite (proj2 (proj2 (proj2 (deleteSession_rest _ _)))). intros Hq.
        destruct (I2 q Hq) as [A U]. split; [done|]. intros c G.
        apply lookup_delete_Some in G as [_ G]. by apply (U c).
  - (* the last reference of the worker *)
    destruct (I2 p Epc) as [_ U]. split.
    + intros c q. simpl. rewrite (proj1 (release_fields _ _)). intros G.
      assert (q <> p) by (intros ->; by apply (U c)).
      rewrite release_heap_other by done. by apply I1.
    + intros q. simpl. rewrite (proj1 (release_fields _ _)).
      rewrite (proj2 (proj2 (proj2 (release_fields _ _)))).
      destruct (decide (q = p)) as [->|Hne].
      * by rewrite lookup_insert_eq.
      * rewrite lookup_insert_ne by done. rewrite release_heap_other by done. apply I2.
  - split.
    + intros c q. rewrite Eg. intros G. destruct (I1 c q G) as (s0 & E0 & C0 & R0).
      destruct (decide (q = p)) as [->|Hne].
      * exists s'. simplify_eq. split; [done|]. split; [done|]. lia.
      * rewrite Ho by done. eauto.
    + intros q. rewrite Ew, Eg. destruct (decide (q = p)) as [->|Hne].
      * rewrite lookup_insert_eq. congruence.
      * rewrite lookup_insert_ne by done. rewrite Ho by done. apply I2.
Qed.

Lemma sound__start (spawn_error : option string) (p : addr) (w : World) :
  registry_sound w -> registry_sound (_start spawn_error p w).
Proof.
  intros I. apply (sound_same w); try done; try apply _start_fields.
  intros q. unfold _start. destruct spawn_error as [what|].
  - by destruct (heap w !! p).
  - simpl. destruct (decide (q = p)) as [->|Hne].
    + by rewrite lookup_insert_eq.
    + by rewrite lookup_insert_ne.
Qed.

Lemma sound_start (spawn_error : option string) (p : addr) (w : World) :
  registry_sound w -> registry_sound (start spawn_error p w).
Proof.
  intros I. apply (sound__start spawn_error p) in I. unfold start.
  destruct (heap _ !! p); [|done]. by apply (sound_same (_start spawn_error p w)).
Qed.

Lemma sound_createSession (c : Z) (deck_name : string) (w : World) :
  registry_sound w -> registry_sound (createSession c deck_name w).2.
Proof.
  intros I. destruct (createSession_cases c deck_name w) as [-> | (d & G & D & ->)];
    [done|].
  eapply (sound_new c (fresh (dom (heap w)))); try done.
  - apply fresh_unallocated.
  - done.
  - simpl. lia.
Qed.

Lemma sound_initSessionFromJson (spawn_error : option string) (j : json) (w : World) :
  registry_sound w -> registry_sound (initSessionFromJson spawn_error j w).
Proof.
  intros I. unfold initSessionFromJson.
  destruct (snapshot_fields j) as [[[c dn] items]|]; [|done].
  pose proof (sound_createSession c dn w I) as I'.
  destruct (createSession c dn w) as [[p|] w1]; [|done]. simpl in I'.
  apply sound__start. apply sound_update; [done|]. intros s. simpl. lia.
Qed.

Lemma sound_init (spawn_error : string -> option string) (listing : list string)
    (w : World) :
  registry_sound w -> registry_sound (init spawn_error listing w).
Proof.
  unfold init. revert w. induction listing as [|n l IH]; intros w I; simpl; [done|].
  apply IH. unfold init_entry, load_str_from_file.
  destruct (is_snapshot_name n); [|done].
  destruct (storage w !! n) as [txt|]; [|done].
  destruct (parse (c_str txt)); [|done]. by apply sound_initSessionFromJson.
Qed.

Lemma sound_entry (msg : Message) (w w' : World) :
  registry_sound w -> entry msg w = Some w' -> registry_sound w'.
Proof.
  intros I Hs. destruct (g_sessions w !! chat msg) as [p|] eqn:G.
  2:{ unfold entry in Hs. by rewrite (getSession_unmapped _ _ G) in Hs. }
  destruct (proj1 I _ _ G) as (s & Hp & Hc & Hr).
  rewrite (entry_answers msg w p s G Hp) in Hs by lia. injection Hs as <-.
  apply (sound_store p s (answer msg s).1 w); try done.
  - apply answer_chat_id.
  - rewrite answer_ref_count. lia.
Qed.

Lemma sound_sys_exec (e : SysEvent) (w w' : World) :
  registry_sound w -> sys_exec e w = Some w' -> registry_sound w'.
Proof.
  intros I. destruct e as [p l|msg|c dn|se p|se listing|c|p m]; simpl.
  - by apply sound_worker_step.
  - by apply sound_entry.
  - intros [= <-]. by apply sound_createSession.
  - intros [= <-]. by apply sound_start.
  - intros [= <-]. by apply sound_init.
  - intros [= <-]. unfold getSession. destruct (g_sessions w !! c); [|done].
    simpl. apply sound_update; [done|]. intros s. simpl. lia.
  - intros [= <-]. apply sound_update; [done|]. apply method_keeps.
Qed.

Lemma sound_sys_run (es : list SysEvent) (w w' : World) :
  registry_sound w -> sys_run es w = Some w' -> registry_sound w'.
Proof.
  revert w. induction es as [|e es IH]; intros w I; simpl.
  - by intros [= <-].
  - destruct (sys_exec e w) as [w1|] eqn:E; [|done].
    apply IH. by eapply sound_sys_exec.
Qed.

(** X26. Whatever the workers, the incoming messages, the creation and
    the start of sessions, the scan of the snapshots and the control
    methods do, and in whatever order, every chat id in the registry
    points to a session object that is allocated, belongs to that chat
    and is referenced at least once; and a worker that stands at its
    final release holds an object that no chat id is mapped to any more.
    So a message is handed to a session whenever its chat has one, and
    the object a worker frees is never one that [getSession] can still
    return.  (A message is handled in one step, and references taken
    with [getSession] are given back only where the sources do so, in
    [entry].) *)
Theorem registry_never_dangles (es : list SysEvent) (files : gmap string string)
    (w : World) :
  sys_run es (empty_world files) = Some w ->
  registry_sound w /\
  (forall msg, is_Some (g_sessions w !! chat msg) -> is_Some (entry msg w)) /\
  (forall p w', worker_step p LRun w = Some w' ->
     workers w !! p = Some PRelease ->
     forall c, (getSession c w).1 <> Some p /\
               (forall q, g_sessions w' !! c = Some q -> is_Some (heap w' !! q))).
Proof.
  intros R. pose proof (sound_sys_run es _ w (sound_empty files) R) as I.
  split; [done|]. split.
  - intros msg [p G]. destruct (proj1 I _ _ G) as (s & Hp & _ & Hr).
    rewrite (entry_answers msg w p s G Hp) by lia. eauto.
  - intros p w' Hs Hpc c. split.
    + unfold getSession. destruct (g_sessions w !! c) as [q|] eqn:G; [|done].
      simpl. intros [= ->]. by apply (proj2 (proj2 I p Hpc) c).
    + intros q G. pose proof (sound_worker_step p LRun w w' I Hs) as I'.
      destruct (proj1 I' _ _ G) as (s & -> & _). eauto.
Qed.

End SystemMore.

(* ===================================================================== *)
(** * The further properties at concrete inputs *)
(* ===================================================================== *)

Module MoreChecks.
Import Example Samples.

(** X5 while [card1] is shown in chat 42: the lookup returns the session
    at address 1, and giving the reference back restores the state. *)
Lemma get_put_roundtrip_witness :
  (getSession 42 asking_world).1 = Some 1%positive /\
  putSession 1%positive (getSession 42 asking_world).2 = asking_world.
Proof.
  assert (G : g_sessions asking_world !! 42 = Some 1%positive)
    by (vm_compute; reflexivity).
  assert (Hp : heap asking_world !! 1%positive = Some asking_session)
    by (vm_compute; reflexivity).
  destruct (get_put_roundtrip 42 asking_world 1%positive asking_session G Hp)
    as (A & B & _).
  split; [exact A|]. apply B. simpl. lia.
Defined.

(** X6 for Ann's right answer and for her wrong one. *)
Lemma entry_effect_witness :
  entry right_from_ann asking_world
    = Some (send (answer right_from_ann asking_session).2
              (store 1%positive (answer right_from_ann asking_session).1
                 asking_world)) /\
  entry wrong_from_ann asking_world = Some asking_world.
Proof.
  assert (G : g_sessions asking_world !! 42 = Some 1%positive)
    by (vm_compute; reflexivity).
  assert (Hp : heap asking_world !! 1%positive = Some asking_session)
    by (vm_compute; reflexivity).
  assert (Hr : ref_count_ asking_session <> 0) by (simpl; lia).
  split.
  - exact (proj1 (entry_effect right_from_ann asking_world 1%positive
                    asking_session G Hp Hr)).
  - apply (proj2 (entry_effect wrong_from_ann asking_world 1%positive
                    asking_session G Hp Hr)).
    vm_compute; reflexivity.
Defined.

(** X7 in a new process. *)
Lemma createSession_once_witness :
  createSession 42 "two" created_world = (None, created_world) /\
  (getSession 42 created_world).1 = Some 1%positive.
Proof.
  assert (C : createSession 42 "one" (empty_world ∅)
              = (Some 1%positive, created_world)) by (vm_compute; reflexivity).
  destruct (createSession_once 42 "one" (empty_world ∅) created_world 1%positive C)
    as (A & B & _).
  split; [apply A | exact B].
Defined.

(** X14 in [loop_world]: the last card is sent as message 77, and the
    notice is a reply to message 77. *)
Lemma timeout_path_witness :
  exists w',
    worker_run 1%positive [LCard (Some "http://img/2") (Some 77); LWake timeout]
      loop_world = Some w' /\
    outbox w' =
      [sendPhoto 42 "http://img/2"
         ("second question" +:+ nl +:+ nl +:+ "Timeout: " +:+ to_string 30
          +:+ " seconds") 0;
       sendMessage 42 ("Time's up!" +:+ nl +:+ nl +:+ "answer: a2") false 77 ""] /\
    workers w' !! 1%positive = Some PSave.
Proof.
  assert (P : workers loop_world !! 1%positive = Some PLoop)
    by (vm_compute; reflexivity).
  assert (Hp : heap loop_world !! 1%positive = Some live_session)
    by (vm_compute; reflexivity).
  assert (F : isFinished (deck_ live_session) = false) by reflexivity.
  assert (D : draw (deck_ live_session) = (Some card2, mkDeck "two" []))
    by reflexivity.
  destruct (timeout_path 1%positive loop_world live_session card2 (mkDeck "two" [])
              "http://img/2" 77 P Hp eq_refl F D)
    as (w' & s' & R & O & _ & _ & _ & _ & _ & _ & _ & _ & W).
  exists w'. split; [exact R|]. split; [exact O | exact W].
Defined.

(** X15 in [asking_world]. *)
Lemma stop_path_witness :
  exists w',
    worker_run 1%positive [LWake no_timeout; LSave true 1000 1000; LCard None None;
                           LFinish board2] (call 1%positive stop asking_world)
      = Some w' /\
    outbox w' =
      [sendMessage 42 ("Game is stopped!" +:+ nl +:+ nl +:+ "answer: a1") false 55 "";
       sendMessage 42 (finish_text board2) true 0 "HTML"] /\
    workers w' !! 1%positive = Some PDeregister.
Proof.
  assert (P : workers asking_world !! 1%positive = Some PAwait)
    by (vm_compute; reflexivity).
  assert (Hp : heap asking_world !! 1%positive = Some asking_session)
    by (vm_compute; reflexivity).
  assert (Hs : std_sort_result by_point (scores_ asking_session) board2).
  { split; [reflexivity|]. repeat constructor. }
  destruct (stop_path 1%positive asking_world asking_session card1 true 1000%nat
              1000%nat None None board2 P Hp eq_refl Hs)
    as (w' & s' & R & O & _ & _ & _ & W).
  exists w'. split; [exact R|]. split; [exact O | exact W].
Defined.


(** X17 for the whole run of the worker of [started_world]. *)
Lemma worker_reference_balance_witness :
  exists w' s',
    worker_run 1%positive whole_run started_world = Some w' /\
    heap w' !! 1%positive = Some s' /\ ref_count_ s' = 1.
Proof.
  assert (R : exists w', worker_run 1%positive whole_run started_world = Some w'
                         /\ workers w' !! 1%positive = Some PDone)
    by (vm_compute; eexists; split; reflexivity).
  destruct R as (w' & R & D).
  assert (P : workers started_world !! 1%positive = Some PStart)
    by (vm_compute; reflexivity).
  assert (Hp : heap started_world !! 1%positive = Some created_session)
    by (vm_compute; reflexivity).
  assert (Hr : ref_count_ created_session <> 0) by (simpl; lia).
  destruct (worker_reference_balance 1%positive whole_run started_world w'
              created_session P Hp Hr R) as (s' & E & _ & F).
  exists w', s'. split; [exact R|]. split; [exact E|]. exact (F D).
Defined.

(** X18 in [loop_world] when the image cannot be rendered. *)
Lemma card_failure_path_witness :
  exists w',
    worker_run 1%positive [LCard None None; LFinish board2] loop_world = Some w' /\
    outbox w' =
      [sendMessage 42 "Failed to generate image, stopping session..." false 0 "";
       sendMessage 42 ("Game is stopped!" +:+ nl +:+ nl +:+ "answer: a2") false 0 "";
       sendMessage 42 (finish_text board2) true 0 "HTML"] /\
    workers w' !! 1%positive = Some PDeregister.
Proof.
  assert (P : workers loop_world !! 1%positive = Some PLoop)
    by (vm_compute; reflexivity).
  assert (Hp : heap loop_world !! 1%positive = Some live_session)
    by (vm_compute; reflexivity).
  assert (Hs : std_sort_result by_point (scores_ live_session) board2).
  { split; [reflexivity|]. repeat constructor. }
  exact (card_failure_path 1%positive loop_world live_session card2
           (mkDeck "two" []) None None board2 P Hp eq_refl eq_refl eq_refl
           (or_introl eq_refl) Hs).
Defined.

(** X19 for the session of [created_world]. *)
Lemma start_failure_witness :
  outbox (start (Some "no threads") 1%positive created_world) =
    [sendMessage 42 ("Failed to start session: " +:+ "no threads") false 0 "";
     sendMessage 42 "Session started!" false 0 ""] /\
  createSession 42 "two" (start (Some "no threads") 1%positive created_world)
    = (None, start (Some "no threads") 1%positive created_world).
Proof.
  assert (Hp : heap created_world !! 1%positive = Some created_session)
    by (vm_compute; reflexivity).
  assert (G : g_sessions created_world !! chat_id_ created_session = Some 1%positive)
    by (vm_compute; reflexivity).
  destruct (start_failure "no threads" 1%positive created_world created_session Hp)
    as (O & _ & _ & _ & C).
  split; [exact O|]. exact (C G "two").
Defined.

(** X26 for [sample_events]: at their end the worker of chat 42 stands
    at its release, chat 7 still has its session, and the registry is
    sound. *)
Lemma registry_never_dangles_witness :
  exists w,
    sys_run sample_events (empty_world ∅) = Some w /\
    workers w !! 1%positive = Some PRelease /\
    g_sessions w !! 7 = Some 2%positive /\
    registry_sound w /\ is_Some (entry command_in_7 w).
Proof.
  assert (R : exists w, sys_run sample_events (empty_world ∅) = Some w /\
                        workers w !! 1%positive = Some PRelease /\
                        g_sessions w !! 7 = Some 2%positive)
    by (vm_compute; eexists; repeat split; reflexivity).
  destruct R as (w & R & P & G).
  destruct (registry_never_dangles sample_events ∅ w R) as (I & E & _).
  exists w. split; [exact R|]. split; [exact P|]. split; [exact G|].
  split; [exact I|]. apply E. exists 2%positive. exact G.
Defined.

(** X3 for the board of [asking_session] and Dan's right answer. *)
Lemma scoreboard_distinct_ids_witness :
  NoDup (scores_ (answer right_from_dan asking_session).1).*1 /\
  sb_find 7 board2 = Some (mkScore 2 "Ann Lee" "ann").
Proof.
  assert (N : NoDup (scores_ asking_session).*1).
  { repeat constructor; vm_compute; intros Hin; inversion Hin; subst;
      repeat match goal with H : _ ∈ _ |- _ => inversion H; subst; clear H end. }
  destruct (scoreboard_distinct_ids (Card:=Card) (Deck:=Deck)) as (A & _ & C).
  split; [exact (A right_from_dan asking_session N)|].
  apply (C board2 7 (mkScore 2 "Ann Lee" "ann") N). left.
Defined.

(** X4 for three replies to [card1]: a wrong one, Ann's right one and
    then Dan's right one; one point is awarded. *)
Lemma answers_at_most_one_point_witness :
  total_points (scores_ (answers [wrong_from_ann; right_from_ann; right_from_dan]
                           asking_session).1)
  = total_points (scores_ asking_session) + 1.
Proof.
  assert (F : Forall (fun e : Z * Score => 0 <= point_ e.2 < 2 ^ 32 - 1)
                (scores_ asking_session)).
  { repeat constructor; simpl; lia. }
  exact (proj2 (proj2 (answers_at_most_one_point
           [wrong_from_ann; right_from_ann; right_from_dan] asking_session)) F).
Defined.

(** X12 and X13 for the sample directory: a second scan changes nothing,
    and the scan sends nothing. *)
Lemma init_idempotent_witness :
  init no_spawn_error sample_listing
    (init no_spawn_error sample_listing (empty_world sample_files))
  = init no_spawn_error sample_listing (empty_world sample_files).
Proof.
  exact (proj2 (init_idempotent no_spawn_error no_spawn_error sample_listing
                  (empty_world sample_files))).
Defined.

Lemma init_frame_witness :
  outbox (init no_spawn_error sample_listing (empty_world sample_files)) = [].
Proof.
  exact (proj2 (proj2 (init_frame no_spawn_error sample_listing
                         (empty_world sample_files))) (fun n => eq_refl)).
Defined.

(** X20: in chat 42, which has a session, a command text is handed to
    the session; in a chat without session it is run as a command, and
    other text is passed on. *)
Lemma module_entry_dispatch_witness :
  module_entry command_in_42 asking_world = Some (ToSession asking_world) /\
  module_entry command_in_7 asking_world = Some ToCommand /\
  module_entry chatter_in_7 asking_world = Some PassedOn.
Proof.
  assert (G : g_sessions asking_world !! chat command_in_42 = Some 1%positive)
    by (vm_compute; reflexivity).
  assert (Hp : heap asking_world !! 1%positive = Some asking_session)
    by (vm_compute; reflexivity).
  assert (Hr : ref_count_ asking_session <> 0) by (simpl; lia).
  assert (G7 : g_sessions asking_world !! 7 = None) by (vm_compute; reflexivity).
  assert (E : send (answer command_in_42 asking_session).2
                (store 1%positive (answer command_in_42 asking_session).1 asking_world)
              = asking_world) by (vm_compute; reflexivity).
  split; [|split].
  - rewrite <- E at 2.
    exact (proj1 (module_entry_dispatch command_in_42 asking_world)
             1%positive asking_session G Hp Hr).
  - exact (proj1 (proj2 (module_entry_dispatch command_in_7 asking_world)) G7).
  - exact (proj1 (proj2 (module_entry_dispatch chatter_in_7 asking_world)) G7).
Defined.

(** X21 for a command with an argument. *)
Lemma is_jqftu_command_witness : is_jqftu_command "/jqftu start two" = true.
Proof.
  apply (proj2 (is_jqftu_command_spec "/jqftu start two")).
  exists "/"%char, " start two". split; [reflexivity|]. split; [by left|].
  right. exists " "%char, "start two". split; reflexivity.
Defined.

(** X22 and X24 for a reply of the rendering service that comes in two
    chunks. *)
Lemma generate_text_image_witness :
  generate_text_image (Some reply_ok) = Some (url_template +:+ "abc123").
Proof.
  apply (proj2 (generate_text_image_spec (Some reply_ok) (url_template +:+ "abc123"))).
  exists reply_ok, [("res", JString "abc123")], "abc123".
  split; [reflexivity|]. split; [vm_compute; reflexivity|].
  split; reflexivity.
Defined.

Lemma generate_latex_text_witness :
  generate_latex_text true reply_chunks = Some reply_ok.
Proof.
  assert (F : Forall (fun c : bool * string => c.1 = true) reply_chunks)
    by (repeat constructor).
  assert (N : reply_chunks <> []) by discriminate.
  assert (E : foldr (fun (c : bool * string) acc => c.2 +:+ acc) "" reply_chunks
              = reply_ok) by (vm_compute; reflexivity).
  rewrite <- E.
  exact (proj1 (generate_latex_text_spec true reply_chunks) F N).
Defined.

(** X25 for the board of the running session. *)
Lemma finish_text_lines_witness :
  finish_text board2 = ("Session finished!" +:+ nl +:+ nl) +:+ finish_body 1 board2.
Proof.
  apply (proj1 (finish_text_lines board2)). simpl. lia.
Defined.

End MoreChecks.
